(** * llm-docs-generator: the document tree, its adapters and its renderer

    A shallow embedding of the TypeScript sources

      - [src/core/models.ts]                (DocNode, ContentBlock, SpecData)
      - [src/core/universal-formatter.ts]   (UniversalFormatter)
      - [src/parsers/openref/adapter.ts]    (OpenRef -> DocNode)
      - [src/parsers/markdown/parser.ts]    (MarkdownParser.buildSections)
      - [src/parsers/markdown/adapter.ts]   (Markdown -> DocNode)
      - [src/core/detector.ts], [src/parsers/base.ts] and the two
        [index.ts] of the parsers           (FormatDetector and its probes)

    followed by the properties of the specification that are stated about
    them, and by further properties of the sources.  JavaScript strings are modelled by [string]; [Map<string, _>] by
    [gmap string _] where only lookups matter and by an association list
    where the iteration order matters; arrays by [list], [push] being
    [l ++ [x]]; [parts.join('')] by [join ""]. *)

From stdpp Require Import base strings gmap list pretty.

Open Scope string_scope.
Open Scope list_scope.

(* ====================================================================== *)
(** ** JavaScript values and operators used by the sources *)
(* ====================================================================== *)

Module Js.

(** The values that are stored under [unknown] in metadata and annotation
    maps: the adapters store strings, booleans, array lengths and heading
    levels, and [undefined] for absent optional fields.  Numbers are the
    integer-valued ones. *)
Inductive value : Type :=
| VUndefined
| VString (s : string)
| VNumber (z : Z)
| VBool (b : bool).

(** [Boolean(v)]. *)
Definition truthy (v : value) : bool :=
  match v with
  | VUndefined => false
  | VString s => negb (String.eqb s "")
  | VNumber z => negb (z =? 0)%Z
  | VBool b => b
  end.

(** [`${v}`]. *)
Definition toString (v : value) : string :=
  match v with
  | VUndefined => "undefined"
  | VString s => s
  | VNumber z => pretty z
  | VBool true => "true"
  | VBool false => "false"
  end.

(** [m.get(k)]: a missing key reads as [undefined]. *)
Definition get (m : gmap string value) (k : string) : value :=
  default VUndefined (m !! k).

(** [a || b] on values. *)
Definition or (a b : value) : value := if truthy a then a else b.

(** A string is truthy when it is not empty. *)
Definition nonEmpty (s : string) : bool := negb (String.eqb s "").

(** [a || d] where [a] is an optional string property and [d] a string. *)
Definition strOr (a : option string) (d : string) : string :=
  match a with
  | Some s => if nonEmpty s then s else d
  | None => d
  end.

(** [parts.join(sep)]. *)
Definition join (sep : string) (parts : list string) : string :=
  String.concat sep parts.

(** ['c'.repeat(n)] for a one-character string. *)
Fixpoint repeat (s : string) (n : nat) : string :=
  match n with
  | O => ""
  | S n' => s +:+ repeat s n'
  end.

(** [s.includes(sub)]. *)
Definition includes (s sub : string) : bool :=
  match String.index 0 sub s with
  | Some _ => true
  | None => match sub with "" => true | _ => false end
  end.

End Js.

(* ====================================================================== *)
(** ** src/core/models.ts *)
(* ====================================================================== *)

Module Models.

Inductive ContentBlockType : Type := PROSE | CODE | DATA.

Record ContentBlock : Type := mkContentBlock {
  block_type : ContentBlockType;
  block_language : option string;
  block_content : string;
  block_annotations : option (gmap string Js.value)
}.

Inductive DocNodeType : Type := ROOT | CATEGORY | SECTION | OPERATION | ITEM.

#[global] Instance DocNodeType_eq_dec : EqDecision DocNodeType.
Proof. solve_decision. Defined.

(** [a === b] on node types. *)
Definition DocNodeType_eqb (a b : DocNodeType) : bool :=
  match a, b with
  | ROOT, ROOT | CATEGORY, CATEGORY | SECTION, SECTION
  | OPERATION, OPERATION | ITEM, ITEM => true
  | _, _ => false
  end.

#[warnings="-register-all"]
Inductive DocNode : Type := mkDocNode {
  node_type : DocNodeType;
  node_id : string;
  node_title : string;
  node_description : string;
  node_content : list ContentBlock;
  node_children : list DocNode;
  node_metadata : gmap string Js.value
}.

(** The [options] argument of [createDocNode]. *)
Record DocNodeOptions : Type := mkDocNodeOptions {
  opt_description : option string;
  opt_content : option (list ContentBlock);
  opt_children : option (list DocNode);
  opt_metadata : option (gmap string Js.value)
}.

Definition createDocNode (type : DocNodeType) (id title : string)
    (options : DocNodeOptions) : DocNode :=
  {| node_type := type;
     node_id := id;
     node_title := title;
     node_description := default "" (opt_description options);
     node_content := default [] (opt_content options);
     node_children := default [] (opt_children options);
     node_metadata := default ∅ (opt_metadata options) |}.

Definition createContentBlock (type : ContentBlockType) (content : string)
    (language : option string) (annotations : option (gmap string Js.value))
    : ContentBlock :=
  {| block_type := type;
     block_content := content;
     block_language := language;
     block_annotations := annotations |}.

(** Legacy OpenRef models. *)
Record Example : Type := mkExample {
  ex_id : string;
  ex_name : string;
  ex_code : string;
  ex_description : string;
  ex_dataSql : string;
  ex_response : string;
  ex_isSpotlight : bool
}.

Record Operation : Type := mkOperation {
  op_id : string;
  op_title : string;
  op_description : string;
  op_notes : string;
  op_examples : list Example
}.

Record SpecInfo : Type := mkSpecInfo {
  info_id : string;
  info_title : string;
  info_description : string;
  info_specUrl : option string
}.

Record SpecData : Type := mkSpecData {
  spec_info : SpecInfo;
  spec_operations : list Operation;
  spec_operationMap : option (gmap string Operation)
}.

(** [new Map(operations.map((op) => [op.id, op]))], also the loop of
    [createSpecData]: a later operation replaces an earlier one that has
    the same id. *)
Definition buildOperationMap (operations : list Operation)
    : gmap string Operation :=
  foldl (fun m op => <[op_id op := op]> m) ∅ operations.

Definition createSpecData (info : SpecInfo) (operations : list Operation)
    : SpecData :=
  {| spec_info := info;
     spec_operations := operations;
     spec_operationMap := Some (buildOperationMap operations) |}.

End Models.

(* ====================================================================== *)
(** ** src/core/universal-formatter.ts *)
(* ====================================================================== *)

Module Formatter.
Import Models.

Definition NEWLINE : string :=
  String (Ascii.Ascii false true false true false false false false) "".
Definition DOUBLE_NEWLINE : string := NEWLINE +:+ NEWLINE.

Record FormatterOptions : Type := mkFormatterOptions {
  outputDir : string;
  filenamePrefix : option string;
  title : option string;
  systemPrompt : option string;
  includeMetadata : option bool
}.

(** The file operations the formatter asks for, in the order it awaits
    them.  [SOpen]/[SChunk] are what [createWriteStream] and [pipeline] do
    to the destination: the file is truncated when it is opened and every
    chunk read from the source is appended. *)
Inductive Effect : Type :=
| Mkdir (path : string)
| WriteFile (path content : string)
| SOpen (path : string)
| SChunk (path chunk : string).

(** What an operation does to the text of the files once the file system
    has accepted it.  Whether it accepts it is not decided here, see
    [awaitAll]. *)
Definition applyEffect (files : gmap string string) (e : Effect)
    : gmap string string :=
  match e with
  | Mkdir _ => files
  | WriteFile path content => <[path := content]> files
  | SOpen path => <[path := ""]> files
  | SChunk path chunk =>
      <[path := default "" (files !! path) +:+ chunk]> files
  end.

(** The files on disk after a sequence of accepted operations. *)
Definition disk (files : gmap string string) (trace : list Effect)
    : gmap string string :=
  foldl applyEffect files trace.

(** [getHeading]: the node type is not used. *)
Definition getHeading (type : DocNodeType) (depth : nat) : string :=
  let level := Nat.min (depth + 1) 4 in
  Js.repeat "#" level.

Definition formatContent (content : ContentBlock) : string :=
  let parts : list string :=
    match block_type content with
    | PROSE => [block_content content; DOUBLE_NEWLINE]
    | CODE =>
        let lang := Js.strOr (block_language content) "text" in
        ["```"; lang; NEWLINE] ++ [block_content content; NEWLINE]
          ++ ["```"; DOUBLE_NEWLINE]
    | DATA =>
        let dataType :=
          Js.or (match block_annotations content with
                 | Some a => Js.get a "type"
                 | None => Js.VUndefined
                 end) (Js.VString "data") in
        [NEWLINE; "// " +:+ Js.toString dataType; NEWLINE]
          ++ ["/*"; NEWLINE] ++ [block_content content; NEWLINE]
          ++ ["*/"; NEWLINE; NEWLINE]
    end in
  Js.join "" parts.

(** [numbers.join('.')]. *)
Definition numberString (numbers : list nat) : string :=
  Js.join "." (map pretty numbers).

(** [`${heading} ${numberString}. ${node.title}`]. *)
Definition headingLine (node : DocNode) (numbers : list nat) : string :=
  getHeading (node_type node) (length numbers) +:+ " "
    +:+ numberString numbers +:+ ". " +:+ node_title node.

Fixpoint formatNode (node : DocNode) (numbers : list nat) {struct node}
    : string :=
  (* [for (const child of node.children)] with its counter [childNum];
     [path childNum] is the number list handed to the child *)
  let fix eachChild (path : nat -> list nat) (children : list DocNode)
      (childNum : nat) {struct children} : list string :=
    match children with
    | [] => []
    | child :: rest =>
        formatNode child (path childNum) :: eachChild path rest (S childNum)
    end in
  match node_type node with
  | ROOT =>
      Js.join "" (eachChild (fun childNum => [childNum])
                    (node_children node) 1)
  | _ =>
      let parts := [headingLine node numbers; DOUBLE_NEWLINE] in
      let parts :=
        if Js.nonEmpty (node_description node)
        then parts ++ [node_description node; DOUBLE_NEWLINE]
        else parts in
      let parts := parts ++ map formatContent (node_content node) in
      let parts :=
        parts ++ eachChild (fun childNum => numbers ++ [childNum])
                   (node_children node) 1 in
      Js.join "" parts
  end.

Section Render.
(** The tree and the options of the formatter instance, and the date
    [new Date().toLocaleDateString('en-US', ...)] returns when the header
    is generated. *)
Variable root : DocNode.
Variable options : FormatterOptions.
Variable date : string.

Definition generateHeader : string :=
  let systemPrompt :=
    Js.strOr (systemPrompt options)
      ("This is the complete developer documentation for "
         +:+ Js.strOr (title options) (node_title root) +:+ ".") in
  let parts := ["<SYSTEM>" +:+ systemPrompt +:+ "</SYSTEM>"; DOUBLE_NEWLINE] in
  let parts :=
    match includeMetadata options with
    | Some false => parts
    | _ =>
        let format :=
          Js.or (Js.get (node_metadata root) "format")
            (Js.VString "unknown") in
        parts ++ ["<!-- Format: " +:+ Js.toString format
                    +:+ ", Generated: " +:+ date +:+ " -->";
                  DOUBLE_NEWLINE]
    end in
  let title := Js.strOr (title options) (node_title root) in
  let parts := parts ++ ["# " +:+ title; DOUBLE_NEWLINE] in
  Js.join "" parts.

Definition generateCategoryHeader (category : DocNode) : string :=
  let title := Js.strOr (title options) (node_title root) in
  let systemPrompt :=
    "This is the developer documentation for " +:+ title +:+ " - "
      +:+ node_title category +:+ "." in
  let parts := ["<SYSTEM>" +:+ systemPrompt +:+ "</SYSTEM>"; DOUBLE_NEWLINE] in
  let parts :=
    parts ++ ["# " +:+ title +:+ " " +:+ node_title category
                +:+ " Documentation"; DOUBLE_NEWLINE] in
  let parts :=
    if Js.nonEmpty (node_description category)
    then parts ++ [node_description category; DOUBLE_NEWLINE]
    else parts in
  Js.join "" parts.

(** [Readable.from([content])] piped into [createWriteStream(filepath)]. *)
Definition writeFileStream (filepath content : string) : list Effect :=
  let readable := [content] in
  SOpen filepath :: map (SChunk filepath) readable.

Definition writeFile (filepath content : string) : list Effect :=
  [WriteFile filepath content].

(** The text of the full document: header, then the tree. *)
Definition fullDocContent : string :=
  Js.join "" [generateHeader; formatNode root []].

Definition fullDocPath : string :=
  let prefix := Js.strOr (filenamePrefix options) "documentation" in
  outputDir options +:+ "/" +:+ prefix +:+ "-full-llms.txt".

(** [generateFullDoc], the size above which the text is streamed being
    [threshold]. *)
Definition generateFullDocAbove (threshold : N) : list Effect :=
  let filepath := fullDocPath in
  let content := fullDocContent in
  if (threshold <? N.of_nat (String.length content))%N
  then writeFileStream filepath content
  else writeFile filepath content.

Definition generateFullDoc : list Effect :=
  generateFullDocAbove (10 * 1024 * 1024)%N.

Definition categoryFilename (category : DocNode) : string :=
  let prefix := Js.strOr (filenamePrefix options) "documentation" in
  prefix +:+ "-" +:+ node_id category +:+ "-llms.txt".

Definition categoryContent (category : DocNode) : string :=
  Js.join "" [generateCategoryHeader category; formatNode category []].

Definition generateModularDocs : list Effect :=
  let categories := filter (fun child => node_type child = CATEGORY)
                      (node_children root) in
  match categories with
  | [] => []
  | _ =>
      flat_map (fun category =>
        let filepath :=
          outputDir options +:+ "/" +:+ categoryFilename category in
        writeFile filepath (categoryContent category)) categories
  end.

(** The operations [generateAll] awaits, in order, as long as none of
    them is rejected. *)
Definition generateAll : list Effect :=
  [Mkdir (outputDir options)] ++ generateFullDoc ++ generateModularDocs.

End Render.

(** How far a sequence of awaited operations got: the operations the file
    system accepted, in order; the operation it rejected, if any; and the
    state it is left in. *)
Record Run (World : Type) : Type := mkRun {
  performed : list Effect;
  rejected : option Effect;
  world : World
}.

Arguments mkRun {World} _ _ _.
Arguments performed {World} _.
Arguments rejected {World} _.
Arguments world {World} _.

Section Await.
(** The file system the formatter runs on: its states, and what it does
    with an operation in a state.  With [None] it rejects the operation (a
    directory that is missing, a directory in the place of the file,
    missing rights, a full disk, ...) and the promise of [mkdir],
    [writeFile] or [pipeline] rejects. *)
Context {World : Type}.
Variable perform : World -> Effect -> option World.

(** [await] on one operation after the other: the first operation that is
    rejected rejects the caller, and what comes after it is not started. *)
Fixpoint awaitAll (state : World) (operations : list Effect) : Run World :=
  match operations with
  | [] => {| performed := []; rejected := None; world := state |}
  | operation :: rest =>
      match perform state operation with
      | Some state' =>
          let run := awaitAll state' rest in
          {| performed := operation :: performed run;
             rejected := rejected run;
             world := world run |}
      | None =>
          {| performed := []; rejected := Some operation; world := state |}
      end
  end.

(** [formatDocNode(root, options)]: a render, [generateAll] of a new
    formatter, on a file system in the given state. *)
Definition formatDocNode (state : World) (root : DocNode)
    (options : FormatterOptions) (date : string) : Run World :=
  awaitAll state (generateAll root options date).

End Await.

End Formatter.

(* ====================================================================== *)
(** ** src/parsers/openref/adapter.ts *)
(* ====================================================================== *)

Module OpenRefAdapter.
Import Models.

(** [&&] binds tighter than [||] in the source conditions. *)
Definition inferLanguage (code : string) : string :=
  if Js.includes code "const " || Js.includes code "let "
     || Js.includes code "async "
  then "javascript"
  else if Js.includes code "func "
          || (Js.includes code "let " && Js.includes code ":")
  then "swift"
  else if Js.includes code "def "
          || (Js.includes code "import " && Js.includes code "from ")
  then "python"
  else if Js.includes code "public class" || Js.includes code "private val"
  then "kotlin"
  else if (Js.includes code "class " && Js.includes code "{")
          || Js.includes code "using "
  then "csharp"
  else if Js.includes code "void " || Js.includes code "Future<"
  then "dart"
  else "code".

Definition convertExample (example : Example) : DocNode :=
  let metadata : gmap string Js.value := ∅ in
  let metadata := <["exampleId" := Js.VString (ex_id example)]> metadata in
  let metadata :=
    <["isSpotlight" := Js.VBool (ex_isSpotlight example)]> metadata in
  let content : list ContentBlock := [] in
  let content :=
    if Js.nonEmpty (ex_description example)
    then content ++ [createContentBlock PROSE (ex_description example)
                       None None]
    else content in
  let content :=
    if Js.nonEmpty (ex_code example)
    then
      let language := inferLanguage (ex_code example) in
      content ++ [createContentBlock CODE (ex_code example)
                    (Some language) None]
    else content in
  let content :=
    if Js.nonEmpty (ex_dataSql example)
    then content ++ [createContentBlock DATA (ex_dataSql example)
                       (Some "sql")
                       (Some {["type" := Js.VString "schema"]})]
    else content in
  let content :=
    if Js.nonEmpty (ex_response example)
    then content ++ [createContentBlock DATA (ex_response example)
                       (Some "json")
                       (Some {["type" := Js.VString "response"]})]
    else content in
  createDocNode ITEM (ex_id example) (ex_name example)
    {| opt_description := Some (ex_description example);
       opt_content := Some content;
       opt_children := None;
       opt_metadata := Some metadata |}.

Definition convertOperation (operation : Operation) : DocNode :=
  let metadata : gmap string Js.value := ∅ in
  let metadata := <["operationId" := Js.VString (op_id operation)]> metadata in
  let metadata := <["notes" := Js.VString (op_notes operation)]> metadata in
  let children := map convertExample (op_examples operation) in
  let content : list ContentBlock := [] in
  let content :=
    if Js.nonEmpty (op_description operation)
    then content ++ [createContentBlock PROSE (op_description operation)
                       None None]
    else content in
  let content :=
    if Js.nonEmpty (op_notes operation)
    then content ++ [createContentBlock PROSE (op_notes operation)
                       None None]
    else content in
  createDocNode OPERATION (op_id operation) (op_title operation)
    {| opt_description := Some (op_description operation);
       opt_content := Some content;
       opt_children := Some children;
       opt_metadata := Some metadata |}.

(** [specData._operationMap ?? new Map(...)]. *)
Definition operationMap (specData : SpecData) : gmap string Operation :=
  match spec_operationMap specData with
  | Some m => m
  | None => buildOperationMap (spec_operations specData)
  end.

(** The inner loop of [convertWithCategories]: the operations of one
    category, an id the lookup does not know being passed over. *)
Definition collectOperations (lookup : gmap string Operation)
    (operationIds : list string) : list Operation :=
  foldl (fun operations opId =>
           match lookup !! opId with
           | Some op => operations ++ [op]
           | None => operations
           end) [] operationIds.

(** A [Map<string, string[]>] is visited in insertion order: the category
    map is the list of its entries. *)
Definition convertWithCategories (specData : SpecData)
    (categoryMap : list (string * list string)) : list DocNode :=
  let lookup := operationMap specData in
  foldl (fun categoryNodes entry =>
           let '(categoryName, operationIds) := entry in
           let operations := collectOperations lookup operationIds in
           if (length operations =? 0)%nat then categoryNodes
           else
             let categoryNode :=
               createDocNode CATEGORY categoryName categoryName
                 {| opt_description := None;
                    opt_content := None;
                    opt_children := Some (map convertOperation operations);
                    opt_metadata := None |} in
             categoryNodes ++ [categoryNode]) [] categoryMap.

(** The cached lookup of a spec, when it has one, is the one
    [createSpecData] and [getOperationById] build from its operations. *)
Definition cacheFromOperations (specData : SpecData) : Prop :=
  spec_operationMap specData = None
  \/ spec_operationMap specData
     = Some (buildOperationMap (spec_operations specData)).

(** A block that is there when its source field is not empty. *)
Definition whenNonEmpty (field : string) (block : ContentBlock)
    : list ContentBlock :=
  if Js.nonEmpty field then [block] else [].

Definition openRefToDocNode (specData : SpecData)
    (categoryMap : option (list (string * list string))) : DocNode :=
  let info := spec_info specData in
  let metadata : gmap string Js.value := ∅ in
  let metadata := <["format" := Js.VString "openref"]> metadata in
  let metadata := <["sdk" := Js.VString (info_id info)]> metadata in
  let metadata := <["title" := Js.VString (info_title info)]> metadata in
  let metadata :=
    <["specUrl" := match info_specUrl info with
                   | Some u => Js.VString u
                   | None => Js.VUndefined
                   end]> metadata in
  let root :=
    createDocNode ROOT (info_id info) (info_title info)
      {| opt_description := Some (info_description info);
         opt_content := None;
         opt_children := None;
         opt_metadata := Some metadata |} in
  let children :=
    match categoryMap with
    | Some ((_ :: _) as entries) =>
        (* [categoryMap && categoryMap.size > 0] *)
        convertWithCategories specData entries
    | _ => map convertOperation (spec_operations specData)
    end in
  (* root.children = ... *)
  {| node_type := node_type root;
     node_id := node_id root;
     node_title := node_title root;
     node_description := node_description root;
     node_content := node_content root;
     node_children := children;
     node_metadata := node_metadata root |}.

End OpenRefAdapter.

(* ====================================================================== *)
(** ** src/parsers/markdown/parser.ts *)
(* ====================================================================== *)

Module MarkdownParser.

(** [MarkdownContent.type]. *)
Inductive MarkdownContentType : Type :=
  MdProse | MdCode | MdImage | MdBlockquote.

Record MarkdownContent : Type := mkMarkdownContent {
  mc_type : MarkdownContentType;
  mc_content : string;
  mc_language : option string
}.

(** [MarkdownSection]; [level] is a JavaScript number that holds the
    heading depth. *)
#[warnings="-register-all"]
Inductive MarkdownSection : Type := mkMarkdownSection {
  sec_level : Z;
  sec_title : string;
  sec_id : string;
  sec_content : list MarkdownContent;
  sec_children : list MarkdownSection
}.

(** The tokens of [marked.lexer], by their [type]: the types the parser
    names, and [Other] for every other type, with its optional [text] and
    [raw] fields. *)
Inductive Token : Type :=
| Heading (depth : Z) (text : string)
| Code (text : string) (lang : option string)
| Paragraph (text : string)
| Text (text : string)
| Blockquote (text : string)
| Space
| Other (text raw : option string).

Definition isHeading (token : Token) : bool :=
  match token with Heading _ _ => true | _ => false end.

(** While [buildSections] runs, a section is a mutable object that the
    working stack and its parent's [children] array (or [rootSections])
    both refer to.  The objects live in a store, a reference is the index
    of the object in the store, and a new object is put at its end. *)
Abbreviation Ref := nat (only parsing).

Record SectionObject : Type := mkSectionObject {
  obj_level : Z;
  obj_title : string;
  obj_id : string;
  obj_content : list MarkdownContent;
  obj_children : list Ref
}.

Abbreviation Store := (list SectionObject) (only parsing).

(** [section.content.push(...items)] *)
Definition pushContent (items : list MarkdownContent) (o : SectionObject)
    : SectionObject :=
  {| obj_level := obj_level o; obj_title := obj_title o; obj_id := obj_id o;
     obj_content := obj_content o ++ items;
     obj_children := obj_children o |}.

(** [section.children.push(child)] *)
Definition pushChild (child : Ref) (o : SectionObject) : SectionObject :=
  {| obj_level := obj_level o; obj_title := obj_title o; obj_id := obj_id o;
     obj_content := obj_content o;
     obj_children := obj_children o ++ [child] |}.

(** Mutation of the object behind a reference; [None] for a reference that
    points outside the store. *)
Definition mutate (f : SectionObject -> SectionObject) (r : Ref)
    (store : Store) : option Store :=
  match store !! r with
  | Some o => Some (<[r := f o]> store)
  | None => None
  end.

(** The local variables of [buildSections].  The head of [stack] is the
    top of the working stack, [stack[stack.length - 1]]. *)
Record State : Type := mkState {
  store : Store;
  rootSections : list Ref;
  stack : list Ref;
  currentContent : list MarkdownContent
}.

Definition initial : State :=
  {| store := []; rootSections := []; stack := []; currentContent := [] |}.

(** [while (stack.length > 0 && stack[stack.length - 1].level >= depth)
      stack.pop()] *)
Fixpoint popWhile (store : Store) (depth : Z) (stack : list Ref)
    : option (list Ref) :=
  match stack with
  | [] => Some []
  | top :: rest =>
      match store !! top with
      | Some o =>
          if (depth <=? obj_level o)%Z then popWhile store depth rest
          else Some stack
      | None => None
      end
  end.

(** [if (stack.length > 0 && currentContent.length > 0) {
       stack[stack.length - 1].content.push(...currentContent);
       currentContent = []; }] *)
Definition saveContent (st : State) : option State :=
  match stack st, currentContent st with
  | top :: _, _ :: _ =>
      match mutate (pushContent (currentContent st)) top (store st) with
      | Some store' =>
          Some {| store := store'; rootSections := rootSections st;
                  stack := stack st; currentContent := [] |}
      | None => None
      end
  | _, _ => Some st
  end.

(** What the store holds for a reference. *)
Definition levelAt (store : Store) (r : Ref) : option Z :=
  obj_level <$> store !! r.

Definition childrenAt (store : Store) (r : Ref) : option (list Ref) :=
  obj_children <$> store !! r.

Definition contentAt (store : Store) (r : Ref)
    : option (list MarkdownContent) :=
  obj_content <$> store !! r.

(** Every reference on the working stack points into the store. *)
Definition stackValid (st : State) : Prop :=
  Forall (fun r => r < length (store st)) (stack st).

(** The references of a state point into the store, and a section refers
    only to sections that were created after it. *)
Definition wellFormed (st : State) : Prop :=
  stackValid st
  /\ Forall (fun r => r < length (store st)) (rootSections st)
  /\ forall r children, childrenAt (store st) r = Some children ->
       Forall (fun c => r < c < length (store st)) children.

Section Parser.
(** [slugify] and [String.prototype.trim] are built from the
    JavaScript library's Unicode case mapping, regular expression
    classes and white space; the parser is taken over any such pair. *)
Variable slugify : string -> string.
Variable trim : string -> string.

Definition tokenToContent (token : Token) : option MarkdownContent :=
  match token with
  | Code text lang =>
      Some {| mc_type := MdCode; mc_content := text;
              mc_language := Some (Js.strOr lang "text") |}
  | Paragraph text | Text text =>
      Some {| mc_type := MdProse; mc_content := text;
              mc_language := None |}
  | Blockquote text =>
      Some {| mc_type := MdBlockquote; mc_content := text;
              mc_language := None |}
  | Space => None
  | Heading _ text =>
      (* the loop never passes a heading here; the default branch of the
         switch would take its text *)
      if Js.nonEmpty (trim text)
      then Some {| mc_type := MdProse; mc_content := text;
                   mc_language := None |}
      else None
  | Other text raw =>
      let tokenText := Js.strOr text (Js.strOr raw "") in
      if Js.nonEmpty (trim tokenText)
      then Some {| mc_type := MdProse; mc_content := tokenText;
                   mc_language := None |}
      else None
  end.

(** The object literal of a new section. *)
Definition newSection (depth : Z) (text : string) : SectionObject :=
  {| obj_level := depth; obj_title := text; obj_id := slugify text;
     obj_content := []; obj_children := [] |}.

(** The heading branch of the loop body. *)
Definition openSection (depth : Z) (text : string) (st : State)
    : option State :=
  st ← saveContent st;
  let section := newSection depth text in
  let ref := length (store st) in
  let store1 := store st ++ [section] in
  stack1 ← popWhile store1 depth (stack st);
  match stack1 with
  | parent :: _ =>
      store2 ← mutate (pushChild ref) parent store1;
      Some {| store := store2; rootSections := rootSections st;
              stack := ref :: stack1;
              currentContent := currentContent st |}
  | [] =>
      Some {| store := store1; rootSections := rootSections st ++ [ref];
              stack := ref :: stack1;
              currentContent := currentContent st |}
  end.

(** The other branch: the content of the token, when it has one, is
    added to [currentContent]. *)
Definition accumulate (token : Token) (st : State) : State :=
  match tokenToContent token with
  | Some content =>
      {| store := store st; rootSections := rootSections st;
         stack := stack st;
         currentContent := currentContent st ++ [content] |}
  | None => st
  end.

(** One turn of [for (let i = 0; i < tokens.length; i++)]. *)
Definition step (st : State) (token : Token) : option State :=
  match token with
  | Heading depth text => openSection depth text st
  | _ => Some (accumulate token st)
  end.

Fixpoint loop (tokens : list Token) (st : State) : option State :=
  match tokens with
  | [] => Some st
  | token :: rest => st ← step st token; loop rest st
  end.

(** The state when [buildSections] returns [rootSections]. *)
Definition run (tokens : list Token) : option State :=
  st ← loop tokens initial; saveContent st.

(** The section tree behind a reference, as the caller of
    [buildSections] sees it once the store is no longer written. *)
Fixpoint readSection (store : Store) (fuel : nat) (r : Ref)
    : option MarkdownSection :=
  match fuel with
  | O => None
  | S fuel' =>
      o ← store !! r;
      children ← mapM (readSection store fuel') (obj_children o);
      Some {| sec_level := obj_level o; sec_title := obj_title o;
              sec_id := obj_id o; sec_content := obj_content o;
              sec_children := children |}
  end.

Definition buildSections (tokens : list Token)
    : option (list MarkdownSection) :=
  st ← run tokens;
  mapM (readSection (store st) (length (store st))) (rootSections st).

End Parser.

End MarkdownParser.

(* ====================================================================== *)
(** ** src/parsers/markdown/adapter.ts *)
(* ====================================================================== *)

Module MarkdownAdapter.
Import Models MarkdownParser.

Definition convertContent (content : MarkdownContent) : ContentBlock :=
  match mc_type content with
  | MdCode =>
      createContentBlock CODE (mc_content content)
        (Some (Js.strOr (mc_language content) "text")) None
  | MdProse =>
      createContentBlock PROSE (mc_content content) None None
  | MdBlockquote =>
      createContentBlock PROSE (mc_content content) None
        (Some {["style" := Js.VString "blockquote"]})
  | MdImage =>
      createContentBlock DATA (mc_content content) None
        (Some {["type" := Js.VString "image"]})
  end.

Fixpoint convertSection (section : MarkdownSection) (mapH2ToCategory : bool)
    {struct section} : DocNode :=
  let nodeType :=
    if (sec_level section =? 2)%Z && mapH2ToCategory then CATEGORY
    else if (sec_level section =? 3)%Z then OPERATION
    else if (4 <=? sec_level section)%Z then ITEM
    else SECTION in
  let content := map convertContent (sec_content section) in
  let children :=
    map (fun child => convertSection child mapH2ToCategory)
      (sec_children section) in
  let metadata : gmap string Js.value := ∅ in
  let metadata := <["level" := Js.VNumber (sec_level section)]> metadata in
  createDocNode nodeType (sec_id section) (sec_title section)
    {| opt_description := None;
       opt_content := Some content;
       opt_children := Some children;
       opt_metadata := Some metadata |}.

End MarkdownAdapter.

(* ====================================================================== *)
(** ** Addressing nodes of a tree *)
(* ====================================================================== *)

Module Tree.
Import Models.

(** The node reached from [node] by a list of 1-based child positions. *)
Fixpoint nodeAt (node : DocNode) (path : list nat) : option DocNode :=
  match path with
  | [] => Some node
  | O :: _ => None
  | S i :: rest =>
      match node_children node !! i with
      | Some child => nodeAt child rest
      | None => None
      end
  end.

Definition isRoot (node : DocNode) : bool :=
  DocNodeType_eqb (node_type node) ROOT.

(** Neither the node nor any node below it has kind ROOT. *)
Fixpoint rootFree (node : DocNode) : bool :=
  negb (isRoot node) && forallb rootFree (node_children node).

(** The only node of kind ROOT a tree may have is its top node. *)
Definition rootOnlyOnTop (top : DocNode) : bool :=
  forallb rootFree (node_children top).

(** The renderings of the children of a node whose own number list is
    [prefix], in order. *)
Definition childrenText (prefix : list nat) (children : list DocNode)
    : list string :=
  imap (fun i child => Formatter.formatNode child (prefix ++ [S i]))
    children.

(** The same tree without its node-level metadata. *)
Fixpoint eraseMetadata (node : DocNode) : DocNode :=
  {| node_type := node_type node;
     node_id := node_id node;
     node_title := node_title node;
     node_description := node_description node;
     node_content := node_content node;
     node_children := map eraseMetadata (node_children node);
     node_metadata := ∅ |}.

End Tree.

(* ====================================================================== *)
(** ** Sample inputs *)
(* ====================================================================== *)

Module Samples.
Import Models Formatter OpenRefAdapter MarkdownParser MarkdownAdapter.

Definition selectExample : Example :=
  {| ex_id := "select-basic"; ex_name := "Basic select";
     ex_code := "let x = 1"; ex_description := "Reads all rows.";
     ex_dataSql := "create table t (id int);"; ex_response := "";
     ex_isSpotlight := false |}.

Definition selectOperation : Operation :=
  {| op_id := "select"; op_title := "select";
     op_description := "Fetch rows."; op_notes := "";
     op_examples := [selectExample] |}.

Definition insertOperation : Operation :=
  {| op_id := "insert"; op_title := "insert";
     op_description := ""; op_notes := "Returns nothing.";
     op_examples := [] |}.

Definition demoInfo : SpecInfo :=
  {| info_id := "demo"; info_title := "Demo SDK";
     info_description := "A small SDK."; info_specUrl := None |}.

Definition demoSpec : SpecData :=
  createSpecData demoInfo [selectOperation; insertOperation].

(** A category map with an id the spec does not have and a category none
    of whose ids the spec has. *)
Definition demoCategories : list (string * list string) :=
  [("db", ["select"; "missing"; "insert"]); ("empty", ["nope"])].

Definition demoTree : DocNode :=
  openRefToDocNode demoSpec (Some demoCategories).

(** The only group of [demoTree]. *)
Definition dbCategory : DocNode :=
  createDocNode CATEGORY "db" "db"
    {| opt_description := None; opt_content := None;
       opt_children :=
         Some (map convertOperation [selectOperation; insertOperation]);
       opt_metadata := None |}.

Definition demoFlatTree : DocNode := openRefToDocNode demoSpec None.

Definition demoOptions : FormatterOptions :=
  {| outputDir := "out"; filenamePrefix := Some "demo"; title := None;
     systemPrompt := None; includeMetadata := None |}.

Definition demoDate : string := "May 1, 2025".

(** [demoTree] with another [format] entry on its top node. *)
Definition retaggedTree : DocNode :=
  {| node_type := node_type demoTree;
     node_id := node_id demoTree;
     node_title := node_title demoTree;
     node_description := node_description demoTree;
     node_content := node_content demoTree;
     node_children := node_children demoTree;
     node_metadata :=
       <["format" := Js.VString "markdown"]> (node_metadata demoTree) |}.

(** [demoTree] without the [sdk] entry on its top node. *)
Definition untaggedTree : DocNode :=
  {| node_type := node_type demoTree;
     node_id := node_id demoTree;
     node_title := node_title demoTree;
     node_description := node_description demoTree;
     node_content := node_content demoTree;
     node_children := node_children demoTree;
     node_metadata := delete "sdk" (node_metadata demoTree) |}.

(** A tree that has a node of kind ROOT below its top, which the data
    model does not allow. *)
Definition nestedRootTree : DocNode :=
  createDocNode ROOT "top" "Top"
    {| opt_description := None; opt_content := None;
       opt_children :=
         Some [createDocNode SECTION "a" "A"
                 (mkDocNodeOptions None None None None);
               createDocNode ROOT "inner" "Inner"
                 {| opt_description := None; opt_content := None;
                    opt_children :=
                      Some [createDocNode SECTION "b" "B"
                              (mkDocNodeOptions None None None None)];
                    opt_metadata := None |}];
       opt_metadata := None |}.

Definition demoTokens : list Token :=
  [Heading 1 "Guide"; Paragraph "Intro."; Heading 2 "Setup";
   Code "npm install" (Some "bash"); Heading 3 "Details"].

Definition demoSection : MarkdownSection :=
  {| sec_level := 2; sec_title := "Setup"; sec_id := "setup";
     sec_content := [];
     sec_children :=
       [{| sec_level := 3; sec_title := "Details"; sec_id := "details";
           sec_content := []; sec_children := [] |}] |}.

(** The parser state after [demoTokens], for an identity [slugify]. *)
Definition demoState : State :=
  {| store :=
       [{| obj_level := 1; obj_title := "Guide"; obj_id := "Guide";
           obj_content := [{| mc_type := MdProse; mc_content := "Intro.";
                              mc_language := None |}];
           obj_children := [1] |};
        {| obj_level := 2; obj_title := "Setup"; obj_id := "Setup";
           obj_content := [{| mc_type := MdCode;
                              mc_content := "npm install";
                              mc_language := Some "bash" |}];
           obj_children := [2] |};
        {| obj_level := 3; obj_title := "Details"; obj_id := "Details";
           obj_content := []; obj_children := [] |}];
     rootSections := [0];
     stack := [2; 1; 0];
     currentContent := [] |}.

End Samples.

(* ====================================================================== *)
(** ** src/core/models.ts: traversal and lookups *)
(* ====================================================================== *)

Module Queries.
Import Models.

(** [traverseDocNode]: the callback is called for its effect on the
    variables it captures; [acc] is the state of those variables. *)
Fixpoint traverseDocNode {A : Type} (node : DocNode)
    (callback : DocNode -> nat -> A -> A) (depth : nat) (acc : A)
    {struct node} : A :=
  let acc := callback node depth acc in
  (fix eachChild (children : list DocNode) (acc : A) {struct children} : A :=
     match children with
     | [] => acc
     | child :: rest =>
         eachChild rest (traverseDocNode child callback (depth + 1) acc)
     end) (node_children node) acc.

Definition findNodesByType (root : DocNode) (type : DocNodeType)
    : list DocNode :=
  traverseDocNode root
    (fun node _ results =>
       if DocNodeType_eqb (node_type node) type then results ++ [node]
       else results) 0 [].

Definition countNodes (root : DocNode) : nat :=
  traverseDocNode root (fun _ _ count => count + 1) 0 0.

Definition getSpotlightExamples (operation : Operation) : list Example :=
  List.filter (fun ex => ex_isSpotlight ex) (op_examples operation).

Definition getExampleCount (operation : Operation) : nat :=
  length (op_examples operation).

(** [getOperationById] returns the operation and leaves the cache built in
    [specData]: the result is paired with the spec after the call. *)
Definition getOperationById (specData : SpecData) (operationId : string)
    : option Operation * SpecData :=
  match spec_operationMap specData with
  | Some m => (m !! operationId, specData)
  | None =>
      let op :=
        List.find (fun o => String.eqb (op_id o) operationId)
          (spec_operations specData) in
      (op, {| spec_info := spec_info specData;
              spec_operations := spec_operations specData;
              spec_operationMap :=
                Some (buildOperationMap (spec_operations specData)) |})
  end.

Definition getOperationsByIds (specData : SpecData)
    (operationIds : list string) : list Operation * SpecData :=
  let specData :=
    match spec_operationMap specData with
    | Some _ => specData
    | None =>
        {| spec_info := spec_info specData;
           spec_operations := spec_operations specData;
           spec_operationMap :=
             Some (buildOperationMap (spec_operations specData)) |}
    end in
  let lookup := default ∅ (spec_operationMap specData) in
  (foldl (fun result id =>
            match lookup !! id with
            | Some op => result ++ [op]
            | None => result
            end) [] operationIds,
   specData).

Definition hasOperation (specData : SpecData) (operationId : string)
    : bool * SpecData :=
  let '(op, specData) := getOperationById specData operationId in
  (match op with Some _ => true | None => false end, specData).

(** [CategorizedOperations]: only lookups by category are made. *)
Definition createCategorizedOperations : gmap string (list Operation) := ∅.

Definition addOperationToCategory (categorized : gmap string (list Operation))
    (category : string) (operation : Operation)
    : gmap string (list Operation) :=
  match categorized !! category with
  | Some existing => <[category := existing ++ [operation]]> categorized
  | None => <[category := [operation]]> categorized
  end.

Definition getOperationsForCategory
    (categorized : gmap string (list Operation)) (category : string)
    : list Operation :=
  default [] (categorized !! category).

(** The nodes of a tree, a node before its children and the children in
    order. *)
Fixpoint preorder (node : DocNode) : list DocNode :=
  node :: flat_map preorder (node_children node).

End Queries.

(* ====================================================================== *)
(** ** String operations of the JavaScript library *)
(* ====================================================================== *)

Module Text.

(** [s.split(sep)] for a separator of one character: the pieces between
    the separators, of which there is always at least one. *)
Fixpoint split (sep : Ascii.ascii) (s : string) : list string :=
  match s with
  | "" => [""]
  | String c rest =>
      if Ascii.eqb c sep then "" :: split sep rest
      else match split sep rest with
           | piece :: pieces => String c piece :: pieces
           | [] => [String c ""]
           end
  end.

(** [parts[parts.length - 1]], for an array that is not empty. *)
Definition lastPart (parts : list string) : string := List.last parts "".

(** [s.endsWith(suffix)]. *)
Definition endsWith (s suffix : string) : bool :=
  let n := String.length s in
  let k := String.length suffix in
  (k <=? n)%nat && String.eqb (String.substring (n - k) k s) suffix.

(** [s.replace(/\.md$/, '')]: without the [m] flag [$] is the end of the
    string. *)
Definition stripMd (s : string) : string :=
  if endsWith s ".md" then String.substring 0 (String.length s - 3) s
  else s.

(** The character occurs in the string. *)
Fixpoint contains (c : Ascii.ascii) (s : string) : bool :=
  match s with
  | "" => false
  | String d rest => Ascii.eqb d c || contains c rest
  end.

Definition dot : Ascii.ascii :=
  Ascii.Ascii false true true true false true false false.

Definition slash : Ascii.ascii :=
  Ascii.Ascii true true true true false true false false.

End Text.

(* ====================================================================== *)
(** ** src/parsers/markdown: documents (parser.ts, adapter.ts) *)
(* ====================================================================== *)

Module MarkdownDocuments.
Import Models MarkdownParser MarkdownAdapter.

Record MarkdownDocument : Type := mkMarkdownDocument {
  doc_path : string;
  doc_title : string;
  doc_sections : list MarkdownSection;
  doc_metadata : gmap string Js.value
}.

(** [MarkdownParser.extractTitle]. *)
Fixpoint extractTitle (tokens : list Token) (filePath : string) : string :=
  match tokens with
  | Heading depth text :: rest =>
      if (depth =? 1)%Z then text else extractTitle rest filePath
  | _ :: rest => extractTitle rest filePath
  | [] =>
      let parts := Text.split Text.slash filePath in
      let filename := Text.lastPart parts in
      Text.stripMd filename
  end.

Section Adapter.
(** [String.prototype.toLowerCase] and the replacement of [/\s+/g] by a
    hyphen follow the Unicode tables of the JavaScript library; the adapter
    is taken over any such pair. *)
Variable toLowerCase : string -> string.
Variable hyphenateSpaces : string -> string.

Definition extractIdFromPath (path : string) : string :=
  let parts := Text.split Text.slash path in
  let filename := Text.lastPart parts in
  hyphenateSpaces (toLowerCase (Text.stripMd filename)).

(** [markdownToDocNode(doc, options)]; the two arguments after [doc] are
    the optional fields of [options]. *)
Definition markdownToDocNode (doc : MarkdownDocument)
    (documentType : option DocNodeType) (mapH2ToCategory : option bool)
    : DocNode :=
  let docType := default SECTION documentType in
  let metadata := doc_metadata doc in
  let metadata := <["format" := Js.VString "markdown"]> metadata in
  let metadata := <["path" := Js.VString (doc_path doc)]> metadata in
  let root :=
    createDocNode docType (extractIdFromPath (doc_path doc)) (doc_title doc)
      {| opt_description := None; opt_content := None;
         opt_children := None; opt_metadata := Some metadata |} in
  let children :=
    map (fun section =>
           convertSection section (default false mapH2ToCategory))
      (doc_sections doc) in
  (* root.children = ... *)
  {| node_type := node_type root;
     node_id := node_id root;
     node_title := node_title root;
     node_description := node_description root;
     node_content := node_content root;
     node_children := children;
     node_metadata := node_metadata root |}.

Definition mergeMarkdownDocuments (docs : list MarkdownDocument)
    (rootTitle : string) : DocNode :=
  let root :=
    createDocNode ROOT "root" rootTitle
      {| opt_description := None; opt_content := None;
         opt_children := None;
         opt_metadata :=
           Some (<["count" := Js.VNumber (Z.of_nat (length docs))]>
                   (<["format" := Js.VString "markdown"]> ∅)) |} in
  let children :=
    map (fun doc => markdownToDocNode doc (Some SECTION) (Some false)) docs in
  {| node_type := node_type root;
     node_id := node_id root;
     node_title := node_title root;
     node_description := node_description root;
     node_content := node_content root;
     node_children := children;
     node_metadata := node_metadata root |}.

End Adapter.

(** The sections of a section tree, a section before its children. *)
Fixpoint sections (section : MarkdownSection) : list MarkdownSection :=
  section :: flat_map sections (sec_children section).

(** The section reached from [section] by a list of 1-based child
    positions. *)
Fixpoint sectionAt (section : MarkdownSection) (path : list nat)
    : option MarkdownSection :=
  match path with
  | [] => Some section
  | O :: _ => None
  | S i :: rest =>
      match sec_children section !! i with
      | Some child => sectionAt child rest
      | None => None
      end
  end.

End MarkdownDocuments.

(* ====================================================================== *)
(** ** src/parsers/base.ts, the two [detect] probes, src/core/detector.ts *)
(* ====================================================================== *)

Module Detection.

Inductive FormatType : Type := OPENREF | MARKDOWN | AUTO.

#[global] Instance FormatType_eq_dec : EqDecision FormatType.
Proof. solve_decision. Defined.

(** The string value of a member of the enum. *)
Definition formatName (format : FormatType) : string :=
  match format with
  | OPENREF => "openref"
  | MARKDOWN => "markdown"
  | AUTO => "auto"
  end.

(** The text of a file as [readFile(path, 'utf-8')] returns it: a
    JavaScript string, taken here as the sequence of its UTF-16 code
    units, which is what [substring] counts and [includes] compares. *)
Abbreviation CodeUnits := (list N) (only parsing).

(** The code units of a string of ASCII characters, such as the markers
    the probes look for. *)
Fixpoint codeUnits (s : string) : CodeUnits :=
  match s with
  | "" => []
  | String c rest => Ascii.N_of_ascii c :: codeUnits rest
  end.

Fixpoint startsWith (s prefix : CodeUnits) : bool :=
  match prefix, s with
  | [], _ => true
  | p :: prefix', c :: s' => (c =? p)%N && startsWith s' prefix'
  | _ :: _, [] => false
  end.

(** [s.includes(sub)] on code units. *)
Fixpoint includesUnits (s sub : CodeUnits) : bool :=
  startsWith s sub
  || match s with
     | [] => false
     | _ :: rest => includesUnits rest sub
     end.

(** What the probes see of the file system: a path leads to a file with
    its text, to a directory with the names in it, or to nothing. *)
Inductive FsEntry : Type :=
| FsFile (content : CodeUnits)
| FsDirectory (names : list string).

(** A registered parser: its format and the answer of its [detect] for a
    path, the file system being the one at the time of the detection. *)
Record Parser : Type := mkParser {
  parser_name : string;
  parser_format : FormatType;
  parser_detect : string -> bool
}.

Section Probes.
Variable toLowerCase : string -> string.
Variable fs : gmap string FsEntry.

(** [BaseParser.fileExists]: [access] succeeds for every entry. *)
Definition fileExists (path : string) : bool :=
  match fs !! path with Some _ => true | None => false end.

(** [BaseParser.readFileHead]: [content.substring(0, bytes)] is the first
    [bytes] code units of the text; [None] when [readFile] throws. *)
Definition readFileHead (path : string) (bytes : nat) : option CodeUnits :=
  match fs !! path with
  | Some (FsFile content) => Some (take bytes content)
  | _ => None
  end.

(** [BaseParser.getFileExtension]. *)
Definition getFileExtension (path : string) : string :=
  let parts := Text.split Text.dot path in
  if (1 <? length parts)%nat then toLowerCase (Text.lastPart parts) else "".

(** [OpenRefFormatParser.detect]. *)
Definition openRefDetect (sourcePath : string) : bool :=
  let ext := getFileExtension sourcePath in
  if negb (String.eqb ext "yml") && negb (String.eqb ext "yaml") then false
  else if negb (fileExists sourcePath) then false
  else
    match readFileHead sourcePath 200 with
    | Some head =>
        let hasInfo := includesUnits head (codeUnits "info:") in
        let hasFunctions := includesUnits head (codeUnits "functions:") in
        let hasId := includesUnits head (codeUnits "id:") in
        hasInfo || hasFunctions || hasId
    | None => false
    end.

(** [MarkdownFormatParser.detect]. *)
Definition markdownDetect (sourcePath : string) : bool :=
  let ext := getFileExtension sourcePath in
  if String.eqb ext "md" || String.eqb ext "markdown"
  then fileExists sourcePath
  else
    match fs !! sourcePath with
    | Some (FsDirectory files) =>
        existsb (fun f => Text.endsWith f ".md") files
    | Some (FsFile _) => false
    | None => false
    end.

Definition openRefParser : Parser :=
  {| parser_name := "OpenRef Parser"; parser_format := OPENREF;
     parser_detect := openRefDetect |}.

Definition markdownParser : Parser :=
  {| parser_name := "Markdown Parser"; parser_format := MARKDOWN;
     parser_detect := markdownDetect |}.

(** The parsers the constructor of [FormatDetector] registers. *)
Definition defaultParsers : list Parser := [openRefParser; markdownParser].

End Probes.

Section Detector.
Variable toLowerCase : string -> string.

Definition registerParser (parsers : list Parser) (parser : Parser)
    : list Parser :=
  parsers ++ [parser].

(** [FormatDetector.getFileExtension]: the case is left as it is. *)
Definition detectorFileExtension (path : string) : string :=
  let parts := Text.split Text.dot path in
  if (1 <? length parts)%nat then Text.lastPart parts else "".

Definition guessFromExtension (ext : string) : FormatType :=
  let normalized := toLowerCase ext in
  if String.eqb normalized "yml" || String.eqb normalized "yaml"
  then OPENREF
  else if String.eqb normalized "md" || String.eqb normalized "markdown"
  then MARKDOWN
  else AUTO.

Definition getParserForFormat (parsers : list Parser) (format : FormatType)
    : option Parser :=
  List.find (fun p => bool_decide (parser_format p = format)) parsers.

Definition getAvailableFormats (parsers : list Parser) : list FormatType :=
  map parser_format parsers.

(** The message of the error [detect] throws. *)
Definition undetectable (parsers : list Parser) (sourcePath : string)
    : string :=
  "Unable to detect format for: " +:+ sourcePath +:+ Formatter.NEWLINE
    +:+ "Supported formats: "
    +:+ Js.join ", " (map (fun p => formatName (parser_format p)) parsers)
    +:+ Formatter.NEWLINE +:+ "Try specifying --format explicitly".

(** [FormatDetector.detect] when no hint decides: the format, or the
    message of the error. *)
Definition autoDetect (parsers : list Parser) (sourcePath : string)
    : FormatType + string :=
  let sniff :=
    (* [for (const parser of this.parsers)] *)
    match List.find (fun p => parser_detect p sourcePath) parsers with
    | Some parser => inl (parser_format parser)
    | None => inr (undetectable parsers sourcePath)
    end in
  let ext := detectorFileExtension sourcePath in
  let quickGuess := guessFromExtension ext in
  if bool_decide (quickGuess <> AUTO) then
    match getParserForFormat parsers quickGuess with
    | Some parser =>
        if parser_detect parser sourcePath then inl quickGuess else sniff
    | None => sniff
    end
  else sniff.

(** [FormatDetector.detect]. *)
Definition detect (parsers : list Parser) (sourcePath : string)
    (hint : option FormatType) : FormatType + string :=
  match hint with
  | Some format =>
      if bool_decide (format <> AUTO) then inl format
      else autoDetect parsers sourcePath
  | None => autoDetect parsers sourcePath
  end.

End Detector.

End Detection.

(* ====================================================================== *)
(** ** The outline of a token list and of a section forest *)
(* ====================================================================== *)

Module Outline.
Import MarkdownParser MarkdownDocuments.

(** The tokens in front of the first heading. *)
Fixpoint untilHeading (tokens : list Token) : list Token :=
  match tokens with
  | [] => []
  | token :: rest =>
      if isHeading token then [] else token :: untilHeading rest
  end.

(** The headings of a token list, each with its depth, its text and the
    tokens between it and the next heading. *)
Fixpoint chunks (tokens : list Token) : list (Z * string * list Token) :=
  match tokens with
  | [] => []
  | Heading depth text :: rest =>
      (depth, text, untilHeading rest) :: chunks rest
  | _ :: rest => chunks rest
  end.

(** The outline of a token list: its chunks, the first one taking the
    tokens in front of the first heading as well. *)
Definition outline (tokens : list Token) : list (Z * string * list Token) :=
  match chunks tokens with
  | [] => []
  | (depth, text, contents) :: more =>
      (depth, text, untilHeading tokens ++ contents) :: more
  end.

(** What a section holds apart from its children: level, title, id and
    content. *)
Definition sectionView (section : MarkdownSection)
    : Z * string * string * list MarkdownContent :=
  (sec_level section, sec_title section, sec_id section,
   sec_content section).

Definition objectView (o : SectionObject)
    : Z * string * string * list MarkdownContent :=
  (obj_level o, obj_title o, obj_id o, obj_content o).

Section Views.
Variable slugify : string -> string.
Variable trim : string -> string.

Definition chunkView (chunk : Z * string * list Token)
    : Z * string * string * list MarkdownContent :=
  let '(depth, text, contents) := chunk in
  (depth, text, slugify text, omap (tokenToContent trim) contents).

End Views.

(** The levels of a list of sections never go up from one section to a
    later one. *)
Definition nonIncreasingLevels (l : list MarkdownSection) : Prop :=
  forall i j si sj, i <= j -> l !! i = Some si -> l !! j = Some sj ->
    (sec_level sj <= sec_level si)%Z.

(** The same for references into a store. *)
Definition nonIncreasingRefs (store : list SectionObject)
    (refs : list nat) : Prop :=
  forall i j ci cj li lj, i <= j ->
    refs !! i = Some ci -> refs !! j = Some cj ->
    levelAt store ci = Some li -> levelAt store cj = Some lj ->
    (lj <= li)%Z.

(** [preorderOf store roots refs]: [refs] lists the sections of the forest
    below [roots], a section before its children and the children in
    order. *)
Inductive preorderOf (store : list SectionObject)
    : list nat -> list nat -> Prop :=
| preorder_nil : preorderOf store [] []
| preorder_cons r rs children l1 l2 :
    childrenAt store r = Some children ->
    preorderOf store children l1 ->
    preorderOf store rs l2 ->
    preorderOf store (r :: rs) (r :: l1 ++ l2).

(** [rightSpine store roots spine refs]: moreover [spine] is the path from
    the last of [roots] down along the last children to a section without
    children. *)
Inductive rightSpine (store : list SectionObject)
    : list nat -> list nat -> list nat -> Prop :=
| spine_end : rightSpine store [] [] []
| spine_cons closed l r children spine l' :
    preorderOf store closed l ->
    childrenAt store r = Some children ->
    rightSpine store children spine l' ->
    rightSpine store (closed ++ [r]) (r :: spine) (l ++ r :: l').

(** The invariant of the loop of [buildSections]: the store lists the
    sections in the order of the forest, the working stack is the path to
    the section made last, a section is below a section of a lower level,
    and the levels of sections side by side never go up. *)
Definition forestInvariant (st : State) : Prop :=
  wellFormed st
  /\ rightSpine (store st) (rootSections st) (rev (stack st))
       (seq 0 (length (store st)))
  /\ (forall r children c lr lc,
        childrenAt (store st) r = Some children -> c ∈ children ->
        levelAt (store st) r = Some lr -> levelAt (store st) c = Some lc ->
        (lr < lc)%Z)
  /\ (forall r children,
        childrenAt (store st) r = Some children ->
        nonIncreasingRefs (store st) children)
  /\ nonIncreasingRefs (store st) (rootSections st).

End Outline.

(* ====================================================================== *)
(** ** The stack rule, as the specification words it *)
(* ====================================================================== *)

Module StackRule.
Import MarkdownParser.

(** Level, title and id of the section behind a reference. *)
Definition headerAt (store : list SectionObject) (r : nat)
    : option (Z * string * string) :=
  (fun o => (obj_level o, obj_title o, obj_id o)) <$> store !! r.

(** From [st] to [st'] the pending content has gone to the end of the
    content of the section on top of the stack, the deepest open one, and
    is empty afterwards; without an open section it stays pending.  The
    content of every other section is as it was. *)
Definition flushed (st st' : State) : Prop :=
  match stack st with
  | top :: _ =>
      contentAt (store st') top
      = (fun c => c ++ currentContent st) <$> contentAt (store st) top
      /\ currentContent st' = []
  | [] => currentContent st' = currentContent st
  end
  /\ forall r, r < length (store st) -> head (stack st) <> Some r ->
       contentAt (store st') r = contentAt (store st) r.

Section Rule.
Variable slugify : string -> string.
Variable trim : string -> string.

(** A heading of level [depth] takes the state [st] to [st']: the pending
    content is flushed; the sections on top of the stack whose level is at
    least [depth] are popped, up to the first section of a lower level;
    the new section is the last child of that section, or the last
    root-level section when the stack has become empty; the new section
    is pushed; the sections that were there keep level, title and id, and
    all but the parent keep their children. *)
Definition headingRule (depth : Z) (text : string) (st st' : State)
    : Prop :=
  flushed st st'
  /\ (forall r, r < length (store st) ->
        headerAt (store st') r = headerAt (store st) r)
  /\ exists popped kept,
       stack st = popped ++ kept
       /\ Forall (fun r => exists l, levelAt (store st) r = Some l
                                     /\ (depth <= l)%Z) popped
       /\ (forall parent, head kept = Some parent ->
             exists l, levelAt (store st) parent = Some l /\ (l < depth)%Z)
       /\ stack st' = length (store st) :: kept
       /\ length (store st') = S (length (store st))
       /\ store st' !! length (store st)
          = Some {| obj_level := depth; obj_title := text;
                    obj_id := slugify text;
                    obj_content := []; obj_children := [] |}
       /\ match kept with
          | parent :: _ =>
              rootSections st' = rootSections st
              /\ exists children,
                   childrenAt (store st) parent = Some children
                   /\ childrenAt (store st') parent
                      = Some (children ++ [length (store st)])
          | [] => rootSections st' = rootSections st ++ [length (store st)]
          end
       /\ (forall r, r < length (store st) -> head kept <> Some r ->
             childrenAt (store st') r = childrenAt (store st) r).

(** Another token leaves the sections and the stack as they are, and its
    content, if it has one, is added to the pending content. *)
Definition contentRule (token : Token) (st st' : State) : Prop :=
  store st' = store st
  /\ rootSections st' = rootSections st
  /\ stack st' = stack st
  /\ currentContent st'
     = currentContent st ++ option_list (tokenToContent trim token).

(** After the last token the pending content is flushed, and nothing else
    changes. *)
Definition finalRule (st st' : State) : Prop :=
  flushed st st'
  /\ stack st' = stack st
  /\ rootSections st' = rootSections st
  /\ length (store st') = length (store st)
  /\ (forall r, headerAt (store st') r = headerAt (store st) r)
  /\ (forall r, childrenAt (store st') r = childrenAt (store st) r).

End Rule.

End StackRule.

(* ====================================================================== *)
(** ** More sample inputs *)
(* ====================================================================== *)

Module MoreSamples.
Import Models Formatter OpenRefAdapter MarkdownParser MarkdownDocuments.
Import Detection.
Import Samples.

(** The demo operations in a spec that has no cached map. *)
Definition uncachedSpec : SpecData :=
  {| spec_info := demoInfo;
     spec_operations := [selectOperation; insertOperation];
     spec_operationMap := None |}.

(** A second operation with the id [select]. *)
Definition otherSelectOperation : Operation :=
  {| op_id := "select"; op_title := "select (v2)";
     op_description := ""; op_notes := ""; op_examples := [] |}.

Definition duplicateIdSpec : SpecData :=
  {| spec_info := demoInfo;
     spec_operations := [selectOperation; otherSelectOperation];
     spec_operationMap := None |}.

Definition demoDocument : MarkdownDocument :=
  {| doc_path := "docs/Getting Started.md"; doc_title := "Getting Started";
     doc_sections := [demoSection]; doc_metadata := ∅ |}.

(** A text of 150 times the letter e with an acute accent (one code unit
    each, two bytes each in UTF-8) and then a marker. *)
Definition accentedText : list N :=
  replicate 150 233%N ++ codeUnits "id: 1".

(** A file system with a Markdown file, a YAML file that has an OpenRef
    marker, one that has none, one with the accented text, and a
    directory. *)
Definition demoFs : gmap string FsEntry :=
  <["guide.md" := FsFile (codeUnits "# Guide")]>
    (<["api.yml" := FsFile (codeUnits "info: demo")]>
       (<["plain.yml" := FsFile (codeUnits "name: demo")]>
          (<["accent.yml" := FsFile accentedText]>
             (<["docs" := FsDirectory ["intro.md"; "notes.txt"]]> ∅)))).

(** A file system that knows directories.  [mkdir] with [recursive] makes
    the directory and the directories above it; a file can be written or
    opened when the directory part of its path, the text before its last
    slash, has been made; a chunk can be added to a file that is there. *)
Record Folders : Type := mkFolders {
  folders : list string;
  contents : gmap string string
}.

Definition emptyFolders : Folders := {| folders := []; contents := ∅ |}.

Definition directoryOf (path : string) : string :=
  Js.join "/" (removelast (Text.split Text.slash path)).

Definition withAncestors (path : string) : list string :=
  let pieces := Text.split Text.slash path in
  map (fun k => Js.join "/" (take k pieces)) (seq 1 (length pieces)).

Definition foldersPerform (state : Folders) (operation : Effect)
    : option Folders :=
  let accepted :=
    Some {| folders := folders state;
            contents := applyEffect (contents state) operation |} in
  match operation with
  | Mkdir path =>
      Some {| folders := withAncestors path ++ folders state;
              contents := contents state |}
  | WriteFile path _ | SOpen path =>
      if bool_decide (directoryOf path ∈ folders state) then accepted
      else None
  | SChunk path _ =>
      if bool_decide (is_Some (contents state !! path)) then accepted
      else None
  end.

(** The demo spec under two categories, the first with a slash in its
    name. *)
Definition slashTree : DocNode :=
  openRefToDocNode demoSpec (Some [("a/b", ["select"]); ("c", ["insert"])]).

(** Tokens with content in front of the first heading. *)
Definition preambleTokens : list Token :=
  [Paragraph "Preamble."; Heading 2 "Setup"; Code "npm install" None].

End MoreSamples.

(* ====================================================================== *)
(** * Properties *)
(* ====================================================================== *)

Import Models Formatter Tree.

(** ** Strings and [join] *)

Lemma append_cons (ch : Ascii.ascii) (a b : string) :
  String ch a +:+ b = String ch (a +:+ b).
Proof. reflexivity. Qed.

Lemma append_empty_l (a : string) : "" +:+ a = a.
Proof. reflexivity. Qed.

Lemma append_assoc (a b c : string) : (a +:+ b) +:+ c = a +:+ (b +:+ c).
Proof.
  induction a as [|ch a IH]; [reflexivity|]. now rewrite !append_cons, IH.
Qed.

Lemma append_empty_r (a : string) : a +:+ "" = a.
Proof.
  induction a as [|ch a IH]; [reflexivity|]. now rewrite append_cons, IH.
Qed.

Lemma join_cons (x : string) (l : list string) :
  Js.join "" (x :: l) = x +:+ Js.join "" l.
Proof.
  unfold Js.join. destruct l as [|y l]; simpl.
  - now rewrite append_empty_r.
  - reflexivity.
Qed.

Lemma join_app (l k : list string) :
  Js.join "" (l ++ k) = Js.join "" l +:+ Js.join "" k.
Proof.
  induction l as [|x l IH]; [reflexivity|].
  rewrite <- app_comm_cons, !join_cons, IH. now rewrite append_assoc.
Qed.

Lemma join_nil : Js.join "" [] = "".
Proof. reflexivity. Qed.

(** Bring a concatenation of joined parts into right-nested form. *)
Ltac str_norm :=
  repeat (rewrite join_app || rewrite join_cons || rewrite join_nil
          || rewrite append_assoc || rewrite append_empty_r
          || rewrite append_empty_l).

Lemma join_middle (l : list string) (i : nat) (x : string) :
  l !! i = Some x ->
  Js.join "" l = Js.join "" (take i l) +:+ x +:+ Js.join "" (drop (S i) l).
Proof.
  intros H. rewrite <- (take_drop_middle l i x H) at 1.
  now rewrite join_app, join_cons.
Qed.

Lemma nonEmpty_true (s : string) : Js.nonEmpty s = true <-> s <> "".
Proof.
  unfold Js.nonEmpty. rewrite negb_true_iff, <- not_true_iff_false.
  now rewrite String.eqb_eq.
Qed.

(** ** The equations of [formatNode] *)

(** The children loop visits the children in order and counts from its
    start value. *)
Lemma eachChild_imap (path : nat -> list nat) (children : list DocNode)
    (start : nat) :
  (fix eachChild (path : nat -> list nat) (children : list DocNode)
       (childNum : nat) {struct children} : list string :=
     match children with
     | [] => []
     | child :: rest =>
         formatNode child (path childNum) :: eachChild path rest (S childNum)
     end) path children start
  = imap (fun i child => formatNode child (path (start + i))) children.
Proof.
  revert start. induction children as [|c cs IH]; intros start.
  - reflexivity.
  - rewrite imap_cons. f_equal.
    + now rewrite Nat.add_0_r.
    + rewrite IH. apply imap_ext. intros i x _. simpl.
      now rewrite Nat.add_succ_r.
Qed.

Lemma formatNode_ROOT (node : DocNode) (numbers : list nat) :
  node_type node = ROOT ->
  formatNode node numbers = Js.join "" (childrenText [] (node_children node)).
Proof.
  intros H. destruct node as [ty i t d c ch m]. simpl in H. subst ty.
  cbn [formatNode node_type node_children]. now rewrite eachChild_imap.
Qed.

Lemma formatNode_other (node : DocNode) (numbers : list nat) :
  node_type node <> ROOT ->
  formatNode node numbers
  = headingLine node numbers +:+ DOUBLE_NEWLINE
      +:+ (if Js.nonEmpty (node_description node)
           then node_description node +:+ DOUBLE_NEWLINE else "")
      +:+ Js.join "" (map formatContent (node_content node))
      +:+ Js.join "" (childrenText numbers (node_children node)).
Proof.
  intros H.
  assert (E : formatNode node numbers
    = Js.join ""
        (((if Js.nonEmpty (node_description node)
           then [headingLine node numbers; DOUBLE_NEWLINE]
                  ++ [node_description node; DOUBLE_NEWLINE]
           else [headingLine node numbers; DOUBLE_NEWLINE])
          ++ map formatContent (node_content node))
         ++ childrenText numbers (node_children node))).
  { destruct node as [ty i t d c ch m]. simpl in H.
    destruct ty; try congruence;
      cbn [formatNode node_type node_children node_description node_content];
      now rewrite eachChild_imap. }
  rewrite E.
  destruct (Js.nonEmpty (node_description node)); now str_norm.
Qed.

(** ** Hierarchical numbering *)

Lemma rootFree_inv (node : DocNode) :
  rootFree node = true ->
  node_type node <> ROOT /\ rootOnlyOnTop node = true.
Proof.
  destruct node as [ty i t d c ch m]. cbn [rootFree]. unfold rootOnlyOnTop.
  intros [H1 H2]%andb_true_iff. split; [|exact H2].
  intros E. cbn in E. subst ty. discriminate H1.
Qed.

Lemma rootOnlyOnTop_child (parent child : DocNode) (i : nat) :
  rootOnlyOnTop parent = true ->
  node_children parent !! i = Some child ->
  rootFree child = true.
Proof.
  unfold rootOnlyOnTop. rewrite forallb_forall. intros H Hi.
  apply H. apply list_elem_of_In. eapply list_elem_of_lookup_2; eassumption.
Qed.

(** What a node is rendered as, whatever its kind: some text of its own and
    then its children, numbered from 1 below the node's own prefix. *)
Lemma formatNode_children (node : DocNode) (numbers : list nat) :
  exists own,
    formatNode node numbers
    = own +:+ Js.join ""
        (childrenText (if isRoot node then [] else numbers)
           (node_children node)).
Proof.
  destruct (isRoot node) eqn:E.
  - exists "". rewrite formatNode_ROOT; [reflexivity|].
    unfold isRoot in E. now destruct (node_type node).
  - exists (headingLine node numbers +:+ DOUBLE_NEWLINE
            +:+ (if Js.nonEmpty (node_description node)
                 then node_description node +:+ DOUBLE_NEWLINE else "")
            +:+ Js.join "" (map formatContent (node_content node))).
    rewrite formatNode_other.
    + now rewrite !append_assoc.
    + intros R. unfold isRoot in E. rewrite R in E. discriminate.
Qed.

(** The rendering of a tree contains, for every node below its top, the
    rendering of that node under the positions that lead to it. *)
Lemma formatNode_descendant (path : list nat) :
  forall (parent : DocNode) (numbers : list nat) (node : DocNode),
    rootOnlyOnTop parent = true ->
    path <> [] ->
    nodeAt parent path = Some node ->
    exists before after,
      formatNode parent numbers
      = before
          +:+ formatNode node
                ((if isRoot parent then [] else numbers) ++ path)
          +:+ after.
Proof.
  induction path as [|n rest IH]; intros parent numbers node Hwf Hne Hat.
  - congruence.
  - destruct n as [|i]; [discriminate|]. cbn [nodeAt] in Hat.
    destruct (node_children parent !! i) as [child|] eqn:Hi; [|discriminate].
    pose proof (rootOnlyOnTop_child _ _ _ Hwf Hi) as Hfree.
    apply rootFree_inv in Hfree as [Hty Hwf'].
    destruct (formatNode_children parent numbers) as [own Eown].
    set (prefix := if isRoot parent then [] else numbers) in *.
    assert (Hchild : childrenText prefix (node_children parent) !! i
                     = Some (formatNode child (prefix ++ [S i]))).
    { unfold childrenText. now rewrite list_lookup_imap, Hi. }
    rewrite (join_middle _ _ _ Hchild) in Eown.
    set (left := Js.join ""
                   (take i (childrenText prefix (node_children parent))))
      in Eown.
    set (right := Js.join ""
                    (drop (S i) (childrenText prefix (node_children parent))))
      in Eown.
    destruct rest as [|m rest'].
    + cbn [nodeAt] in Hat. injection Hat as <-.
      exists (own +:+ left), right.
      rewrite Eown. now rewrite !append_assoc.
    + destruct (IH child (prefix ++ [S i]) node Hwf' ltac:(discriminate) Hat)
        as (b & a & E).
      assert (Hnot : isRoot child = false).
      { unfold isRoot. now destruct (node_type child). }
      rewrite Hnot, <- app_assoc in E. cbn [app] in E.
      exists (own +:+ left +:+ b), (a +:+ right).
      rewrite Eown, E. now rewrite !append_assoc.
Qed.

(** C1.  Rendering a tree never gives its ROOT node a heading or a number:
    the text of a ROOT node is the text of its children, the N-th being
    rendered under the number list [N].  Every node below the top of a
    tree, reached by the 1-based positions [path], is rendered in the
    output with the heading line whose number is [path] joined by dots:
    its parent's number followed by its own position among its siblings,
    whatever the kinds of the nodes are (the top being the only node that
    may have kind ROOT). *)
Theorem hierarchical_numbering (top : DocNode) :
  (node_type top = ROOT ->
   forall numbers,
     formatNode top numbers
     = Js.join ""
         (imap (fun i child => formatNode child [S i]) (node_children top)))
  /\
  (rootOnlyOnTop top = true ->
   forall (path : list nat) (node : DocNode),
     path <> [] ->
     nodeAt top path = Some node ->
     exists before body after,
       formatNode node path
       = Js.repeat "#" (Nat.min (length path + 1) 4) +:+ " "
           +:+ Js.join "." (map pretty path) +:+ ". " +:+ node_title node
           +:+ DOUBLE_NEWLINE +:+ body
       /\ formatNode top [] = before +:+ formatNode node path +:+ after).
Proof.
  split.
  - intros Hty numbers. now rewrite formatNode_ROOT.
  - intros Hwf path node Hne Hat.
    destruct (formatNode_descendant path top [] node Hwf Hne Hat)
      as (before & after & E).
    assert (Hpath : (if isRoot top then [] else []) ++ path = path)
      by now destruct (isRoot top).
    rewrite Hpath in E.
    assert (Hnode : node_type node <> ROOT).
    { clear E Hpath. revert top Hwf Hat.
      induction path as [|n rest IH]; [congruence|]. intros top Hwf Hat.
      destruct n as [|i]; [discriminate|]. cbn [nodeAt] in Hat.
      destruct (node_children top !! i) as [child|] eqn:Hi; [|discriminate].
      pose proof (rootOnlyOnTop_child _ _ _ Hwf Hi) as Hfree.
      apply rootFree_inv in Hfree as [Hty Hwf'].
      destruct rest as [|m rest'].
      - cbn in Hat. now injection Hat as <-.
      - apply (IH ltac:(discriminate) child Hwf' Hat). }
    exists before.
    exists ((if Js.nonEmpty (node_description node)
             then node_description node +:+ DOUBLE_NEWLINE else "")
            +:+ Js.join "" (map formatContent (node_content node))
            +:+ Js.join "" (childrenText path (node_children node))).
    exists after. split; [|exact E].
    rewrite (formatNode_other node path Hnode).
    unfold headingLine, getHeading, numberString.
    now rewrite !append_assoc.
Qed.

(** ** Node metadata and the rendered text *)

(** Induction over a tree, the property being known for all children. *)
Lemma DocNode_children_ind (P : DocNode -> Prop) :
  (forall node, Forall P (node_children node) -> P node) ->
  forall node, P node.
Proof.
  intros H. fix IH 1. intros [ty i t d c ch m]. apply H.
  cbn [node_children].
  induction ch as [|x xs IHxs]; constructor; [apply IH | exact IHxs].
Qed.

Lemma eraseMetadata_fields (node : DocNode) :
  node_type (eraseMetadata node) = node_type node
  /\ node_id (eraseMetadata node) = node_id node
  /\ node_title (eraseMetadata node) = node_title node
  /\ node_description (eraseMetadata node) = node_description node
  /\ node_content (eraseMetadata node) = node_content node
  /\ node_children (eraseMetadata node)
     = map eraseMetadata (node_children node).
Proof. destruct node; cbn; auto 10. Qed.

Lemma headingLine_eraseMetadata (node : DocNode) (numbers : list nat) :
  headingLine (eraseMetadata node) numbers = headingLine node numbers.
Proof.
  destruct (eraseMetadata_fields node) as (Hty & _ & Ht & _).
  unfold headingLine. now rewrite Hty, Ht.
Qed.

Lemma formatNode_eraseMetadata (node : DocNode) :
  forall numbers,
    formatNode (eraseMetadata node) numbers = formatNode node numbers.
Proof.
  induction node as [node IH] using DocNode_children_ind. intros numbers.
  destruct (eraseMetadata_fields node) as (Hty & _ & Ht & Hd & Hc & Hch).
  assert (Hkids : forall prefix,
    childrenText prefix (map eraseMetadata (node_children node))
    = childrenText prefix (node_children node)).
  { intros prefix. unfold childrenText.
    change (map eraseMetadata (node_children node))
      with (eraseMetadata <$> node_children node).
    rewrite imap_fmap. apply imap_ext. intros i x Hx. cbn.
    rewrite Forall_forall in IH. apply IH.
    eapply list_elem_of_lookup_2; eassumption. }
  destruct (decide (node_type node = ROOT)) as [R|R].
  - rewrite !formatNode_ROOT by congruence. now rewrite Hch, Hkids.
  - rewrite !formatNode_other by congruence.
    now rewrite headingLine_eraseMetadata, Hd, Hc, Hch, Hkids.
Qed.

(** Trees that differ in node metadata only render to the same text. *)
Lemma formatNode_metadata (t1 t2 : DocNode) (numbers : list nat) :
  eraseMetadata t1 = eraseMetadata t2 ->
  formatNode t1 numbers = formatNode t2 numbers.
Proof.
  intros E.
  now rewrite <- (formatNode_eraseMetadata t1), E, formatNode_eraseMetadata.
Qed.

(** [generateModularDocs] writes one file per child that is a category. *)
Lemma generateModularDocs_map (root : DocNode) (options : FormatterOptions) :
  generateModularDocs root options
  = map (fun category =>
           WriteFile (outputDir options +:+ "/"
                        +:+ categoryFilename options category)
             (categoryContent root options category))
      (filter (fun child => node_type child = CATEGORY) (node_children root)).
Proof.
  unfold generateModularDocs, writeFile.
  set (categories := filter _ _). clearbody categories.
  destruct categories as [|c cs]; [reflexivity|].
  generalize (c :: cs). intros l.
  induction l as [|x xs IH]; [reflexivity|].
  cbn [flat_map map app]. now f_equal.
Qed.

Lemma categoryContent_metadata (r1 r2 c1 c2 : DocNode)
    (options : FormatterOptions) :
  node_title r1 = node_title r2 ->
  eraseMetadata c1 = eraseMetadata c2 ->
  categoryContent r1 options c1 = categoryContent r2 options c2.
Proof.
  intros Hr Hc. unfold categoryContent, generateCategoryHeader.
  rewrite (formatNode_metadata c1 c2 [] Hc), Hr.
  destruct (eraseMetadata_fields c1) as (_ & _ & Ht1 & Hd1 & _).
  destruct (eraseMetadata_fields c2) as (_ & _ & Ht2 & Hd2 & _).
  rewrite <- Ht1, <- Hd1, Hc, Ht2, Hd2. reflexivity.
Qed.

Lemma generateModularDocs_metadata (t1 t2 : DocNode)
    (options : FormatterOptions) :
  eraseMetadata t1 = eraseMetadata t2 ->
  generateModularDocs t1 options = generateModularDocs t2 options.
Proof.
  intros E. rewrite !generateModularDocs_map.
  assert (Ht : node_title t1 = node_title t2).
  { destruct (eraseMetadata_fields t1) as (_ & _ & <- & _).
    destruct (eraseMetadata_fields t2) as (_ & _ & <- & _). now rewrite E. }
  assert (Hch : map eraseMetadata (node_children t1)
                = map eraseMetadata (node_children t2)).
  { destruct (eraseMetadata_fields t1) as (_ & _ & _ & _ & _ & <-).
    destruct (eraseMetadata_fields t2) as (_ & _ & _ & _ & _ & <-).
    now rewrite E. }
  revert Hch. generalize (node_children t1) (node_children t2).
  induction l as [|c1 l1 IH]; intros [|c2 l2] Hch; try discriminate.
  - reflexivity.
  - cbn [map] in Hch. injection Hch as Hc Hl.
    assert (Hcat : node_type c1 = node_type c2).
    { destruct (eraseMetadata_fields c1) as (<- & _).
      destruct (eraseMetadata_fields c2) as (<- & _). now rewrite Hc. }
    assert (Hid : node_id c1 = node_id c2).
    { destruct (eraseMetadata_fields c1) as (_ & <- & _).
      destruct (eraseMetadata_fields c2) as (_ & <- & _). now rewrite Hc. }
    rewrite !filter_cons, Hcat.
    destruct (decide (node_type c2 = CATEGORY)) as [D|D].
    + cbn [map]. rewrite (IH l2 Hl). f_equal.
      unfold categoryFilename. rewrite Hid.
      now rewrite (categoryContent_metadata t1 t2 c1 c2 options Ht Hc).
    + apply (IH l2 Hl).
Qed.

(** C2 (amended).  Two trees that are identical except for the metadata
    maps of their nodes render to the same tree text and to the same group
    files.  The full document is the same as well when the header carries no
    metadata comment ([includeMetadata] is false) or when the [format] entry
    of the two top nodes prints the same: that entry of the top node's
    metadata is the one the header shows. *)
Theorem metadata_only_in_header (t1 t2 : DocNode)
    (options : FormatterOptions) (date : string) :
  eraseMetadata t1 = eraseMetadata t2 ->
  (forall numbers, formatNode t1 numbers = formatNode t2 numbers)
  /\ generateModularDocs t1 options = generateModularDocs t2 options
  /\ (includeMetadata options = Some false
      \/ Js.toString (Js.or (Js.get (node_metadata t1) "format")
                        (Js.VString "unknown"))
         = Js.toString (Js.or (Js.get (node_metadata t2) "format")
                          (Js.VString "unknown")) ->
      generateAll t1 options date = generateAll t2 options date).
Proof.
  intros E. split; [|split].
  - intros numbers. now apply formatNode_metadata.
  - now apply generateModularDocs_metadata.
  - intros Hfmt. unfold generateAll.
    rewrite (generateModularDocs_metadata t1 t2 options E). do 2 f_equal.
    assert (Ht : node_title t1 = node_title t2).
    { destruct (eraseMetadata_fields t1) as (_ & _ & <- & _).
      destruct (eraseMetadata_fields t2) as (_ & _ & <- & _). now rewrite E. }
    assert (Hhead : generateHeader t1 options date
                    = generateHeader t2 options date).
    { unfold generateHeader. rewrite Ht.
      destruct Hfmt as [-> | ->]; reflexivity. }
    unfold generateFullDoc, generateFullDocAbove, fullDocContent, fullDocPath.
    now rewrite Hhead, (formatNode_metadata t1 t2 [] E).
Qed.

(** ** The OpenRef adapter *)

Import OpenRefAdapter.

Lemma omap_cons {A B : Type} (f : A -> option B) (x : A) (l : list A) :
  omap f (x :: l)
  = match f x with Some y => y :: omap f l | None => omap f l end.
Proof. reflexivity. Qed.

Lemma omap_nil {A B : Type} (f : A -> option B) : omap f [] = [].
Proof. reflexivity. Qed.

(** A loop that pushes the defined results of [f] is [omap f]. *)
Lemma foldl_push_omap {A B : Type} (f : A -> option B) (l : list A)
    (acc : list B) :
  foldl (fun acc x => match f x with Some y => acc ++ [y] | None => acc end)
    acc l
  = acc ++ omap f l.
Proof.
  revert acc. induction l as [|x l IH]; intros acc; cbn [foldl].
  - now rewrite omap_nil, app_nil_r.
  - rewrite IH, omap_cons. destruct (f x) as [y|]; [|reflexivity].
    now rewrite <- app_assoc.
Qed.

Lemma collectOperations_omap (lookup : gmap string Operation)
    (operationIds : list string) :
  collectOperations lookup operationIds
  = omap (fun opId => lookup !! opId) operationIds.
Proof. unfold collectOperations. now rewrite foldl_push_omap. Qed.

Lemma convertWithCategories_omap (specData : SpecData)
    (categoryMap : list (string * list string)) :
  convertWithCategories specData categoryMap
  = omap (fun entry : string * list string =>
            match collectOperations (operationMap specData) entry.2 with
            | [] => None
            | operations =>
                Some (createDocNode CATEGORY entry.1 entry.1
                        {| opt_description := None;
                           opt_content := None;
                           opt_children :=
                             Some (map convertOperation operations);
                           opt_metadata := None |})
            end) categoryMap.
Proof.
  unfold convertWithCategories.
  match goal with
  | |- foldl ?f [] ?l = ?r =>
      enough (G : forall acc, foldl f acc l = acc ++ r) by apply (G [])
  end.
  induction categoryMap as [|[name ids] l IH]; intros acc; cbn [foldl].
  - now rewrite omap_nil, app_nil_r.
  - rewrite IH, omap_cons. cbn [fst snd].
    destruct (collectOperations (operationMap specData) ids) as [|op ops].
    + reflexivity.
    + cbn [length Nat.eqb]. now rewrite <- app_assoc.
Qed.

Lemma buildOperationMap_absent (operations : list Operation) (opId : string) :
  opId ∉ map op_id operations ->
  buildOperationMap operations !! opId = None.
Proof.
  unfold buildOperationMap.
  assert (G : forall m : gmap string Operation,
    opId ∉ map op_id operations -> m !! opId = None ->
    foldl (fun m op => <[op_id op := op]> m) m operations !! opId = None).
  { induction operations as [|op ops IH]; intros m Hnot Hm; [exact Hm|].
    cbn [foldl]. apply IH.
    - intros Hin. apply Hnot. cbn [map]. now apply list_elem_of_further.
    - rewrite lookup_insert_ne; [exact Hm|].
      intros E. apply Hnot. cbn [map]. rewrite E. apply list_elem_of_here. }
  intros Hnot. apply G; [exact Hnot | apply lookup_empty].
Qed.

Lemma operationMap_absent (specData : SpecData) (opId : string) :
  cacheFromOperations specData ->
  opId ∉ map op_id (spec_operations specData) ->
  operationMap specData !! opId = None.
Proof.
  unfold operationMap. intros [-> | ->] Hnot;
    now apply buildOperationMap_absent.
Qed.

(** C3.  Converting with a category map passes over an operation id that
    does not occur among the operations of the spec: the result is the one
    for the map without that id, and no error arises (the conversion is a
    total function).  A category whose ids resolve to no operation at all
    adds no GROUP node: the result is the one for the map without that
    category. *)
Theorem unresolved_ids_and_empty_categories_skipped (specData : SpecData)
    (before after : list (string * list string)) (categoryName : string) :
  (cacheFromOperations specData ->
   forall (ids1 ids2 : list string) (opId : string),
     opId ∉ map op_id (spec_operations specData) ->
     convertWithCategories specData
       (before ++ (categoryName, ids1 ++ opId :: ids2) :: after)
     = convertWithCategories specData
         (before ++ (categoryName, ids1 ++ ids2) :: after))
  /\
  (forall operationIds : list string,
     Forall (fun opId => operationMap specData !! opId = None) operationIds ->
     convertWithCategories specData
       (before ++ (categoryName, operationIds) :: after)
     = convertWithCategories specData (before ++ after)).
Proof.
  split.
  - intros Hcache ids1 ids2 opId Hnot.
    rewrite !convertWithCategories_omap, !omap_app. f_equal.
    rewrite !omap_cons. cbn [fst snd].
    rewrite !collectOperations_omap, !omap_app, omap_cons.
    now rewrite (operationMap_absent _ _ Hcache Hnot).
  - intros operationIds Hnone.
    rewrite !convertWithCategories_omap, !omap_app. f_equal.
    rewrite omap_cons. cbn [fst snd]. rewrite collectOperations_omap.
    assert (E : omap (fun opId => operationMap specData !! opId) operationIds
                = []).
    { induction Hnone as [|x l Hx Hl IH]; [reflexivity|].
      now rewrite omap_cons, Hx. }
    now rewrite E.
Qed.

(** C4.  The content blocks of a converted example are, in this order, the
    description as PROSE, the code as CODE with the inferred language, the
    SQL data as DATA tagged "sql" and annotated type "schema", and the
    response as DATA tagged "json" and annotated type "response"; each block
    is there exactly when its source field is not empty. *)
Theorem convertExample_blocks (example : Example) :
  node_content (convertExample example)
  = whenNonEmpty (ex_description example)
      {| block_type := PROSE; block_language := None;
         block_content := ex_description example;
         block_annotations := None |}
    ++ whenNonEmpty (ex_code example)
         {| block_type := CODE;
            block_language := Some (inferLanguage (ex_code example));
            block_content := ex_code example;
            block_annotations := None |}
    ++ whenNonEmpty (ex_dataSql example)
         {| block_type := DATA; block_language := Some "sql";
            block_content := ex_dataSql example;
            block_annotations := Some {["type" := Js.VString "schema"]} |}
    ++ whenNonEmpty (ex_response example)
         {| block_type := DATA; block_language := Some "json";
            block_content := ex_response example;
            block_annotations := Some {["type" := Js.VString "response"]} |}.
Proof.
  unfold convertExample, whenNonEmpty, createContentBlock.
  cbn [createDocNode node_content opt_content default].
  destruct (Js.nonEmpty (ex_description example)),
    (Js.nonEmpty (ex_code example)), (Js.nonEmpty (ex_dataSql example)),
    (Js.nonEmpty (ex_response example)); reflexivity.
Qed.

(** ** The Markdown adapter *)

Import MarkdownParser MarkdownAdapter.

(** C5.  The kind of the node a section is converted to follows from its
    heading level alone: level 2 gives CATEGORY when H2 is mapped to
    categories and SECTION otherwise, level 3 gives OPERATION, every level
    from 4 on gives ITEM, and level 1 and every other level give SECTION. *)
Theorem convertSection_node_type (section : MarkdownSection)
    (mapH2ToCategory : bool) :
  let level := sec_level section in
  let kind := node_type (convertSection section mapH2ToCategory) in
  (level = 2%Z -> kind = if mapH2ToCategory then CATEGORY else SECTION)
  /\ (level = 3%Z -> kind = OPERATION)
  /\ ((4 <= level)%Z -> kind = ITEM)
  /\ ((level < 2)%Z -> kind = SECTION).
Proof.
  destruct section as [level t i c ch].
  cbn [convertSection sec_level createDocNode node_type].
  repeat split; intros H.
  - subst level. now destruct mapH2ToCategory.
  - subst level. reflexivity.
  - destruct (Z.eqb_spec level 2); [lia|]. cbn [andb].
    destruct (Z.eqb_spec level 3); [lia|].
    destruct (Z.leb_spec 4 level); [reflexivity | lia].
  - destruct (Z.eqb_spec level 2); [lia|]. cbn [andb].
    destruct (Z.eqb_spec level 3); [lia|].
    destruct (Z.leb_spec 4 level); [lia | reflexivity].
Qed.

(** ** The files the formatter writes *)

Lemma disk_writeFile (files : gmap string string) (filepath content : string) :
  disk files (writeFile filepath content) = <[filepath := content]> files.
Proof. reflexivity. Qed.

(** A streamed write leaves the file with the text that was streamed. *)
Lemma disk_writeFileStream (files : gmap string string)
    (filepath content : string) :
  disk files (writeFileStream filepath content)
  = <[filepath := content]> files.
Proof.
  unfold writeFileStream, disk. cbn [map foldl applyEffect].
  rewrite lookup_insert_eq. cbn [default].
  now rewrite append_empty_l, insert_insert_eq.
Qed.

(** C7.  The full document that ends up on disk does not depend on the
    size above which it is streamed: with any other threshold the render
    leaves the same file as with the threshold of 10 MiB, namely the
    assembled text at the full-document path, and a streamed and a buffered
    write of that text produce the same bytes. *)
Theorem streaming_equivalence (root : DocNode) (options : FormatterOptions)
    (date : string) (files : gmap string string) (threshold : N) :
  disk files (generateFullDocAbove root options date threshold)
  = disk files (generateFullDoc root options date)
  /\ disk files (generateFullDoc root options date)
     = <[fullDocPath options := fullDocContent root options date]> files
  /\ disk files (writeFileStream (fullDocPath options)
                   (fullDocContent root options date))
     = disk files (writeFile (fullDocPath options)
                     (fullDocContent root options date)).
Proof.
  assert (G : forall limit,
    disk files (generateFullDocAbove root options date limit)
    = <[fullDocPath options := fullDocContent root options date]> files).
  { intros limit. unfold generateFullDocAbove.
    destruct (limit <? _)%N;
      [apply disk_writeFileStream | apply disk_writeFile]. }
  unfold generateFullDoc. split; [|split].
  - now rewrite !G.
  - apply G.
  - now rewrite disk_writeFileStream, disk_writeFile.
Qed.

(** The group files in full: their names and their text. *)
Lemma generateModularDocs_files (root : DocNode) (options : FormatterOptions) :
  generateModularDocs root options
  = map (fun category =>
           WriteFile
             (outputDir options +:+ "/"
                +:+ Js.strOr (filenamePrefix options) "documentation"
                +:+ "-" +:+ node_id category +:+ "-llms.txt")
             (generateCategoryHeader root options category
                +:+ formatNode category []))
      (filter (fun child => node_type child = CATEGORY) (node_children root)).
Proof.
  rewrite generateModularDocs_map. apply map_ext. intros category.
  unfold categoryFilename, categoryContent. now str_norm.
Qed.

(** The operations of a run are the accepted ones, then the rejected one if
    there is one, then those that were not started. *)
Lemma awaitAll_operations {World : Type}
    (perform : World -> Effect -> option World) (operations : list Effect) :
  forall state,
    exists notStarted,
      operations
      = performed (awaitAll perform state operations)
          ++ option_list (rejected (awaitAll perform state operations))
          ++ notStarted
      /\ (rejected (awaitAll perform state operations) = None ->
          notStarted = []).
Proof.
  induction operations as [|operation rest IH]; intros state.
  - exists []. split; reflexivity.
  - cbn [awaitAll]. destruct (perform state operation) as [state'|].
    + destruct (IH state') as (notStarted & E & Hnone).
      exists notStarted. cbn [performed rejected app]. split.
      * f_equal. exact E.
      * exact Hnone.
    + exists rest. cbn [performed rejected option_list app].
      split; [reflexivity | discriminate].
Qed.

Lemma awaitAll_completed {World : Type}
    (perform : World -> Effect -> option World) (operations : list Effect)
    (state : World) :
  rejected (awaitAll perform state operations) = None ->
  performed (awaitAll perform state operations) = operations.
Proof.
  intros Hnone.
  destruct (awaitAll_operations perform operations state)
    as (notStarted & E & Hrest).
  rewrite (Hrest Hnone), Hnone in E. cbn [option_list app] in E.
  rewrite app_nil_r in E. now symmetry.
Qed.

Lemma generateAll_operations (root : DocNode) (options : FormatterOptions)
    (date : string) :
  generateAll root options date
  = Mkdir (outputDir options)
      :: generateFullDoc root options date
      ++ map (fun category =>
                WriteFile
                  (outputDir options +:+ "/"
                     +:+ Js.strOr (filenamePrefix options) "documentation"
                     +:+ "-" +:+ node_id category +:+ "-llms.txt")
                  (generateCategoryHeader root options category
                     +:+ formatNode category []))
           (filter (fun child => node_type child = CATEGORY)
              (node_children root)).
Proof.
  unfold generateAll. now rewrite generateModularDocs_files.
Qed.

(** C8.  A render asks the file system, in this order, for the output
    directory, for the full document, and for one file per direct child of
    the top node that is a CATEGORY, named
    [<prefix>-<id of the child>-llms.txt] in the output directory; it stops
    at the first operation the file system rejects.  So a render in which
    no operation is rejected writes exactly one group file per CATEGORY
    child, in their order, and when no direct child is a CATEGORY it
    creates the directory and writes the full document only. *)
Theorem one_file_per_category {World : Type}
    (perform : World -> Effect -> option World) (state : World)
    (root : DocNode) (options : FormatterOptions) (date : string) :
  let run := formatDocNode perform state root options date in
  let groupFile category :=
    WriteFile
      (outputDir options +:+ "/"
         +:+ Js.strOr (filenamePrefix options) "documentation"
         +:+ "-" +:+ node_id category +:+ "-llms.txt")
      (generateCategoryHeader root options category
         +:+ formatNode category []) in
  let groups :=
    filter (fun child => node_type child = CATEGORY) (node_children root) in
  (exists notStarted,
     Mkdir (outputDir options)
       :: generateFullDoc root options date ++ map groupFile groups
     = performed run ++ option_list (rejected run) ++ notStarted
     /\ (rejected run = None -> notStarted = []))
  /\ (rejected run = None ->
      performed run
      = Mkdir (outputDir options)
          :: generateFullDoc root options date ++ map groupFile groups)
  /\ (rejected run = None ->
      Forall (fun child => node_type child <> CATEGORY) (node_children root) ->
      performed run
      = Mkdir (outputDir options) :: generateFullDoc root options date).
Proof.
  cbn zeta. unfold formatDocNode. split_and!.
  - rewrite <- generateAll_operations. apply awaitAll_operations.
  - intros Hnone. rewrite (awaitAll_completed _ _ _ Hnone).
    apply generateAll_operations.
  - intros Hnone Hnogroup. rewrite (awaitAll_completed _ _ _ Hnone).
    rewrite generateAll_operations.
    assert (E : filter (fun child => node_type child = CATEGORY)
                  (node_children root) = []).
    { induction Hnogroup as [|c l Hc Hl IH]; [reflexivity|].
      rewrite filter_cons. now destruct (decide (node_type c = CATEGORY)). }
    rewrite E. cbn [map]. now rewrite app_nil_r.
Qed.

Lemma formatContent_PROSE (text : string) (language : option string)
    (annotations : option (gmap string Js.value)) :
  formatContent (mkContentBlock PROSE language text annotations)
  = text +:+ DOUBLE_NEWLINE.
Proof.
  unfold formatContent. cbn [block_type block_content]. now str_norm.
Qed.

Lemma convertOperation_fields (operation : Operation) :
  node_type (convertOperation operation) = OPERATION
  /\ node_title (convertOperation operation) = op_title operation
  /\ node_description (convertOperation operation) = op_description operation
  /\ node_content (convertOperation operation)
     = whenNonEmpty (op_description operation)
         (createContentBlock PROSE (op_description operation) None None)
       ++ whenNonEmpty (op_notes operation)
            (createContentBlock PROSE (op_notes operation) None None)
  /\ node_children (convertOperation operation)
     = map convertExample (op_examples operation).
Proof.
  repeat split. unfold convertOperation, whenNonEmpty.
  cbn [createDocNode node_content opt_content default from_option id].
  now destruct (Js.nonEmpty (op_description operation)),
    (Js.nonEmpty (op_notes operation)).
Qed.

Lemma convertExample_fields (example : Example) :
  node_type (convertExample example) = ITEM
  /\ node_title (convertExample example) = ex_name example
  /\ node_description (convertExample example) = ex_description example
  /\ node_children (convertExample example) = [].
Proof. repeat split. Qed.

(** C9.  A converted operation whose description is not empty is rendered
    with the description twice in a row, right after its heading line: once
    as the description paragraph of the node and once as its first PROSE
    block, both followed by a blank line.  The same holds for a converted
    example whose description is not empty. *)
Theorem description_rendered_twice :
  (forall (operation : Operation) (numbers : list nat),
     op_description operation <> "" ->
     formatNode (convertOperation operation) numbers
     = headingLine (convertOperation operation) numbers +:+ DOUBLE_NEWLINE
         +:+ op_description operation +:+ DOUBLE_NEWLINE
         +:+ op_description operation +:+ DOUBLE_NEWLINE
         +:+ (if Js.nonEmpty (op_notes operation)
              then op_notes operation +:+ DOUBLE_NEWLINE else "")
         +:+ Js.join ""
               (childrenText numbers
                  (map convertExample (op_examples operation))))
  /\
  (forall (example : Example) (numbers : list nat),
     ex_description example <> "" ->
     exists others,
       node_content (convertExample example)
       = createContentBlock PROSE (ex_description example) None None
           :: others
       /\ formatNode (convertExample example) numbers
          = headingLine (convertExample example) numbers +:+ DOUBLE_NEWLINE
              +:+ ex_description example +:+ DOUBLE_NEWLINE
              +:+ ex_description example +:+ DOUBLE_NEWLINE
              +:+ Js.join "" (map formatContent others)).
Proof.
  split.
  - intros operation numbers Hd. apply nonEmpty_true in Hd.
    rewrite formatNode_other by discriminate.
    destruct (convertOperation_fields operation) as (_ & _ & -> & -> & ->).
    unfold whenNonEmpty. rewrite Hd.
    destruct (Js.nonEmpty (op_notes operation)); cbn [app map];
      unfold createContentBlock; rewrite ?formatContent_PROSE; now str_norm.
  - intros example numbers Hd. apply nonEmpty_true in Hd.
    assert (Hc : exists others,
      node_content (convertExample example)
      = createContentBlock PROSE (ex_description example) None None
          :: others).
    { unfold convertExample, createContentBlock.
      cbn [createDocNode node_content opt_content default]. rewrite Hd.
      destruct (Js.nonEmpty (ex_code example)),
        (Js.nonEmpty (ex_dataSql example)),
        (Js.nonEmpty (ex_response example)); eexists; reflexivity. }
    destruct Hc as [others Hc]. exists others. split; [exact Hc|].
    rewrite formatNode_other by discriminate. rewrite Hc.
    destruct (convertExample_fields example) as (_ & _ & -> & ->).
    rewrite Hd. cbn [map]. unfold createContentBlock.
    rewrite formatContent_PROSE.
    unfold childrenText. rewrite imap_nil. now str_norm.
Qed.

(** C10.  The file of a group holds, right after the group header, the
    heading line of the group node itself with an empty number, that is
    [# . <group title>], then the group's description and content, and then
    its children, which are numbered from 1. *)
Theorem group_file_starts_with_unnumbered_heading (root : DocNode)
    (options : FormatterOptions) (category : DocNode) :
  category ∈ node_children root ->
  node_type category = CATEGORY ->
  WriteFile
    (outputDir options +:+ "/"
       +:+ Js.strOr (filenamePrefix options) "documentation"
       +:+ "-" +:+ node_id category +:+ "-llms.txt")
    (generateCategoryHeader root options category
       +:+ "# . " +:+ node_title category +:+ DOUBLE_NEWLINE
       +:+ (if Js.nonEmpty (node_description category)
            then node_description category +:+ DOUBLE_NEWLINE else "")
       +:+ Js.join "" (map formatContent (node_content category))
       +:+ Js.join ""
             (imap (fun i child => formatNode child [S i])
                (node_children category)))
  ∈ generateModularDocs root options.
Proof.
  intros Hin Hty.
  rewrite generateModularDocs_files. apply list_elem_of_fmap.
  exists category. split.
  - f_equal. rewrite formatNode_other by congruence.
    unfold headingLine, getHeading, numberString.
    cbn [length map Nat.add Nat.min Js.repeat]. now str_norm.
  - apply list_elem_of_filter. now split.
Qed.

(** ** The section builder of the Markdown parser *)

Section BuildSections.
Variable slugify : string -> string.
Variable trim : string -> string.

Lemma mutate_Some (f : SectionObject -> SectionObject) (r : Ref)
    (store : Store) (o : SectionObject) :
  store !! r = Some o -> mutate f r store = Some (<[r := f o]> store).
Proof. intros H. unfold mutate. now rewrite H. Qed.

(** Writing to one object leaves the others as they are. *)
Lemma lookup_mutated (f : SectionObject -> SectionObject) (r r' : Ref)
    (store : Store) (o : SectionObject) :
  store !! r = Some o ->
  <[r := f o]> store !! r' = if decide (r = r') then Some (f o)
                             else store !! r'.
Proof.
  intros H. destruct (decide (r = r')) as [<-|Hne].
  - apply list_lookup_insert_eq. eapply lookup_lt_Some; eassumption.
  - now apply list_lookup_insert_ne.
Qed.

(** Saving the pending content touches the content of the section on top
    of the stack, and nothing else. *)
Lemma saveContent_spec (st : State) :
  stackValid st ->
  exists st1,
    saveContent st = Some st1
    /\ stack st1 = stack st
    /\ rootSections st1 = rootSections st
    /\ length (store st1) = length (store st)
    /\ (forall r, levelAt (store st1) r = levelAt (store st) r)
    /\ (forall r, childrenAt (store st1) r = childrenAt (store st) r)
    /\ (forall top rest, stack st = top :: rest ->
          contentAt (store st1) top
          = (fun c => c ++ currentContent st)
              <$> contentAt (store st) top).
Proof.
  intros Hvalid. unfold saveContent.
  destruct (stack st) as [|top rest] eqn:Hs.
  { exists st. split_and!; try reflexivity; try assumption.
    intros ? ? [=]. }
  destruct (currentContent st) as [|c cs] eqn:Hc.
  { exists st. split_and!; try reflexivity; try assumption.
    intros top' rest' [= <- <-]. unfold contentAt.
    destruct (store st !! top) as [o|]; cbn; [|reflexivity].
    now rewrite app_nil_r. }
  assert (Htop : top < length (store st)).
  { unfold stackValid in Hvalid. rewrite Hs in Hvalid.
    now inversion Hvalid. }
  destruct (lookup_lt_is_Some_2 _ _ Htop) as [o Ho].
  rewrite (mutate_Some _ _ _ _ Ho).
  eexists. split; [reflexivity|]. cbn [stack rootSections store].
  split_and!; try reflexivity.
  - apply length_insert.
  - intros r. unfold levelAt. rewrite (lookup_mutated _ _ r _ _ Ho).
    destruct (decide (top = r)) as [<-|]; [|reflexivity]. now rewrite Ho.
  - intros r. unfold childrenAt. rewrite (lookup_mutated _ _ r _ _ Ho).
    destruct (decide (top = r)) as [<-|]; [|reflexivity]. now rewrite Ho.
  - intros top' rest' [= <- <-]. unfold contentAt.
    rewrite (lookup_mutated _ _ top _ _ Ho), Ho.
    destruct (decide (top = top)); [reflexivity | congruence].
Qed.

(** The pop loop reads nothing but the levels of the sections. *)
Lemma popWhile_levels (s1 s2 : Store) (depth : Z) (refs : list Ref) :
  Forall (fun r => levelAt s1 r = levelAt s2 r) refs ->
  Forall (fun r => r < length s2) refs ->
  popWhile s1 depth refs = popWhile s2 depth refs.
Proof.
  induction 1 as [|r l Hr Hl IH]; intros Hlen; [reflexivity|].
  inversion Hlen as [|? ? Hr2 Hl2]; subst. cbn [popWhile].
  unfold levelAt in Hr.
  destruct (lookup_lt_is_Some_2 _ _ Hr2) as [o2 Ho2]. rewrite Ho2 in *.
  destruct (s1 !! r) as [o1|]; [|discriminate].
  cbn in Hr. injection Hr as ->.
  destruct (depth <=? obj_level o2)%Z; [now apply IH | reflexivity].
Qed.

(** The pop loop removes from the top of the stack the sections whose
    level is at least [depth], and stops at the first one below it. *)
Lemma popWhile_spec (store : Store) (depth : Z) (refs : list Ref) :
  Forall (fun r => r < length store) refs ->
  exists popped kept,
    popWhile store depth refs = Some kept
    /\ refs = popped ++ kept
    /\ Forall (fun r => exists l, levelAt store r = Some l
                                  /\ (depth <= l)%Z) popped
    /\ (forall parent, head kept = Some parent ->
          exists l, levelAt store parent = Some l /\ (l < depth)%Z).
Proof.
  induction 1 as [|r l Hr Hl IH].
  { exists [], []. split_and!; try reflexivity; [constructor | intros ? [=]]. }
  destruct (lookup_lt_is_Some_2 _ _ Hr) as [o Ho].
  cbn [popWhile]. rewrite Ho.
  destruct (Z.leb_spec depth (obj_level o)) as [Hle|Hlt].
  - destruct IH as (popped & kept & E & -> & Hp & Hk).
    exists (r :: popped), kept. split_and!; try reflexivity; try assumption.
    constructor; [|assumption].
    exists (obj_level o). unfold levelAt. now rewrite Ho.
  - exists [], (r :: l). split_and!; try reflexivity; [constructor|].
    intros parent [= <-]. exists (obj_level o).
    unfold levelAt. now rewrite Ho.
Qed.

(** The heading branch: pop, attach, push. *)
Lemma openSection_spec (st : State) (depth : Z) (text : string) :
  stackValid st ->
  exists st' popped kept,
    openSection slugify depth text st = Some st'
    /\ stack st = popped ++ kept
    /\ Forall (fun r => exists l, levelAt (store st) r = Some l
                                  /\ (depth <= l)%Z) popped
    /\ (forall parent, head kept = Some parent ->
          exists l, levelAt (store st) parent = Some l /\ (l < depth)%Z)
    /\ stack st' = length (store st) :: kept
    /\ store st' !! length (store st) = Some (newSection slugify depth text)
    /\ match kept with
       | parent :: _ =>
           rootSections st' = rootSections st
           /\ exists children,
                childrenAt (store st) parent = Some children
                /\ childrenAt (store st') parent
                   = Some (children ++ [length (store st)])
       | [] => rootSections st' = rootSections st ++ [length (store st)]
       end
    /\ length (store st') = S (length (store st))
    /\ (forall r, r < length (store st) -> head kept <> Some r ->
          childrenAt (store st') r = childrenAt (store st) r)
    /\ childrenAt (store st') (length (store st))
       = Some (obj_children (newSection slugify depth text)).
Proof.
  intros Hvalid.
  destruct (saveContent_spec st Hvalid)
    as (st1 & Hsave & Hstack & Hroots & Hlen & Hlev & Hch & _).
  unfold openSection. rewrite Hsave. cbn [mbind option_bind].
  set (store1 := store st1 ++ [newSection slugify depth text]).
  assert (Hin : forall r, r < length (store st) ->
                          store1 !! r = store st1 !! r).
  { intros r Hr. unfold store1. apply lookup_app_l. now rewrite Hlen. }
  assert (Hpop : popWhile store1 depth (stack st1)
                 = popWhile (store st) depth (stack st)).
  { rewrite Hstack. apply popWhile_levels; [|exact Hvalid].
    eapply Forall_impl; [exact Hvalid|]. intros r Hr. cbn beta.
    rewrite <- Hlev. unfold levelAt. now rewrite Hin. }
  rewrite Hpop.
  destruct (popWhile_spec (store st) depth (stack st) Hvalid)
    as (popped & kept & -> & Hsplit & Hpopped & Hkept).
  cbn [mbind option_bind].
  assert (Hfresh : store1 !! length (store st)
                   = Some (newSection slugify depth text)).
  { unfold store1. apply list_lookup_middle. now rewrite Hlen. }
  assert (Hlen1 : length store1 = S (length (store st))).
  { unfold store1. rewrite length_app, Hlen. cbn. lia. }
  destruct kept as [|parent kept'].
  - eexists _, popped, []. split; [reflexivity|].
    cbn [stack store rootSections]. rewrite Hlen, Hroots.
    split_and!; try reflexivity; try assumption.
    + intros r Hr _. rewrite <- Hch. unfold childrenAt. now rewrite Hin.
    + unfold childrenAt. now rewrite Hfresh.
  - assert (Hparent : parent < length (store st)).
    { unfold stackValid in Hvalid. rewrite Hsplit in Hvalid.
      apply Forall_app in Hvalid as [_ Hv]. now inversion Hv. }
    assert (Hparent1 : parent < length (store st1)) by now rewrite Hlen.
    destruct (lookup_lt_is_Some_2 _ _ Hparent1) as [o Ho].
    assert (Ho1 : store1 !! parent = Some o) by now rewrite Hin.
    rewrite (mutate_Some _ _ _ _ Ho1). cbn [mbind option_bind].
    eexists _, popped, (parent :: kept'). split; [reflexivity|].
    cbn [stack store rootSections]. rewrite Hlen, Hroots.
    split_and!; try reflexivity; try assumption.
    + rewrite (lookup_mutated _ _ (length (store st)) _ _ Ho1).
      destruct (decide (parent = length (store st))); [lia | exact Hfresh].
    + exists (obj_children o). split.
      * rewrite <- Hch. unfold childrenAt. now rewrite Ho.
      * unfold childrenAt. rewrite (lookup_mutated _ _ parent _ _ Ho1).
        now destruct (decide (parent = parent)).
    + now rewrite length_insert.
    + intros r Hr Hneq. rewrite <- Hch. unfold childrenAt.
      rewrite (lookup_mutated _ _ r _ _ Ho1).
      destruct (decide (parent = r)) as [->|]; [now destruct Hneq|].
      now rewrite Hin.
    + unfold childrenAt.
      rewrite (lookup_mutated _ _ (length (store st)) _ _ Ho1).
      destruct (decide (parent = length (store st))); [lia|].
      now rewrite Hfresh.
Qed.

(** Tokens other than headings only add to the pending content. *)
Lemma loop_contents (contents : list Token) (st : State) :
  Forall (fun token => isHeading token = false) contents ->
  loop slugify trim contents st
  = Some {| store := store st; rootSections := rootSections st;
            stack := stack st;
            currentContent :=
              currentContent st ++ omap (tokenToContent trim) contents |}.
Proof.
  intros H. revert st. induction H as [|token l Ht Hl IH]; intros st.
  - cbn [loop]. rewrite omap_nil, app_nil_r. now destruct st.
  - cbn [loop].
    assert (E : step slugify trim st token = Some (accumulate trim token st))
      by now destruct token.
    rewrite E. cbn [mbind option_bind]. rewrite IH, omap_cons.
    unfold accumulate. destruct (tokenToContent trim token) as [c|].
    + cbn [store rootSections stack currentContent].
      now rewrite <- app_assoc.
    + reflexivity.
Qed.

(** *** The builder never fails *)

Lemma wellFormed_initial : wellFormed initial.
Proof.
  split_and!; try constructor.
  intros r children H. discriminate H.
Qed.

Lemma saveContent_wellFormed (st : State) :
  wellFormed st ->
  exists st1, saveContent st = Some st1 /\ wellFormed st1.
Proof.
  intros (Hvalid & Hroots & Hkids).
  destruct (saveContent_spec st Hvalid)
    as (st1 & Hsave & Hstack & Hr & Hlen & _ & Hch & _).
  exists st1. split; [exact Hsave|]. unfold wellFormed, stackValid.
  rewrite Hstack, Hr, Hlen. split_and!; try assumption.
  intros r children H. rewrite Hch in H. now apply Hkids.
Qed.

Lemma step_wellFormed (st : State) (token : Token) :
  wellFormed st ->
  exists st', step slugify trim st token = Some st' /\ wellFormed st'.
Proof.
  intros (Hvalid & Hroots & Hkids).
  destruct (isHeading token) eqn:Hh.
  - destruct token as [depth text| | | | | |]; try discriminate.
    cbn [step].
    destruct (openSection_spec st depth text Hvalid)
      as (st' & popped & kept & E & Hsplit & _ & _ & Hstack & _ & Hattach
          & Hlen & Hsame & Hnew).
    exists st'. split; [exact E|].
    assert (Hkept : Forall (fun r => r < length (store st)) kept).
    { unfold stackValid in Hvalid. rewrite Hsplit in Hvalid.
      now apply Forall_app in Hvalid as [_ Hv]. }
    unfold wellFormed, stackValid. rewrite Hstack, Hlen. split_and!.
    + constructor; [lia|]. eapply Forall_impl; [exact Hkept|].
      intros r Hr. cbn beta in *. lia.
    + destruct kept as [|parent kept'].
      * rewrite Hattach. apply Forall_app. split.
        -- eapply Forall_impl; [exact Hroots|]. intros r Hr.
           cbn beta in *. lia.
        -- constructor; [lia | constructor].
      * destruct Hattach as [-> _].
        eapply Forall_impl; [exact Hroots|]. intros r Hr.
        cbn beta in *. lia.
    + intros r children Hr.
      destruct (decide (r = length (store st))) as [->|Hne].
      { rewrite Hnew in Hr. injection Hr as <-. constructor. }
      assert (Hlt : r < length (store st)).
      { unfold childrenAt in Hr.
        destruct (store st' !! r) as [o|] eqn:Ho; [|discriminate].
        apply lookup_lt_Some in Ho. lia. }
      destruct (decide (head kept = Some r)) as [Hhead|Hhead].
      * destruct kept as [|parent kept']; [discriminate|].
        injection Hhead as ->.
        destruct Hattach as (_ & cs & Hcs & Hcs').
        rewrite Hcs' in Hr. injection Hr as <-.
        apply Forall_app. split.
        -- eapply Forall_impl; [exact (Hkids r cs Hcs)|].
           intros c Hc. cbn beta in *. lia.
        -- constructor; [lia | constructor].
      * rewrite (Hsame r Hlt Hhead) in Hr.
        eapply Forall_impl; [exact (Hkids r children Hr)|].
        intros c Hc. cbn beta in *. lia.
  - exists (accumulate trim token st). split.
    + now destruct token.
    + unfold accumulate.
      now destruct (tokenToContent trim token).
Qed.

Lemma loop_wellFormed (tokens : list Token) :
  forall st, wellFormed st ->
  exists st', loop slugify trim tokens st = Some st' /\ wellFormed st'.
Proof.
  induction tokens as [|token rest IH]; intros st Hwf.
  - exists st. now split.
  - destruct (step_wellFormed st token Hwf) as (st1 & E & Hwf1).
    cbn [loop]. rewrite E. cbn [mbind option_bind]. now apply IH.
Qed.

Lemma run_wellFormed (tokens : list Token) :
  exists st, run slugify trim tokens = Some st /\ wellFormed st.
Proof.
  destruct (loop_wellFormed tokens initial wellFormed_initial)
    as (st & E & Hwf).
  unfold run. rewrite E. cbn [mbind option_bind].
  now apply saveContent_wellFormed.
Qed.

(** A section can be read with fuel for the sections created after it. *)
Lemma readSection_enough (store : list SectionObject) :
  (forall r children, childrenAt store r = Some children ->
     Forall (fun c => r < c < length store) children) ->
  forall fuel r,
    r < length store -> length store - r <= fuel ->
    is_Some (readSection store fuel r).
Proof.
  intros Hkids. induction fuel as [|fuel IH]; intros r Hr Hfuel; [lia|].
  destruct (lookup_lt_is_Some_2 _ _ Hr) as [o Ho].
  cbn [readSection]. rewrite Ho. cbn [mbind option_bind].
  assert (Hall : is_Some (mapM (readSection store fuel) (obj_children o))).
  { apply mapM_is_Some. 
    assert (Hc : childrenAt store r = Some (obj_children o))
      by (unfold childrenAt; now rewrite Ho).
    eapply Forall_impl; [exact (Hkids r _ Hc)|].
    intros c [Hc1 Hc2]. cbn. apply IH; lia. }
  destruct Hall as [children ->]. cbn [mbind option_bind]. eauto.
Qed.

(** [buildSections] returns a list of section trees for every token
    list. *)
Lemma buildSections_total (tokens : list Token) :
  is_Some (buildSections slugify trim tokens).
Proof.
  destruct (run_wellFormed tokens) as (st & E & (_ & Hroots & Hkids)).
  unfold buildSections. rewrite E. cbn [mbind option_bind].
  apply mapM_is_Some. eapply Forall_impl; [exact Hroots|].
  intros r Hr. cbn. apply readSection_enough; [exact Hkids | exact Hr | lia].
Qed.

End BuildSections.

(* ====================================================================== *)
(** * The properties on the sample inputs *)
(* ====================================================================== *)

Import Samples MoreSamples.

(** The categorised demo spec renders to a full document and one group
    file; the group file numbers the entries of the group from 1. *)
Example demo_render_files :
  map (fun e => match e with
                | WriteFile path _ => path
                | Mkdir path | SOpen path | SChunk path _ => path
                end) (generateAll demoTree demoOptions demoDate)
  = ["out"; "out/demo-full-llms.txt"; "out/demo-db-llms.txt"].
Proof. vm_compute. reflexivity. Qed.

Example demo_flat_headings :
  formatNode demoFlatTree []
  = "## 1. select" +:+ DOUBLE_NEWLINE
      +:+ "Fetch rows." +:+ DOUBLE_NEWLINE
      +:+ "Fetch rows." +:+ DOUBLE_NEWLINE
      +:+ "### 1.1. Basic select" +:+ DOUBLE_NEWLINE
      +:+ "Reads all rows." +:+ DOUBLE_NEWLINE
      +:+ "Reads all rows." +:+ DOUBLE_NEWLINE
      +:+ "```javascript" +:+ NEWLINE +:+ "let x = 1" +:+ NEWLINE
      +:+ "```" +:+ DOUBLE_NEWLINE
      +:+ NEWLINE +:+ "// schema" +:+ NEWLINE +:+ "/*" +:+ NEWLINE
      +:+ "create table t (id int);" +:+ NEWLINE +:+ "*/" +:+ DOUBLE_NEWLINE
      +:+ "## 2. insert" +:+ DOUBLE_NEWLINE
      +:+ "Returns nothing." +:+ DOUBLE_NEWLINE.
Proof. vm_compute. reflexivity. Qed.

Example demo_tokens_state : run id id demoTokens = Some demoState.
Proof. vm_compute. reflexivity. Qed.

Example demo_tokens_tree :
  buildSections id id demoTokens
  = Some [{| sec_level := 1; sec_title := "Guide"; sec_id := "Guide";
             sec_content := [{| mc_type := MdProse; mc_content := "Intro.";
                                mc_language := None |}];
             sec_children :=
               [{| sec_level := 2; sec_title := "Setup"; sec_id := "Setup";
                   sec_content := [{| mc_type := MdCode;
                                      mc_content := "npm install";
                                      mc_language := Some "bash" |}];
                   sec_children :=
                     [{| sec_level := 3; sec_title := "Details";
                         sec_id := "Details"; sec_content := [];
                         sec_children := [] |}] |}] |}].
Proof. vm_compute. reflexivity. Qed.

(** The numbering rule needs the top to be the only node of kind ROOT: a
    ROOT node further down has no heading either, and the numbers of its
    children start again at 1. *)
Example nested_root_restarts_numbering :
  formatNode nestedRootTree []
  = "## 1. A" +:+ DOUBLE_NEWLINE +:+ "## 1. B" +:+ DOUBLE_NEWLINE.
Proof. vm_compute. reflexivity. Qed.

(** C1 on the demo tree: the operation [select], first child of the first
    group, is rendered under the number 1.1. *)
Lemma hierarchical_numbering_witness :
  exists before body after,
    formatNode (convertOperation selectOperation) [1; 1]
    = "### 1.1. select" +:+ DOUBLE_NEWLINE +:+ body
    /\ formatNode demoTree []
       = before +:+ formatNode (convertOperation selectOperation) [1; 1]
           +:+ after.
Proof.
  apply (proj2 (hierarchical_numbering demoTree)).
  - vm_compute. reflexivity.
  - discriminate.
  - vm_compute. reflexivity.
Defined.

(** C2, as it was stated, on the demo tree: another [format] entry on the
    top node changes the full document. *)
Lemma metadata_changes_header :
  eraseMetadata demoTree = eraseMetadata retaggedTree
  /\ generateAll demoTree demoOptions demoDate
     <> generateAll retaggedTree demoOptions demoDate.
Proof.
  split.
  - vm_compute. reflexivity.
  - intros H. vm_compute in H. discriminate H.
Qed.

(** C2 as amended: without the [sdk] entry the output is the same. *)
Lemma metadata_only_in_header_witness :
  generateAll demoTree demoOptions demoDate
  = generateAll untaggedTree demoOptions demoDate.
Proof.
  apply (metadata_only_in_header demoTree untaggedTree demoOptions demoDate).
  - vm_compute. reflexivity.
  - right. vm_compute. reflexivity.
Defined.

(** C3 on the demo spec: the id [missing] is passed over and the category
    [empty] gives no node. *)
Lemma unresolved_ids_and_empty_categories_skipped_witness :
  convertWithCategories demoSpec demoCategories
  = convertWithCategories demoSpec [("db", ["select"; "insert"])].
Proof.
  transitivity
    (convertWithCategories demoSpec
       [("db", ["select"; "insert"]); ("empty", ["nope"])]).
  - apply (proj1 (unresolved_ids_and_empty_categories_skipped demoSpec
                    [] [("empty", ["nope"])] "db")
             (or_intror eq_refl) ["select"] ["insert"] "missing").
    vm_compute. intros H.
    repeat (inversion_clear H as [|? ? ? H0]; rename H0 into H).
  - apply (proj2 (unresolved_ids_and_empty_categories_skipped demoSpec
                    [("db", ["select"; "insert"])] [] "empty") ["nope"]).
    repeat constructor.
Defined.

(** C5 on a level-2 section. *)
Lemma convertSection_node_type_witness :
  node_type (convertSection demoSection true) = CATEGORY
  /\ node_type (convertSection demoSection false) = SECTION.
Proof.
  split.
  - apply (proj1 (convertSection_node_type demoSection true)). reflexivity.
  - apply (proj1 (convertSection_node_type demoSection false)). reflexivity.
Defined.


(** C8 on a file system with directories that starts empty: the render of
    the demo tree completes and writes the file of the group [db], and the
    render of the flat demo tree, which has no group, writes the full
    document only. *)
Lemma one_file_per_category_witness :
  performed (formatDocNode foldersPerform emptyFolders demoTree demoOptions
               demoDate)
  = Mkdir "out"
      :: generateFullDoc demoTree demoOptions demoDate
      ++ [WriteFile "out/demo-db-llms.txt"
            (generateCategoryHeader demoTree demoOptions dbCategory
               +:+ formatNode dbCategory [])]
  /\ performed (formatDocNode foldersPerform emptyFolders demoFlatTree
                  demoOptions demoDate)
     = Mkdir "out" :: generateFullDoc demoFlatTree demoOptions demoDate.
Proof.
  split.
  - apply (proj1 (proj2 (one_file_per_category foldersPerform emptyFolders
                           demoTree demoOptions demoDate))).
    vm_compute. reflexivity.
  - apply (proj2 (proj2 (one_file_per_category foldersPerform emptyFolders
                           demoFlatTree demoOptions demoDate))).
    + vm_compute. reflexivity.
    + vm_compute. repeat constructor; discriminate.
Defined.

(** C8, as it was stated, on a tree whose first group has a slash in its
    name: the file system has no directory [out/demo-a], the write of the
    first group file is rejected, and the second group gets no file. *)
Lemma group_file_missing_after_rejected_write :
  let run :=
    formatDocNode foldersPerform emptyFolders slashTree demoOptions demoDate in
  map node_id (filter (fun child => node_type child = CATEGORY)
                 (node_children slashTree))
  = ["a/b"; "c"]
  /\ performed run
     = Mkdir "out" :: generateFullDoc slashTree demoOptions demoDate
  /\ (exists content,
        rejected run = Some (WriteFile "out/demo-a/b-llms.txt" content))
  /\ forall content,
       WriteFile "out/demo-c-llms.txt" content ∉ performed run.
Proof.
  cbn zeta. split_and!.
  - vm_compute. reflexivity.
  - vm_compute. reflexivity.
  - eexists. vm_compute. reflexivity.
  - intros content H. vm_compute in H.
    repeat (apply elem_of_cons in H as [H|H]; [discriminate H|]).
    inversion H.
Qed.

(** C9 on the [select] operation. *)
Lemma description_rendered_twice_witness :
  formatNode (convertOperation selectOperation) [1]
  = "## 1. select" +:+ DOUBLE_NEWLINE
      +:+ "Fetch rows." +:+ DOUBLE_NEWLINE
      +:+ "Fetch rows." +:+ DOUBLE_NEWLINE
      +:+ Js.join ""
            (childrenText [1] (map convertExample [selectExample])).
Proof.
  apply (proj1 description_rendered_twice selectOperation [1]).
  discriminate.
Defined.

(** C10 on the group [db] of the demo tree. *)
Lemma group_file_starts_with_unnumbered_heading_witness :
  WriteFile "out/demo-db-llms.txt"
    (generateCategoryHeader demoTree demoOptions dbCategory
       +:+ "# . db" +:+ DOUBLE_NEWLINE
       +:+ Js.join ""
             (imap (fun i child => formatNode child [S i])
                (map convertOperation [selectOperation; insertOperation])))
  ∈ generateModularDocs demoTree demoOptions.
Proof.
  apply (group_file_starts_with_unnumbered_heading demoTree demoOptions
           dbCategory).
  - vm_compute. apply list_elem_of_here.
  - reflexivity.
Defined.


(* ====================================================================== *)
(** * Further properties of the sources *)
(* ====================================================================== *)

Import Queries.

(** ** Traversal of a tree *)

Lemma traverse_children {A : Type} (callback : DocNode -> nat -> A -> A)
    (depth : nat) (children : list DocNode) (acc : A) :
  (fix eachChild (children : list DocNode) (acc : A) {struct children} : A :=
     match children with
     | [] => acc
     | child :: rest =>
         eachChild rest (traverseDocNode child callback (depth + 1) acc)
     end) children acc
  = foldl (fun acc child => traverseDocNode child callback (depth + 1) acc)
      acc children.
Proof.
  revert acc. induction children as [|c cs IH]; intros acc; [reflexivity|].
  cbn [foldl]. now rewrite IH.
Qed.

Lemma traverseDocNode_unfold {A : Type} (node : DocNode)
    (callback : DocNode -> nat -> A -> A) (depth : nat) (acc : A) :
  traverseDocNode node callback depth acc
  = foldl (fun acc child => traverseDocNode child callback (depth + 1) acc)
      (callback node depth acc) (node_children node).
Proof.
  destruct node as [ty i t d c ch m].
  cbn [traverseDocNode node_children]. apply traverse_children.
Qed.

(** A traversal whose callback ignores the depth is a left fold of the
    callback over the nodes in preorder. *)
Lemma traverseDocNode_preorder {A : Type} (f : DocNode -> A -> A)
    (node : DocNode) :
  forall (depth : nat) (acc : A),
    traverseDocNode node (fun n _ a => f n a) depth acc
    = foldl (fun a n => f n a) acc (preorder node).
Proof.
  induction node as [node IH] using DocNode_children_ind.
  intros depth acc. rewrite traverseDocNode_unfold.
  destruct node as [ty i t d c ch m]. cbn [preorder node_children foldl] in *.
  generalize (f (mkDocNode ty i t d c ch m) acc). clear acc.
  induction IH as [|x xs Hx Hxs IHxs]; intros acc; [reflexivity|].
  cbn [foldl flat_map]. rewrite foldl_app, Hx. apply IHxs.
Qed.

Lemma countNodes_preorder (root : DocNode) :
  countNodes root = length (preorder root).
Proof.
  unfold countNodes.
  rewrite (traverseDocNode_preorder (fun _ count => count + 1)).
  assert (G : forall (l : list DocNode) n,
    foldl (fun a _ => a + 1) n l = n + length l).
  { induction l as [|x l IH]; intros n; cbn [foldl length]; [lia|].
    rewrite IH. lia. }
  now rewrite G.
Qed.

Lemma findNodesByType_preorder (root : DocNode) (type : DocNodeType) :
  findNodesByType root type
  = filter (fun node => node_type node = type) (preorder root).
Proof.
  unfold findNodesByType.
  rewrite (traverseDocNode_preorder
             (fun node results =>
                if DocNodeType_eqb (node_type node) type
                then results ++ [node] else results)).
  assert (G : forall (l acc : list DocNode),
    foldl (fun a n => if DocNodeType_eqb (node_type n) type
                      then a ++ [n] else a) acc l
    = acc ++ filter (fun node => node_type node = type) l).
  { induction l as [|x l IH]; intros acc; cbn [foldl].
    - now rewrite filter_nil, app_nil_r.
    - rewrite IH, filter_cons.
      destruct (decide (node_type x = type)) as [E|E].
      + rewrite E. replace (DocNodeType_eqb type type) with true
          by now destruct type.
        now rewrite <- app_assoc.
      + replace (DocNodeType_eqb (node_type x) type) with false; [reflexivity|].
        destruct (node_type x), type; try reflexivity; congruence. }
  now rewrite G.
Qed.

Lemma elem_of_flat_map {A B : Type} (f : A -> list B) (l : list A) (y : B) :
  y ∈ flat_map f l <-> exists x, x ∈ l /\ y ∈ f x.
Proof.
  rewrite list_elem_of_In, in_flat_map. split.
  - intros (x & H1 & H2). exists x. now rewrite !list_elem_of_In.
  - intros (x & H1 & H2). exists x. now rewrite <- !list_elem_of_In.
Qed.

(** The nodes in preorder are the nodes that a list of child positions
    leads to. *)
Lemma elem_of_preorder (node : DocNode) :
  forall root, node ∈ preorder root <-> exists path, nodeAt root path = Some node.
Proof.
  intros root. revert node.
  induction root as [root IH] using DocNode_children_ind. intros node.
  destruct root as [ty i t d c ch m]. cbn [preorder node_children] in *.
  rewrite elem_of_cons, elem_of_flat_map. split.
  - intros [->|(child & Hchild & Hin)].
    + now exists [].
    + apply list_elem_of_lookup in Hchild as [k Hk].
      rewrite Forall_lookup in IH.
      apply (IH k child Hk) in Hin as [path Hpath].
      exists (S k :: path). cbn [nodeAt node_children]. now rewrite Hk.
  - intros [path Hpath]. destruct path as [|n rest].
    + left. cbn in Hpath. congruence.
    + right. destruct n as [|k]; [discriminate|].
      cbn [nodeAt node_children] in Hpath.
      destruct (ch !! k) as [child|] eqn:Hk; [|discriminate].
      exists child. split.
      * eapply list_elem_of_lookup_2; eassumption.
      * rewrite Forall_lookup in IH. apply (IH k child Hk). now exists rest.
Qed.

(** X1.  [findNodesByType] returns exactly the nodes of the given type that
    can be reached from the root through child positions. *)
Theorem findNodesByType_reachable (root node : DocNode)
    (type : DocNodeType) :
  node ∈ findNodesByType root type
  <-> node_type node = type /\ exists path, nodeAt root path = Some node.
Proof.
  rewrite findNodesByType_preorder, list_elem_of_filter, elem_of_preorder.
  tauto.
Qed.

Lemma countNodes_children (root : DocNode) :
  countNodes root = 1 + list_sum (map countNodes (node_children root)).
Proof.
  rewrite countNodes_preorder. destruct root as [ty i t d c ch m].
  cbn [preorder node_children length]. f_equal.
  induction ch as [|x xs IH]; [reflexivity|].
  cbn [flat_map map list_sum]. rewrite length_app, IH.
  now rewrite countNodes_preorder.
Qed.

(** X2.  [countNodes] counts the root and, for each child, the nodes of
    the child's subtree; every node has exactly one of the five types, so
    the counts of [findNodesByType] over the types add up to it. *)
Theorem countNodes_partition (root : DocNode) :
  countNodes root = 1 + list_sum (map countNodes (node_children root))
  /\ countNodes root
     = length (findNodesByType root ROOT)
       + length (findNodesByType root CATEGORY)
       + length (findNodesByType root SECTION)
       + length (findNodesByType root OPERATION)
       + length (findNodesByType root ITEM).
Proof.
  split.
  - apply countNodes_children.
  - rewrite countNodes_preorder, !findNodesByType_preorder.
    induction (preorder root) as [|x l IH]; [reflexivity|].
    rewrite !filter_cons. cbn [length]. rewrite IH.
    destruct (node_type x);
      repeat (destruct (decide _) as [?|?]; try congruence);
      cbn [length]; lia.
Qed.

(** ** Looking up operations *)

Lemma buildOperationMap_snoc (operations : list Operation) (op : Operation) :
  buildOperationMap (operations ++ [op])
  = <[op_id op := op]> (buildOperationMap operations).
Proof. unfold buildOperationMap. now rewrite foldl_app. Qed.

(** The lookup map answers with the last operation that has the id. *)
Lemma buildOperationMap_lookup (operations : list Operation) (id : string) :
  buildOperationMap operations !! id
  = List.find (fun o => String.eqb (op_id o) id) (rev operations).
Proof.
  induction operations as [|op ops IH] using rev_ind; [reflexivity|].
  rewrite buildOperationMap_snoc, rev_app_distr. cbn [rev app List.find].
  destruct (String.eqb_spec (op_id op) id) as [E|E].
  - rewrite E. apply lookup_insert_eq.
  - rewrite lookup_insert_ne by exact E. exact IH.
Qed.

Lemma find_by_id_Some (operations : list Operation) (id : string)
    (op : Operation) :
  List.find (fun o => String.eqb (op_id o) id) operations = Some op ->
  op ∈ operations /\ op_id op = id.
Proof.
  intros H. apply find_some in H as [H1 H2]. split.
  - now apply list_elem_of_In.
  - now apply String.eqb_eq.
Qed.

Lemma find_by_id_None (operations : list Operation) (id : string) :
  List.find (fun o => String.eqb (op_id o) id) operations = None <->
  id ∉ map op_id operations.
Proof.
  induction operations as [|op ops IH]; cbn [List.find map].
  - split; [intros _ H; inversion H | reflexivity].
  - rewrite not_elem_of_cons.
    destruct (String.eqb_spec (op_id op) id) as [E|E].
    + split; [discriminate | intros [H _]; congruence].
    + rewrite IH. split; [intros H; split; [congruence | exact H] | tauto].
Qed.

Lemma find_by_id_unique (operations : list Operation) (id : string)
    (op : Operation) :
  NoDup (map op_id operations) ->
  op ∈ operations -> op_id op = id ->
  List.find (fun o => String.eqb (op_id o) id) operations = Some op.
Proof.
  induction operations as [|x l IH]; intros Hnd Hin Hid.
  - inversion Hin.
  - cbn [map] in Hnd. apply NoDup_cons in Hnd as [Hx Hnd]. cbn [List.find].
    apply elem_of_cons in Hin as [->|Hin].
    + rewrite Hid. now rewrite String.eqb_refl.
    + destruct (String.eqb_spec (op_id x) id) as [E|E]; [|now apply IH].
      exfalso. apply Hx. rewrite E, <- Hid.
      apply list_elem_of_fmap. now exists op.
Qed.

Lemma elem_of_rev {A : Type} (x : A) (l : list A) : x ∈ rev l <-> x ∈ l.
Proof. rewrite !list_elem_of_In. symmetry. apply in_rev. Qed.

(** X3.  On a spec without a cached lookup map, [getOperationById] searches
    the operations from the front and leaves the map built; a lookup on the
    spec it leaves answers from the map, that is with the last operation
    that has the id.  The two answers are the same when the ids of the
    operations are pairwise distinct. *)
Theorem getOperationById_first_then_last (specData : SpecData)
    (operationId : string) :
  spec_operationMap specData = None ->
  let first := getOperationById specData operationId in
  let second := getOperationById first.2 operationId in
  first.1 = List.find (fun o => String.eqb (op_id o) operationId)
              (spec_operations specData)
  /\ second.1 = List.find (fun o => String.eqb (op_id o) operationId)
                  (rev (spec_operations specData))
  /\ second.2 = first.2
  /\ (NoDup (map op_id (spec_operations specData)) -> second.1 = first.1).
Proof.
  intros Hnone. unfold getOperationById. rewrite Hnone.
  cbn [fst snd spec_operationMap spec_operations].
  split_and!; try reflexivity.
  - apply buildOperationMap_lookup.
  - intros Hnd. rewrite buildOperationMap_lookup.
    destruct (List.find _ (spec_operations specData)) as [op|] eqn:E.
    + apply find_by_id_Some in E as [Hin Hid].
      apply find_by_id_unique; [| |exact Hid].
      * rewrite map_rev. now rewrite <- Permutation_rev.
      * now apply elem_of_rev.
    + apply find_by_id_None. apply find_by_id_None in E.
      rewrite map_rev, elem_of_rev. exact E.
Qed.

Lemma buildOperationMap_lookup_Some (operations : list Operation)
    (id : string) (op : Operation) :
  buildOperationMap operations !! id = Some op ->
  op ∈ operations /\ op_id op = id.
Proof.
  rewrite buildOperationMap_lookup. intros H.
  apply find_by_id_Some in H as [H1 H2]. now rewrite elem_of_rev in H1.
Qed.

Lemma buildOperationMap_lookup_is_Some (operations : list Operation)
    (id : string) :
  is_Some (buildOperationMap operations !! id) <->
  id ∈ map op_id operations.
Proof.
  rewrite <- not_eq_None_Some, buildOperationMap_lookup, find_by_id_None.
  rewrite map_rev, elem_of_rev. split; [apply dec_stable | tauto].
Qed.

(** X4.  For a spec whose cached map, if any, is the one built from its
    operations, [getOperationsByIds] resolves the ids the way the category
    conversion does, and the ids of the operations it returns are the
    requested ids that the spec has, in the order and as often as they were
    requested. *)
Theorem getOperationsByIds_ids (specData : SpecData)
    (operationIds : list string) :
  OpenRefAdapter.cacheFromOperations specData ->
  (getOperationsByIds specData operationIds).1
  = OpenRefAdapter.collectOperations (OpenRefAdapter.operationMap specData)
      operationIds
  /\ map op_id (getOperationsByIds specData operationIds).1
     = filter (fun id => id ∈ map op_id (spec_operations specData))
         operationIds.
Proof.
  intros Hcache.
  assert (E : (getOperationsByIds specData operationIds).1
    = omap (fun id => buildOperationMap (spec_operations specData) !! id)
        operationIds).
  { unfold getOperationsByIds.
    destruct Hcache as [H|H]; rewrite H;
      cbn [fst spec_operationMap spec_operations]; rewrite ?H;
      cbn [default from_option id]; now rewrite foldl_push_omap. }
  split.
  - rewrite E, collectOperations_omap. unfold OpenRefAdapter.operationMap.
    destruct Hcache as [H|H]; now rewrite H.
  - rewrite E. clear E.
    induction operationIds as [|id ids IH]; [reflexivity|].
    rewrite omap_cons, filter_cons.
    destruct (buildOperationMap (spec_operations specData) !! id)
      as [op|] eqn:Hop.
    + pose proof (buildOperationMap_lookup_Some _ _ _ Hop) as [_ Hid].
      assert (Hin : id ∈ map op_id (spec_operations specData)).
      { apply buildOperationMap_lookup_is_Some. now rewrite Hop. }
      destruct (decide _) as [_|N]; [|contradiction].
      cbn [map]. now rewrite Hid, IH.
    + destruct (decide _) as [Hin|_]; [|exact IH].
      apply buildOperationMap_lookup_is_Some in Hin.
      rewrite Hop in Hin. now destruct Hin.
Qed.

(** X5.  For such a spec, and whether the map is cached or not,
    [hasOperation] is true exactly for the ids of its operations, and it
    leaves a spec that has the map cached. *)
Theorem hasOperation_iff (specData : SpecData) (operationId : string) :
  OpenRefAdapter.cacheFromOperations specData ->
  ((hasOperation specData operationId).1 = true
   <-> operationId ∈ map op_id (spec_operations specData))
  /\ spec_operationMap (hasOperation specData operationId).2
     = Some (buildOperationMap (spec_operations specData)).
Proof.
  intros [H|H]; unfold hasOperation, getOperationById; rewrite H;
    cbn [fst snd spec_operationMap spec_operations].
  - split; [|reflexivity].
    destruct (List.find _ _) as [op|] eqn:E.
    + split; [intros _|reflexivity].
      apply find_by_id_Some in E as [Hin <-].
      apply list_elem_of_fmap. now exists op.
    + apply find_by_id_None in E. split; [discriminate | contradiction].
  - split; [|exact H].
    destruct (_ !! operationId) as [op|] eqn:E.
    + split; [intros _|reflexivity].
      apply buildOperationMap_lookup_is_Some. now rewrite E.
    + split; [discriminate|]. intros Hin.
      apply buildOperationMap_lookup_is_Some in Hin.
      rewrite E in Hin. now destruct Hin.
Qed.

(** ** Operations by category *)

Lemma getOperationsForCategory_add (categorized : gmap string (list Operation))
    (category other : string) (operation : Operation) :
  getOperationsForCategory
    (addOperationToCategory categorized category operation) other
  = if decide (category = other)
    then getOperationsForCategory categorized category ++ [operation]
    else getOperationsForCategory categorized other.
Proof.
  unfold getOperationsForCategory, addOperationToCategory.
  destruct (categorized !! category) as [existing|] eqn:E;
    destruct (decide (category = other)) as [<-|Hne];
    rewrite ?lookup_insert_eq, ?lookup_insert_ne by exact Hne;
    rewrite ?E; reflexivity.
Qed.

(** X6.  After operations have been added to categories one by one,
    starting from the empty map, [getOperationsForCategory] returns for
    every category the operations that were added to it, in the order they
    were added, and the empty list for a category nothing was added to. *)
Theorem categorized_operations_in_order
    (additions : list (string * Operation)) (category : string) :
  getOperationsForCategory
    (foldl (fun categorized entry =>
              addOperationToCategory categorized entry.1 entry.2)
       createCategorizedOperations additions) category
  = map snd (filter (fun entry => entry.1 = category) additions).
Proof.
  induction additions as [|[c op] l IH] using rev_ind; [reflexivity|].
  rewrite foldl_app. cbn [foldl fst snd].
  rewrite getOperationsForCategory_add, filter_app, map_app, filter_cons.
  rewrite filter_nil. cbn [fst].
  destruct (decide (c = category)) as [->|Hne].
  - now rewrite IH.
  - rewrite IH. cbn [map]. now rewrite app_nil_r.
Qed.

(** ** The trees of the OpenRef adapter *)

(** X7.  [inferLanguage] always answers with one of its seven labels.  Code
    that contains ["let "] is labelled javascript, so that the second
    alternative of the swift test is never the one that decides: swift is
    inferred only for code that contains ["func "]. *)
Theorem inferLanguage_labels (code : string) :
  inferLanguage code
    ∈ ["javascript"; "swift"; "python"; "kotlin"; "csharp"; "dart"; "code"]
  /\ (Js.includes code "let " = true -> inferLanguage code = "javascript")
  /\ (inferLanguage code = "swift" -> Js.includes code "func " = true).
Proof.
  unfold inferLanguage. split_and!.
  - repeat case_match; apply list_elem_of_In; cbn [In]; auto 10.
  - intros ->. now rewrite orb_true_r.
  - destruct (Js.includes code "let ").
    + rewrite orb_true_r. cbn [orb]. discriminate.
    + destruct (Js.includes code "func "); [reflexivity|].
      cbn [orb andb]. repeat case_match; discriminate.
Qed.

Lemma rootFree_convertExample (example : Example) :
  rootFree (convertExample example) = true.
Proof. reflexivity. Qed.

Lemma rootFree_convertOperation (operation : Operation) :
  rootFree (convertOperation operation) = true.
Proof.
  unfold convertOperation.
  cbn [createDocNode rootFree isRoot node_type node_children opt_children
         default from_option id DocNodeType_eqb negb andb].
  induction (op_examples operation) as [|ex l IH]; [reflexivity|].
  cbn [map forallb]. now rewrite rootFree_convertExample, IH.
Qed.

Lemma forallb_map_true {A B : Type} (f : A -> B) (p : B -> bool)
    (l : list A) :
  (forall x, p (f x) = true) -> forallb p (map f l) = true.
Proof.
  intros H. induction l as [|x l IH]; [reflexivity|].
  cbn [map forallb]. now rewrite H, IH.
Qed.

(** The groups of a categorised conversion. *)
Lemma convertWithCategories_shape (specData : SpecData)
    (categoryMap : list (string * list string)) :
  Forall (fun group =>
            node_type group = CATEGORY
            /\ node_children group <> []
            /\ Forall (fun entry => node_type entry = OPERATION)
                 (node_children group)
            /\ rootFree group = true)
    (convertWithCategories specData categoryMap).
Proof.
  rewrite convertWithCategories_omap.
  induction categoryMap as [|[name ids] l IH]; [constructor|].
  rewrite omap_cons. cbn [fst snd].
  destruct (collectOperations (operationMap specData) ids) as [|op ops];
    [exact IH|].
  constructor; [|exact IH].
  cbn [createDocNode node_type node_children opt_children default
         from_option id].
  split_and!.
  - reflexivity.
  - discriminate.
  - generalize (op :: ops). intros l'.
    induction l' as [|x xs IHx]; constructor; [reflexivity | exact IHx].
  - cbn [rootFree isRoot node_type node_children DocNodeType_eqb negb andb].
    apply forallb_map_true, rootFree_convertOperation.
Qed.

(** X8.  Whatever the spec and the category map, the tree of
    [openRefToDocNode] has a top node of kind ROOT and no other node of
    kind ROOT; its children are either all groups with at least one
    operation each (a category map with at least one entry was given) or
    the operations of the spec, one each and in their order. *)
Theorem openRefToDocNode_shape (specData : SpecData)
    (categoryMap : option (list (string * list string))) :
  let tree := openRefToDocNode specData categoryMap in
  node_type tree = ROOT
  /\ rootOnlyOnTop tree = true
  /\ match categoryMap with
     | Some (entry :: entries) =>
         Forall (fun group =>
                   node_type group = CATEGORY
                   /\ node_children group <> []
                   /\ Forall (fun entry => node_type entry = OPERATION)
                        (node_children group))
           (node_children tree)
     | _ =>
         node_children tree
         = map convertOperation (spec_operations specData)
     end.
Proof.
  cbn zeta. split; [reflexivity|].
  unfold rootOnlyOnTop, openRefToDocNode. cbn [node_children].
  destruct categoryMap as [[|entry entries]|].
  - split; [|reflexivity].
    apply forallb_map_true, rootFree_convertOperation.
  - pose proof (convertWithCategories_shape specData (entry :: entries)) as H.
    split.
    + apply forallb_forall. intros x Hx. apply list_elem_of_In in Hx.
      rewrite Forall_forall in H. now apply H.
    + eapply Forall_impl; [exact H|]. intros g (H1 & H2 & H3 & _). auto.
  - split; [|reflexivity].
    apply forallb_map_true, rootFree_convertOperation.
Qed.

(** X9.  Categories are converted independently of each other: the groups
    of a category map are the groups of its first part followed by the
    groups of the rest. *)
Theorem convertWithCategories_app (specData : SpecData)
    (first rest : list (string * list string)) :
  convertWithCategories specData (first ++ rest)
  = convertWithCategories specData first
    ++ convertWithCategories specData rest.
Proof. now rewrite !convertWithCategories_omap, omap_app. Qed.

Lemma numberString_two (a b : nat) :
  numberString [a; b] = pretty a +:+ "." +:+ pretty b.
Proof. reflexivity. Qed.

Lemma numberString_one (a : nat) : numberString [a] = pretty a.
Proof. reflexivity. Qed.

(** X10.  The text of a spec converted without categories is, operation
    after operation in source order, the line [## i. <title>] of operation
    number [i], its description, its content blocks and then, example after
    example in source order, the line [### i.j. <name>] of its example
    number [j], the description of the example and its content blocks. *)
Theorem openRef_headings_follow_source_order (specData : SpecData) :
  formatNode (openRefToDocNode specData None) []
  = Js.join ""
      (imap (fun i operation =>
               "## " +:+ pretty (S i) +:+ ". " +:+ op_title operation
                 +:+ DOUBLE_NEWLINE
                 +:+ (if Js.nonEmpty (op_description operation)
                      then op_description operation +:+ DOUBLE_NEWLINE
                      else "")
                 +:+ Js.join ""
                       (map formatContent
                          (node_content (convertOperation operation)))
                 +:+ Js.join ""
                       (imap (fun j example =>
                                "### " +:+ pretty (S i) +:+ "."
                                  +:+ pretty (S j) +:+ ". "
                                  +:+ ex_name example +:+ DOUBLE_NEWLINE
                                  +:+ (if Js.nonEmpty (ex_description example)
                                       then ex_description example
                                              +:+ DOUBLE_NEWLINE
                                       else "")
                                  +:+ Js.join ""
                                        (map formatContent
                                           (node_content
                                              (convertExample example))))
                          (op_examples operation)))
         (spec_operations specData)).
Proof.
  rewrite formatNode_ROOT by reflexivity.
  cbn [openRefToDocNode node_children]. unfold childrenText at 1.
  change (map convertOperation (spec_operations specData))
    with (convertOperation <$> spec_operations specData).
  rewrite imap_fmap. f_equal. apply imap_ext. intros i operation _.
  cbn [compose app].
  destruct (convertOperation_fields operation) as (Hty & Ht & Hd & _ & Hch).
  rewrite formatNode_other by (rewrite Hty; discriminate).
  unfold headingLine, getHeading. rewrite numberString_one, Ht, Hd, Hch.
  cbn [length Nat.add Nat.min Js.repeat].
  assert (E : childrenText [S i] (map convertExample (op_examples operation))
              = imap (fun j example =>
                        "### " +:+ pretty (S i) +:+ "." +:+ pretty (S j)
                          +:+ ". " +:+ ex_name example +:+ DOUBLE_NEWLINE
                          +:+ (if Js.nonEmpty (ex_description example)
                               then ex_description example +:+ DOUBLE_NEWLINE
                               else "")
                          +:+ Js.join ""
                                (map formatContent
                                   (node_content (convertExample example))))
                  (op_examples operation)).
  { unfold childrenText.
    change (map convertExample (op_examples operation))
      with (convertExample <$> op_examples operation).
    rewrite imap_fmap. apply imap_ext. intros j example _.
    cbn [compose app].
    destruct (convertExample_fields example) as (Hty2 & Ht2 & Hd2 & Hch2).
    rewrite formatNode_other by (rewrite Hty2; discriminate).
    unfold headingLine, getHeading. rewrite numberString_two, Ht2, Hd2, Hch2.
    cbn [length Nat.add Nat.min Js.repeat childrenText imap].
    rewrite join_nil. now str_norm. }
  rewrite E. now str_norm.
Qed.


(** ** Paths, extensions and file names *)

Import Text MarkdownDocuments.

Lemma split_not_nil (sep : Ascii.ascii) (s : string) : split sep s <> [].
Proof.
  induction s as [|c s IH]; cbn [split]; [discriminate|].
  destruct (Ascii.eqb c sep); [discriminate|].
  now destruct (split sep s).
Qed.

(** Splitting at a separator splits the text before and after it. *)
Lemma split_app (sep : Ascii.ascii) (a b : string) :
  split sep (a +:+ String sep b) = split sep a ++ split sep b.
Proof.
  induction a as [|c a IH].
  - rewrite append_empty_l. cbn [split app]. now rewrite Ascii.eqb_refl.
  - rewrite append_cons. cbn [split]. rewrite IH.
    destruct (Ascii.eqb c sep); [reflexivity|].
    pose proof (split_not_nil sep a) as Hne.
    destruct (split sep a) as [|x xs]; [congruence | reflexivity].
Qed.

Lemma split_without (sep : Ascii.ascii) (s : string) :
  contains sep s = false -> split sep s = [s].
Proof.
  induction s as [|c s IH]; [reflexivity|]. cbn [contains split].
  intros [H1 H2]%orb_false_iff. rewrite H1, (IH H2). reflexivity.
Qed.

Lemma lastPart_app (l k : list string) :
  k <> [] -> lastPart (l ++ k) = lastPart k.
Proof.
  intros Hk. unfold lastPart. induction l as [|x l IH]; [reflexivity|].
  cbn [app List.last]. rewrite IH.
  destruct (l ++ k) as [|y r] eqn:E; [|reflexivity].
  apply app_eq_nil in E as [_ E]. congruence.
Qed.

Lemma lastPart_split_app (sep : Ascii.ascii) (a b : string) :
  lastPart (split sep (a +:+ String sep b)) = lastPart (split sep b).
Proof. rewrite split_app. apply lastPart_app, split_not_nil. Qed.

Lemma split_app_length (sep : Ascii.ascii) (a b : string) :
  (1 <? length (split sep (a +:+ String sep b)))%nat = true.
Proof.
  rewrite split_app, length_app.
  pose proof (split_not_nil sep a). pose proof (split_not_nil sep b).
  destruct (split sep a), (split sep b); try congruence.
  apply Nat.ltb_lt. cbn [length]. lia.
Qed.

(** X11.  The identifier of a Markdown document and the title it falls
    back to when no level-1 heading is found are taken from the last
    segment of the path: the directories in front of the file name do not
    matter, so that two documents of the same name in different
    directories get the same identifier. *)
Theorem id_and_title_from_file_name (toLowerCase hyphenate : string -> string)
    (directory name : string) (tokens : list MarkdownParser.Token) :
  extractIdFromPath toLowerCase hyphenate
    (directory +:+ String slash name)
  = extractIdFromPath toLowerCase hyphenate name
  /\ extractTitle tokens (directory +:+ String slash name)
     = extractTitle tokens name.
Proof.
  split.
  - unfold extractIdFromPath. now rewrite lastPart_split_app.
  - induction tokens as [|token rest IH]; cbn [extractTitle].
    + now rewrite lastPart_split_app.
    + destruct token; try exact IH.
      destruct (depth =? 1)%Z; [reflexivity | exact IH].
Qed.

(** ** The trees of the Markdown adapter *)

Import MarkdownParser MarkdownAdapter.

(** Induction over a section tree, the property being known for all child
    sections. *)
Lemma MarkdownSection_children_ind (P : MarkdownSection -> Prop) :
  (forall section, Forall P (sec_children section) -> P section) ->
  forall section, P section.
Proof.
  intros H. fix IH 1. intros [l t i c ch]. apply H. cbn [sec_children].
  induction ch as [|x xs IHxs]; constructor; [apply IH | exact IHxs].
Qed.

Lemma convertSection_fields (section : MarkdownSection) (flag : bool) :
  node_id (convertSection section flag) = sec_id section
  /\ node_title (convertSection section flag) = sec_title section
  /\ node_description (convertSection section flag) = ""
  /\ node_content (convertSection section flag)
     = map convertContent (sec_content section)
  /\ node_children (convertSection section flag)
     = map (fun child => convertSection child flag) (sec_children section).
Proof. destruct section. repeat split. Qed.

Lemma convertSection_type (section : MarkdownSection) (flag : bool) :
  node_type (convertSection section flag) <> ROOT
  /\ (flag = false -> node_type (convertSection section flag) <> CATEGORY).
Proof.
  destruct section as [level t i c ch].
  cbn [convertSection createDocNode node_type sec_level].
  destruct (level =? 2)%Z, flag, (level =? 3)%Z, (4 <=? level)%Z;
    cbn [andb]; split; congruence.
Qed.

Lemma convertSection_preorder (section : MarkdownSection) (flag : bool) :
  map (fun node => (node_id node, node_title node,
                    length (node_content node)))
    (preorder (convertSection section flag))
  = map (fun s => (sec_id s, sec_title s, length (sec_content s)))
      (sections section)
  /\ Forall (fun node => node_type node <> ROOT)
       (preorder (convertSection section flag))
  /\ (flag = false ->
      Forall (fun node => node_type node <> CATEGORY)
        (preorder (convertSection section flag))).
Proof.
  induction section as [section IH] using MarkdownSection_children_ind.
  destruct (convertSection_fields section flag) as (Hid & Ht & _ & Hc & Hch).
  destruct (convertSection_type section flag) as [Hr Hcat].
  assert (E : preorder (convertSection section flag)
    = convertSection section flag
        :: flat_map (fun child => preorder (convertSection child flag))
             (sec_children section)).
  { destruct (convertSection section flag) as [ty i t d c ch m].
    cbn [preorder node_children] in *. rewrite Hch. f_equal.
    clear. induction (sec_children section) as [|x xs IHx]; [reflexivity|].
    cbn [map flat_map]. now rewrite IHx. }
  rewrite E. clear E.
  assert (S : sections section
              = section :: flat_map sections (sec_children section))
    by now destruct section.
  rewrite S. clear S. cbn [map]. rewrite Hid, Ht, Hc, length_map.
  clear Hid Ht Hc Hch. revert IH. generalize (sec_children section).
  intros l IH. split_and!.
  - f_equal. induction IH as [|x xs Hx Hxs IHxs]; [reflexivity|].
    cbn [flat_map]. rewrite !map_app. destruct Hx as (-> & _).
    now rewrite IHxs.
  - constructor; [exact Hr|].
    induction IH as [|x xs Hx Hxs IHxs]; [constructor|].
    cbn [flat_map]. apply Forall_app. split; [apply Hx | exact IHxs].
  - intros Hflag. constructor; [now apply Hcat|].
    induction IH as [|x xs Hx Hxs IHxs]; [constructor|].
    cbn [flat_map]. apply Forall_app. split; [now apply Hx | exact IHxs].
Qed.

(** X12.  Converting a section tree keeps its shape: a list of child
    positions leads to a node of the result exactly when it leads to a
    section of the tree, and that node carries the identifier and the title
    of that section, no description, the converted content items of the
    section in order, the level of the section as its only metadata, and
    as many children as the section has; it never has kind ROOT, and it has
    kind CATEGORY only when level-2 headings are mapped to categories. *)
Theorem convertSection_keeps_shape (section : MarkdownSection)
    (mapH2ToCategory : bool) (path : list nat) :
  match sectionAt section path with
  | Some s =>
      exists node,
        nodeAt (convertSection section mapH2ToCategory) path = Some node
        /\ node_id node = sec_id s
        /\ node_title node = sec_title s
        /\ node_description node = ""
        /\ node_content node = map convertContent (sec_content s)
        /\ node_metadata node = {["level" := Js.VNumber (sec_level s)]}
        /\ length (node_children node) = length (sec_children s)
        /\ node_type node <> ROOT
        /\ (mapH2ToCategory = false -> node_type node <> CATEGORY)
  | None => nodeAt (convertSection section mapH2ToCategory) path = None
  end.
Proof.
  revert section. induction path as [|[|i] rest IH]; intros section.
  - cbn [sectionAt nodeAt].
    exists (convertSection section mapH2ToCategory).
    destruct (convertSection_fields section mapH2ToCategory)
      as (Hi & Ht & Hd & Hc & Hch).
    destruct (convertSection_type section mapH2ToCategory) as (Hr & Hcat).
    split_and!; try assumption; try reflexivity.
    + now destruct section.
    + now rewrite Hch, length_map.
  - reflexivity.
  - cbn [sectionAt nodeAt].
    destruct (convertSection_fields section mapH2ToCategory)
      as (_ & _ & _ & _ & ->).
    change (map (fun child => convertSection child mapH2ToCategory)
              (sec_children section))
      with ((fun child => convertSection child mapH2ToCategory)
              <$> sec_children section).
    rewrite list_lookup_fmap.
    destruct (sec_children section !! i) as [child|]; [|reflexivity].
    apply IH.
Qed.

Lemma rootFree_preorder (node : DocNode) :
  Forall (fun n => node_type n <> ROOT) (preorder node) ->
  rootFree node = true.
Proof.
  induction node as [node IH] using DocNode_children_ind.
  destruct node as [ty i t d c ch m].
  cbn [preorder node_children rootFree isRoot node_type] in *.
  intros H. apply Forall_cons in H as [Hty Hrest]. cbn [node_type] in Hty.
  apply andb_true_iff. split.
  - destruct ty; try reflexivity. congruence.
  - induction IH as [|x xs Hx Hxs IHxs]; [reflexivity|].
    cbn [flat_map] in Hrest. apply Forall_app in Hrest as [H1 H2].
    cbn [forallb]. rewrite (Hx H1). now apply IHxs.
Qed.

Lemma rootFree_convertSection (section : MarkdownSection) (flag : bool) :
  rootFree (convertSection section flag) = true.
Proof.
  apply rootFree_preorder.
  apply (convertSection_preorder section flag).
Qed.

Lemma convertSection_CATEGORY (section : MarkdownSection) (flag : bool) :
  node_type (convertSection section flag) = CATEGORY
  <-> sec_level section = 2%Z /\ flag = true.
Proof.
  destruct section as [level t i c ch].
  cbn [convertSection createDocNode node_type sec_level].
  destruct (Z.eqb_spec level 2) as [E|E], flag; cbn [andb].
  - tauto.
  - subst level. cbn. split; [discriminate | intros [_ H]; discriminate].
  - destruct (level =? 3)%Z, (4 <=? level)%Z;
      (split; [discriminate | intros [H _]; contradiction]).
  - destruct (level =? 3)%Z, (4 <=? level)%Z;
      (split; [discriminate | intros [H _]; contradiction]).
Qed.

Section MarkdownTrees.
Variable toLowerCase : string -> string.
Variable hyphenateSpaces : string -> string.

Lemma markdownToDocNode_fields (doc : MarkdownDocument)
    (documentType : option DocNodeType) (flag : option bool) :
  let tree :=
    markdownToDocNode toLowerCase hyphenateSpaces doc documentType flag in
  node_type tree = default SECTION documentType
  /\ node_title tree = doc_title doc
  /\ node_description tree = ""
  /\ node_content tree = []
  /\ node_children tree
     = map (fun section => convertSection section (default false flag))
         (doc_sections doc).
Proof. repeat split. Qed.

Lemma rootOnlyOnTop_markdownToDocNode (doc : MarkdownDocument)
    (documentType : option DocNodeType) (flag : option bool) :
  rootOnlyOnTop
    (markdownToDocNode toLowerCase hyphenateSpaces doc documentType flag)
  = true.
Proof.
  unfold rootOnlyOnTop.
  destruct (markdownToDocNode_fields doc documentType flag)
    as (_ & _ & _ & _ & ->).
  apply forallb_map_true. intros s. apply rootFree_convertSection.
Qed.

(** The group writes asked for the tree of one Markdown document. *)
Lemma markdownToDocNode_generateModularDocs (doc : MarkdownDocument)
    (documentType : option DocNodeType) (mapH2ToCategory : option bool)
    (options : FormatterOptions) :
  let tree :=
    markdownToDocNode toLowerCase hyphenateSpaces doc documentType
      mapH2ToCategory in
  generateModularDocs tree options
     = map (fun section =>
              WriteFile
                (outputDir options +:+ "/"
                   +:+ Js.strOr (filenamePrefix options) "documentation"
                   +:+ "-" +:+ sec_id section +:+ "-llms.txt")
                (generateCategoryHeader tree options
                   (convertSection section true)
                   +:+ formatNode (convertSection section true) []))
         (if default false mapH2ToCategory
          then filter (fun section => sec_level section = 2%Z)
                 (doc_sections doc)
          else []).
Proof.
  cbn zeta.
  rewrite generateModularDocs_files.
  destruct (markdownToDocNode_fields doc documentType mapH2ToCategory)
    as (_ & _ & _ & _ & ->).
  set (tree := markdownToDocNode _ _ _ _ _). clearbody tree.
  induction (doc_sections doc) as [|s l IH].
  - now destruct (default false mapH2ToCategory).
  - cbn [map]. rewrite filter_cons.
    destruct (default false mapH2ToCategory) eqn:Hflag.
    + rewrite filter_cons.
      destruct (decide (node_type (convertSection s true) = CATEGORY))
        as [E|E].
      * apply convertSection_CATEGORY in E as [E _].
        destruct (decide (sec_level s = 2%Z)); [|contradiction].
        cbn [map]. rewrite IH. f_equal.
        destruct (convertSection_fields s true) as (-> & _). reflexivity.
      * destruct (decide (sec_level s = 2%Z)) as [L|L]; [|exact IH].
        exfalso. apply E. now apply convertSection_CATEGORY.
    + destruct (decide (node_type (convertSection s false) = CATEGORY))
        as [E|E]; [|exact IH].
      apply convertSection_CATEGORY in E as [_ E]. discriminate.
Qed.

(** X13.  The tree of one Markdown document has the requested kind on top
    (SECTION when none is requested) and no node of kind ROOT below.  A
    render of it in which the file system rejects no operation makes the
    output directory, writes the full document and then, when level-2
    headings are mapped to categories, one group file for each top-level
    section of level 2, in order: a level-2 section below another section
    gets no file.  When they are not mapped, no group file is written. *)
Theorem markdownToDocNode_groups {World : Type}
    (perform : World -> Effect -> option World) (state : World)
    (doc : MarkdownDocument)
    (documentType : option DocNodeType) (mapH2ToCategory : option bool)
    (options : FormatterOptions) (date : string) :
  let tree :=
    markdownToDocNode toLowerCase hyphenateSpaces doc documentType
      mapH2ToCategory in
  let run := formatDocNode perform state tree options date in
  node_type tree = default SECTION documentType
  /\ rootOnlyOnTop tree = true
  /\ (rejected run = None ->
      performed run
      = Mkdir (outputDir options)
          :: generateFullDoc tree options date
          ++ map (fun section =>
                    WriteFile
                      (outputDir options +:+ "/"
                         +:+ Js.strOr (filenamePrefix options)
                               "documentation"
                         +:+ "-" +:+ sec_id section +:+ "-llms.txt")
                      (generateCategoryHeader tree options
                         (convertSection section true)
                         +:+ formatNode (convertSection section true) []))
               (if default false mapH2ToCategory
                then filter (fun section => sec_level section = 2%Z)
                       (doc_sections doc)
                else [])).
Proof.
  cbn zeta. split; [reflexivity|].
  split; [apply rootOnlyOnTop_markdownToDocNode|].
  intros Hnone. unfold formatDocNode.
  rewrite (awaitAll_completed _ _ _ Hnone). unfold generateAll.
  cbn [app]. f_equal. f_equal.
  apply markdownToDocNode_generateModularDocs.
Qed.

Lemma mergeMarkdownDocuments_children (docs : list MarkdownDocument)
    (rootTitle : string) :
  node_children
    (mergeMarkdownDocuments toLowerCase hyphenateSpaces docs rootTitle)
  = map (fun doc =>
           markdownToDocNode toLowerCase hyphenateSpaces doc (Some SECTION)
             (Some false)) docs.
Proof. reflexivity. Qed.

Lemma rootFree_markdownToDocNode_SECTION (doc : MarkdownDocument)
    (flag : option bool) :
  rootFree
    (markdownToDocNode toLowerCase hyphenateSpaces doc (Some SECTION) flag)
  = true.
Proof.
  pose proof (rootOnlyOnTop_markdownToDocNode doc (Some SECTION) flag) as H.
  unfold rootOnlyOnTop in H.
  destruct (markdownToDocNode _ _ doc (Some SECTION) flag) as [ty i t d c ch m]
    eqn:E.
  assert (Hty : ty = SECTION).
  { change ty with (node_type (mkDocNode ty i t d c ch m)). now rewrite <- E. }
  subst ty. cbn [rootFree isRoot node_type node_children] in *.
  now rewrite H.
Qed.

(** X14.  The tree that merges several Markdown documents has a ROOT on
    top and no ROOT below it; its children are SECTION nodes, one per
    document and in the order of the documents, titled by the documents,
    and its metadata records how many there are.  Rendering it writes no
    group file, whatever headings the documents have, and heads document
    number [i] with [## i. <title>]. *)
Theorem mergeMarkdownDocuments_shape (docs : list MarkdownDocument)
    (rootTitle : string) (options : FormatterOptions) :
  let tree :=
    mergeMarkdownDocuments toLowerCase hyphenateSpaces docs rootTitle in
  node_type tree = ROOT
  /\ rootOnlyOnTop tree = true
  /\ map (fun node => (node_type node, node_title node)) (node_children tree)
     = map (fun doc => (SECTION, doc_title doc)) docs
  /\ node_metadata tree !! "count"
     = Some (Js.VNumber (Z.of_nat (length docs)))
  /\ generateModularDocs tree options = []
  /\ forall i doc,
       docs !! i = Some doc ->
       exists before body after,
         formatNode tree []
         = before
             +:+ ("## " +:+ pretty (S i) +:+ ". " +:+ doc_title doc
                    +:+ DOUBLE_NEWLINE +:+ body)
             +:+ after.
Proof.
  cbn zeta.
  set (tree := mergeMarkdownDocuments toLowerCase hyphenateSpaces docs
                 rootTitle).
  assert (Hwf : rootOnlyOnTop tree = true).
  { unfold rootOnlyOnTop. unfold tree.
    rewrite mergeMarkdownDocuments_children.
    apply forallb_map_true. intros doc.
    apply rootFree_markdownToDocNode_SECTION. }
  split_and!.
  - reflexivity.
  - exact Hwf.
  - unfold tree. rewrite mergeMarkdownDocuments_children.
    rewrite map_map. reflexivity.
  - reflexivity.
  - rewrite generateModularDocs_files.
    assert (F : filter (fun child => node_type child = CATEGORY)
                  (node_children tree) = []).
    { unfold tree. rewrite mergeMarkdownDocuments_children.
      clear. induction docs as [|doc l IH]; [reflexivity|].
      cbn [map]. rewrite filter_cons.
      destruct (decide _) as [E|E]; [discriminate E | exact IH]. }
    now rewrite F.
  - intros i doc Hdoc.
    set (child := markdownToDocNode toLowerCase hyphenateSpaces doc
                    (Some SECTION) (Some false)).
    assert (Hat : nodeAt tree [S i] = Some child).
    { cbn [nodeAt]. unfold tree. rewrite mergeMarkdownDocuments_children.
      change (map ?f docs) with (f <$> docs).
      now rewrite list_lookup_fmap, Hdoc. }
    destruct (formatNode_descendant [S i] tree [] child Hwf
                ltac:(discriminate) Hat) as (before & after & E).
    replace ((if isRoot tree then [] else []) ++ [S i]) with [S i] in E
      by reflexivity.
    exists before,
      ((if Js.nonEmpty (node_description child)
        then node_description child +:+ DOUBLE_NEWLINE else "")
       +:+ Js.join "" (map formatContent (node_content child))
       +:+ Js.join "" (childrenText [S i] (node_children child))),
      after.
    rewrite E. f_equal. f_equal.
    rewrite (formatNode_other child [S i]) by discriminate.
    unfold headingLine, getHeading. rewrite numberString_one.
    cbn [length Nat.add Nat.min Js.repeat].
    destruct (markdownToDocNode_fields doc (Some SECTION) (Some false))
      as (_ & Ht & _). fold child in Ht. rewrite Ht. now str_norm.
Qed.

End MarkdownTrees.

(** ** Group files and node counts of OpenRef trees *)

Lemma filter_all {A : Type} (P : A -> Prop) `{forall x, Decision (P x)}
    (l : list A) :
  Forall P l -> filter P l = l.
Proof.
  induction 1 as [|x l Hx Hl IH]; [reflexivity|].
  rewrite filter_cons. destruct (decide (P x)); [|contradiction].
  now rewrite IH.
Qed.

Lemma filter_none {A : Type} (P : A -> Prop) `{forall x, Decision (P x)}
    (l : list A) :
  Forall (fun x => ~ P x) l -> filter P l = [].
Proof.
  induction 1 as [|x l Hx Hl IH]; [reflexivity|].
  rewrite filter_cons. now destruct (decide (P x)).
Qed.

(** The ids of the groups of a categorised conversion, and the group
    writes asked for the trees of the two conversions. *)
Lemma openRef_generateModularDocs (specData : SpecData)
    (categoryMap : list (string * list string)) (options : FormatterOptions) :
  map node_id (convertWithCategories specData categoryMap)
  = map fst
      (filter (fun entry =>
                 0 < length (collectOperations (operationMap specData)
                               entry.2))
         categoryMap)
  /\ generateModularDocs (openRefToDocNode specData (Some categoryMap))
       options
     = map (fun group =>
              WriteFile
                (outputDir options +:+ "/"
                   +:+ Js.strOr (filenamePrefix options) "documentation"
                   +:+ "-" +:+ node_id group +:+ "-llms.txt")
                (generateCategoryHeader
                   (openRefToDocNode specData (Some categoryMap)) options
                   group
                   +:+ formatNode group []))
         (convertWithCategories specData categoryMap)
  /\ generateModularDocs (openRefToDocNode specData None) options = [].
Proof.
  assert (Hops : filter (fun child => node_type child = CATEGORY)
                   (map convertOperation (spec_operations specData)) = []).
  { apply filter_none. induction (spec_operations specData) as [|op l IH];
      constructor; [discriminate | exact IH]. }
  split_and!.
  - rewrite convertWithCategories_omap.
    induction categoryMap as [|[name ids] l IH]; [reflexivity|].
    rewrite omap_cons, filter_cons. cbn [fst snd].
    destruct (collectOperations (operationMap specData) ids) as [|op ops].
    + destruct (decide _) as [D|D]; [cbn in D; lia | exact IH].
    + destruct (decide _) as [D|D]; [|cbn in D; lia].
      rewrite !map_cons, IH. reflexivity.
  - rewrite generateModularDocs_files. f_equal.
    destruct categoryMap as [|entry entries].
    + exact Hops.
    + cbn [openRefToDocNode node_children].
      apply filter_all.
      eapply Forall_impl; [apply convertWithCategories_shape|].
      intros g (Hg & _). exact Hg.
  - rewrite generateModularDocs_files.
    cbn [openRefToDocNode node_children]. now rewrite Hops.
Qed.

(** X15.  The groups of a categorised conversion carry the names of the
    categories that resolve to at least one operation, in the order of the
    category map.  A render of the tree in which the file system rejects
    no operation makes the output directory, writes the full document and
    then one group file for each of these groups, in order; such a render
    of the tree of a conversion without category map writes the full
    document only. *)
Theorem openRef_group_files {World : Type}
    (perform : World -> Effect -> option World) (state : World)
    (specData : SpecData) (categoryMap : list (string * list string))
    (options : FormatterOptions) (date : string) :
  let tree := openRefToDocNode specData (Some categoryMap) in
  let flat := openRefToDocNode specData None in
  map node_id (convertWithCategories specData categoryMap)
  = map fst
      (filter (fun entry =>
                 0 < length (collectOperations (operationMap specData)
                               entry.2))
         categoryMap)
  /\ (rejected (formatDocNode perform state tree options date) = None ->
      performed (formatDocNode perform state tree options date)
      = Mkdir (outputDir options)
          :: generateFullDoc tree options date
          ++ map (fun group =>
                    WriteFile
                      (outputDir options +:+ "/"
                         +:+ Js.strOr (filenamePrefix options)
                               "documentation"
                         +:+ "-" +:+ node_id group +:+ "-llms.txt")
                      (generateCategoryHeader tree options group
                         +:+ formatNode group []))
               (convertWithCategories specData categoryMap))
  /\ (rejected (formatDocNode perform state flat options date) = None ->
      performed (formatDocNode perform state flat options date)
      = Mkdir (outputDir options) :: generateFullDoc flat options date).
Proof.
  cbn zeta.
  destruct (openRef_generateModularDocs specData categoryMap options)
    as (Hids & Hgroups & Hflat).
  split_and!.
  - exact Hids.
  - intros Hnone. unfold formatDocNode.
    rewrite (awaitAll_completed _ _ _ Hnone). unfold generateAll.
    cbn [app]. now rewrite Hgroups.
  - intros Hnone. unfold formatDocNode.
    rewrite (awaitAll_completed _ _ _ Hnone). unfold generateAll.
    cbn [app]. now rewrite Hflat, app_nil_r.
Qed.

Lemma countNodes_convertOperation (operation : Operation) :
  countNodes (convertOperation operation) = 1 + getExampleCount operation.
Proof.
  rewrite countNodes_children.
  destruct (convertOperation_fields operation) as (_ & _ & _ & _ & ->).
  unfold getExampleCount. f_equal.
  induction (op_examples operation) as [|ex l IH]; [reflexivity|].
  rewrite !map_cons. change (list_sum (?x :: ?r)) with (x + list_sum r).
  rewrite IH. reflexivity.
Qed.

(** X16.  The tree of a spec converted without categories has one node for
    the spec, one for each operation and one for each example. *)
Theorem countNodes_openRef (specData : SpecData) :
  countNodes (openRefToDocNode specData None)
  = 1 + length (spec_operations specData)
    + list_sum (map getExampleCount (spec_operations specData)).
Proof.
  rewrite countNodes_children. cbn [openRefToDocNode node_children].
  induction (spec_operations specData) as [|op l IH]; [reflexivity|].
  rewrite !map_cons.
  change (list_sum (?x :: ?r)) with (x + list_sum r).
  rewrite countNodes_convertOperation. cbn [length]. lia.
Qed.

(** ** From tokens to rendered blocks *)

Lemma strOr_text (a : option string) :
  Js.strOr (Some (Js.strOr a "text")) "text" = Js.strOr a "text".
Proof.
  unfold Js.strOr. destruct a as [l|]; [|reflexivity].
  destruct (Js.nonEmpty l) eqn:E; [now rewrite E | reflexivity].
Qed.

(** X17.  What the parser collects from a token is rendered as follows: the
    content of a code token as a fenced block tagged with the language of
    the token, or [text] when it has none, and the content of every other
    token, blockquotes included, as its text followed by a blank line.  The
    parser never produces image content, so that no block of a parsed
    document is rendered as DATA. *)
Theorem token_rendering (trim : string -> string) (token : Token)
    (content : MarkdownContent) :
  tokenToContent trim token = Some content ->
  mc_type content <> MdImage
  /\ formatContent (convertContent content)
     = match token with
       | Code text lang =>
           "```" +:+ Js.strOr lang "text" +:+ NEWLINE
             +:+ text +:+ NEWLINE +:+ "```" +:+ DOUBLE_NEWLINE
       | _ => mc_content content +:+ DOUBLE_NEWLINE
       end.
Proof.
  intros H. destruct token; cbn [tokenToContent] in H;
    try discriminate;
    try (destruct (Js.nonEmpty _); [|discriminate]);
    injection H as <-; (split; [discriminate|]);
    unfold convertContent, createContentBlock, formatContent;
    cbn [mc_type mc_content mc_language block_type block_content
           block_language];
    rewrite ?strOr_text; now str_norm.
Qed.

(** ** Number strings *)

Lemma pretty_N_char_not_dot (x : N) :
  Ascii.eqb (pretty_N_char x) dot = false.
Proof. unfold pretty_N_char. now repeat case_match. Qed.

Lemma pretty_N_go_no_dot (x : N) :
  forall s, contains dot s = false ->
            contains dot (pretty_N_go x s) = false.
Proof.
  induction (N.lt_wf_0 x) as [x _ IH]. intros s Hs.
  assert (x = 0 \/ 0 < x)%N as [->|Hpos] by lia.
  - now rewrite pretty_N_go_0.
  - rewrite pretty_N_go_step by exact Hpos. apply IH.
    + now apply N.div_lt.
    + cbn [contains]. now rewrite pretty_N_char_not_dot, Hs.
Qed.

Lemma pretty_N_go_length (x : N) :
  forall s, String.length s <= String.length (pretty_N_go x s).
Proof.
  induction (N.lt_wf_0 x) as [x _ IH]. intros s.
  assert (x = 0 \/ 0 < x)%N as [->|Hpos] by lia.
  - now rewrite pretty_N_go_0.
  - rewrite pretty_N_go_step by exact Hpos.
    etransitivity; [|apply IH; now apply N.div_lt]. cbn [String.length]. lia.
Qed.

(** The decimal form of a number has no dot and is not empty. *)
Lemma pretty_nat_plain (n : nat) :
  contains dot (pretty n) = false /\ pretty n <> "".
Proof.
  unfold pretty, pretty_nat, pretty, pretty_N.
  destruct (decide (N.of_nat n = 0%N)) as [E|E].
  - split; [reflexivity | discriminate].
  - split; [now apply pretty_N_go_no_dot|].
    rewrite pretty_N_go_step by lia. intros H.
    pose proof (pretty_N_go_length (N.of_nat n `div` 10)
                  (String (pretty_N_char (N.of_nat n `mod` 10)) "")) as L.
    rewrite H in L. cbn in L. lia.
Qed.

Lemma join_dot_cons (x y : string) (l : list string) :
  Js.join "." (x :: y :: l) = x +:+ String dot (Js.join "." (y :: l)).
Proof. reflexivity. Qed.

(** Joining pieces that have no dot with dots can be undone by splitting
    at the dots. *)
Lemma split_join_dot (pieces : list string) :
  pieces <> [] ->
  Forall (fun piece => contains dot piece = false) pieces ->
  split dot (Js.join "." pieces) = pieces.
Proof.
  intros Hne H. induction H as [|x l Hx Hl IH]; [congruence|].
  destruct l as [|y l'].
  - cbn [Js.join String.concat]. now apply split_without.
  - rewrite join_dot_cons.
    rewrite split_app, (split_without _ _ Hx), IH by discriminate.
    reflexivity.
Qed.

Lemma join_dot_empty (pieces : list string) :
  Forall (fun piece => piece <> "") pieces ->
  Js.join "." pieces = "" -> pieces = [].
Proof.
  intros H E. destruct H as [|x l Hx Hl]; [reflexivity|].
  exfalso. unfold Js.join in E. destruct l as [|y l'].
  - cbn in E. contradiction.
  - cbn [String.concat] in E. destruct x; [contradiction | discriminate E].
Qed.

(** X18.  Number lists are printed without ambiguity: two lists with the
    same number string are the same list. *)
Theorem numberString_inj (numbers1 numbers2 : list nat) :
  numberString numbers1 = numberString numbers2 -> numbers1 = numbers2.
Proof.
  unfold numberString. intros E.
  assert (Hplain : forall l : list nat,
    Forall (fun piece => contains dot piece = false) (map pretty l)
    /\ Forall (fun piece => piece <> "") (map pretty l)).
  { induction l as [|n l [IH1 IH2]]; [split; constructor|].
    destruct (pretty_nat_plain n). split; now constructor. }
  assert (M : map pretty numbers1 = map pretty numbers2).
  { destruct (Hplain numbers1) as [D1 N1], (Hplain numbers2) as [D2 N2].
    destruct (decide (map pretty numbers1 = [])) as [Z1|Z1].
    - rewrite Z1 in *. symmetry. apply join_dot_empty; [exact N2|].
      now rewrite <- E.
    - destruct (decide (map pretty numbers2 = [])) as [Z2|Z2].
      + rewrite Z2 in *. now apply join_dot_empty.
      + rewrite <- (split_join_dot _ Z1 D1), E. now apply split_join_dot. }
  clear E. revert numbers2 M.
  induction numbers1 as [|a l IH]; intros [|b k] M; try discriminate;
    [reflexivity|].
  cbn [map] in M. injection M as Hab Hlk.
  apply (inj pretty) in Hab. subst b. f_equal. now apply IH.
Qed.

(** ** The files on disk after a render *)

Lemma append_length (a b : string) :
  String.length (a +:+ b) = String.length a + String.length b.
Proof.
  induction a as [|c a IH]; [reflexivity|].
  rewrite append_cons. cbn [String.length]. now rewrite IH.
Qed.

Lemma append_inj_r (a b c : string) : a +:+ c = b +:+ c -> a = b.
Proof.
  revert b. induction a as [|x a IH]; intros [|y b] H.
  - reflexivity.
  - apply (f_equal String.length) in H.
    rewrite append_empty_l, append_length in H. cbn in H. lia.
  - apply (f_equal String.length) in H.
    rewrite append_empty_l, append_length in H. cbn in H. lia.
  - rewrite !append_cons in H. injection H as -> H. f_equal. now apply IH.
Qed.

Lemma append_inj_l (a b c : string) : a +:+ b = a +:+ c -> b = c.
Proof.
  induction a as [|x a IH]; [auto|].
  rewrite !append_cons. intros H. injection H as H. now apply IH.
Qed.

Lemma disk_app (files : gmap string string) (t1 t2 : list Effect) :
  disk files (t1 ++ t2) = disk (disk files t1) t2.
Proof. unfold disk. apply foldl_app. Qed.

Lemma disk_generateFullDoc (root : DocNode) (options : FormatterOptions)
    (date : string) (files : gmap string string) :
  disk files (generateFullDoc root options date)
  = <[fullDocPath options := fullDocContent root options date]> files.
Proof.
  unfold generateFullDoc, generateFullDocAbove.
  destruct (_ <? _)%N; [apply disk_writeFileStream | apply disk_writeFile].
Qed.

(** Buffered writes, one after the other: a path that none of them names
    keeps its file. *)
Lemma disk_writes_other {A : Type} (path content : A -> string)
    (l : list A) (p : string) :
  forall files,
    p ∉ map path l ->
    disk files (map (fun x => WriteFile (path x) (content x)) l) !! p
    = files !! p.
Proof.
  induction l as [|x l IH]; intros files Hp; [reflexivity|].
  cbn [map] in *. apply not_elem_of_cons in Hp as [Hne Hp].
  unfold disk. cbn [foldl applyEffect]. fold (disk (<[path x:=content x]> files)
    (map (fun x => WriteFile (path x) (content x)) l)).
  rewrite (IH _ Hp). now apply lookup_insert_ne.
Qed.

(** The path named by exactly one of the writes holds what was written. *)
Lemma disk_writes_unique {A : Type} (path content : A -> string)
    (l : list A) (x : A) :
  forall files,
    NoDup (map path l) -> x ∈ l ->
    disk files (map (fun x => WriteFile (path x) (content x)) l) !! path x
    = Some (content x).
Proof.
  induction l as [|y l IH]; intros files Hnd Hin; [inversion Hin|].
  cbn [map] in *. apply NoDup_cons in Hnd as [Hy Hnd].
  unfold disk. cbn [foldl applyEffect]. fold (disk (<[path y:=content y]> files)
    (map (fun x => WriteFile (path x) (content x)) l)).
  apply elem_of_cons in Hin as [->|Hin].
  - rewrite (disk_writes_other path content l _ _ Hy).
    apply lookup_insert_eq.
  - now apply IH.
Qed.

(** The files after all operations of a render have been accepted. *)
Lemma generateAll_on_disk (root : DocNode) (options : FormatterOptions)
    (date : string) (files : gmap string string) :
  let groups :=
    filter (fun child => node_type child = CATEGORY) (node_children root) in
  let pathOf id :=
    outputDir options +:+ "/"
      +:+ Js.strOr (filenamePrefix options) "documentation"
      +:+ "-" +:+ id +:+ "-llms.txt" in
  let final := disk files (generateAll root options date) in
  NoDup (map node_id groups) ->
  fullDocPath options = pathOf "full"
  /\ (forall group, group ∈ groups ->
        final !! pathOf (node_id group)
        = Some (generateCategoryHeader root options group
                  +:+ formatNode group []))
  /\ ("full" ∉ map node_id groups ->
      final !! fullDocPath options = Some (fullDocContent root options date))
  /\ (forall p, p <> fullDocPath options ->
        p ∉ map (fun group => pathOf (node_id group)) groups ->
        final !! p = files !! p).
Proof.
  cbn zeta. intros Hnd.
  set (groups := filter (fun child => node_type child = CATEGORY)
                   (node_children root)) in *.
  set (pathOf := fun id =>
    outputDir options +:+ "/"
      +:+ Js.strOr (filenamePrefix options) "documentation"
      +:+ "-" +:+ id +:+ "-llms.txt").
  assert (Hinj : forall a b, pathOf a = pathOf b -> a = b).
  { unfold pathOf. intros a b H.
    do 4 apply append_inj_l in H. now apply append_inj_r in H. }
  assert (Hfull : fullDocPath options = pathOf "full") by reflexivity.
  assert (Hpaths : NoDup (map (fun group => pathOf (node_id group)) groups)).
  { rewrite <- (map_map node_id pathOf).
    change (map pathOf (map node_id groups))
      with (pathOf <$> (map node_id groups)).
    apply NoDup_fmap_2; [|exact Hnd]. intros a b. apply Hinj. }
  assert (E : disk files (generateAll root options date)
    = disk (<[fullDocPath options := fullDocContent root options date]> files)
        (map (fun group =>
                WriteFile (pathOf (node_id group))
                  (generateCategoryHeader root options group
                     +:+ formatNode group [])) groups)).
  { unfold generateAll. rewrite !disk_app, disk_generateFullDoc.
    now rewrite generateModularDocs_files. }
  rewrite E. split_and!.
  - exact Hfull.
  - intros group Hin.
    apply (disk_writes_unique (fun g => pathOf (node_id g))
             (fun g => generateCategoryHeader root options g
                         +:+ formatNode g [])); assumption.
  - intros Hno.
    rewrite (disk_writes_other (fun g => pathOf (node_id g))).
    + apply lookup_insert_eq.
    + rewrite Hfull. intros Hin.
      apply list_elem_of_fmap in Hin as (g & Hg & Hin).
      apply Hinj in Hg. apply Hno. rewrite Hg.
      apply list_elem_of_fmap. now exists g.
  - intros p Hp Hnot.
    rewrite (disk_writes_other (fun g => pathOf (node_id g))) by exact Hnot.
    now apply lookup_insert_ne.
Qed.

Lemma awaitAll_files {World : Type}
    (perform : World -> Effect -> option World)
    (files : World -> gmap string string) (operations : list Effect) :
  (forall w e w', perform w e = Some w' ->
     files w' = applyEffect (files w) e) ->
  forall state,
    files (world (awaitAll perform state operations))
    = disk (files state) (performed (awaitAll perform state operations)).
Proof.
  intros Hflat. induction operations as [|operation rest IH]; intros state.
  - reflexivity.
  - cbn [awaitAll]. destruct (perform state operation) as [state'|] eqn:E.
    + cbn [world performed]. rewrite IH, (Hflat _ _ _ E). reflexivity.
    + reflexivity.
Qed.

(** X19.  The files a render leaves, when the file system rejects none of
    its operations, keeps the text of its files by path (an accepted
    operation changes the text at its path as [applyEffect] says and
    nothing else), and the groups of the tree have pairwise distinct
    identifiers: the file of every group holds the text of that group; the
    full document is at its path unless a group has the identifier [full],
    in which case the file of that group has taken its place; and no other
    file is touched. *)
Theorem rendered_files_on_disk {World : Type}
    (perform : World -> Effect -> option World)
    (files : World -> gmap string string) (state : World)
    (root : DocNode) (options : FormatterOptions) (date : string) :
  let run := formatDocNode perform state root options date in
  let groups :=
    filter (fun child => node_type child = CATEGORY) (node_children root) in
  let pathOf id :=
    outputDir options +:+ "/"
      +:+ Js.strOr (filenamePrefix options) "documentation"
      +:+ "-" +:+ id +:+ "-llms.txt" in
  let final := files (world run) in
  (forall w e w', perform w e = Some w' ->
     files w' = applyEffect (files w) e) ->
  rejected run = None ->
  NoDup (map node_id groups) ->
  fullDocPath options = pathOf "full"
  /\ (forall group, group ∈ groups ->
        final !! pathOf (node_id group)
        = Some (generateCategoryHeader root options group
                  +:+ formatNode group []))
  /\ ("full" ∉ map node_id groups ->
      final !! fullDocPath options = Some (fullDocContent root options date))
  /\ (forall p, p <> fullDocPath options ->
        p ∉ map (fun group => pathOf (node_id group)) groups ->
        final !! p = files state !! p).
Proof.
  cbn zeta. intros Hflat Hnone Hnd. unfold formatDocNode in *.
  rewrite (awaitAll_files perform files _ Hflat).
  rewrite (awaitAll_completed _ _ _ Hnone).
  exact (generateAll_on_disk root options date (files state) Hnd).
Qed.

(** ** Format detection *)

Import Detection.

Lemma detectorFileExtension_dot (base ext : string) :
  contains dot ext = false ->
  detectorFileExtension (base +:+ String dot ext) = ext.
Proof.
  intros H. unfold detectorFileExtension.
  rewrite split_app_length, lastPart_split_app, (split_without _ _ H).
  reflexivity.
Qed.

Lemma getFileExtension_dot (toLowerCase : string -> string)
    (base ext : string) :
  contains dot ext = false ->
  getFileExtension toLowerCase (base +:+ String dot ext) = toLowerCase ext.
Proof.
  intros H. unfold getFileExtension.
  rewrite split_app_length, lastPart_split_app, (split_without _ _ H).
  reflexivity.
Qed.

(** X20.  The extension of a path is what follows its last dot, with the
    case kept by the detector and lowered by the parsers; a path without a
    dot has the empty extension.  Directories are not looked at: what
    follows the last dot may contain slashes. *)
Theorem file_extension_after_last_dot (toLowerCase : string -> string) :
  (forall base ext,
     contains dot ext = false ->
     detectorFileExtension (base +:+ String dot ext) = ext
     /\ getFileExtension toLowerCase (base +:+ String dot ext)
        = toLowerCase ext)
  /\ (forall path,
        contains dot path = false ->
        detectorFileExtension path = ""
        /\ getFileExtension toLowerCase path = "").
Proof.
  split.
  - intros base ext H. split.
    + now apply detectorFileExtension_dot.
    + now apply getFileExtension_dot.
  - intros path H. unfold detectorFileExtension, getFileExtension.
    now rewrite (split_without _ _ H).
Qed.

Section DetectorProperties.
Variable toLowerCase : string -> string.

Lemma autoDetect_inl (parsers : list Parser) (path : string)
    (format : FormatType) :
  autoDetect toLowerCase parsers path = inl format ->
  exists parser,
    parser ∈ parsers /\ parser_format parser = format
    /\ parser_detect parser path = true.
Proof.
  unfold autoDetect.
  assert (Hsniff :
    match List.find (fun p => parser_detect p path) parsers with
    | Some parser => inl (parser_format parser)
    | None => inr (undetectable parsers path)
    end = inl format ->
    exists parser,
      parser ∈ parsers /\ parser_format parser = format
      /\ parser_detect parser path = true).
  { destruct (List.find _ parsers) as [p|] eqn:E; [|discriminate].
    intros [= <-]. apply find_some in E as [Hin Hd].
    exists p. rewrite list_elem_of_In. auto. }
  destruct (bool_decide _); [|exact Hsniff].
  destruct (getParserForFormat parsers _) as [p|] eqn:E; [|exact Hsniff].
  destruct (parser_detect p path) eqn:Hd; [|exact Hsniff].
  intros [= <-]. apply find_some in E as [Hin Hf].
  apply bool_decide_eq_true in Hf.
  exists p. rewrite list_elem_of_In. auto.
Qed.

Lemma autoDetect_inr (parsers : list Parser) (path message : string) :
  autoDetect toLowerCase parsers path = inr message <->
  Forall (fun p => parser_detect p path = false) parsers
  /\ message = undetectable parsers path.
Proof.
  unfold autoDetect.
  assert (Hsniff :
    match List.find (fun p => parser_detect p path) parsers with
    | Some parser => inl (parser_format parser)
    | None => inr (undetectable parsers path)
    end = inr message <->
    Forall (fun p => parser_detect p path = false) parsers
    /\ message = undetectable parsers path).
  { destruct (List.find _ parsers) as [p|] eqn:E.
    - split; [discriminate|]. intros [Hall _].
      apply find_some in E as [Hin Hd]. rewrite Forall_forall in Hall.
      apply list_elem_of_In in Hin. rewrite (Hall p Hin) in Hd. discriminate.
    - split.
      + intros [= <-]. split; [|reflexivity].
        apply Forall_forall. intros p Hp. apply list_elem_of_In in Hp.
        exact (find_none _ _ E p Hp).
      + intros [_ ->]. reflexivity. }
  destruct (bool_decide _); [|exact Hsniff].
  destruct (getParserForFormat parsers _) as [p|] eqn:E; [|exact Hsniff].
  destruct (parser_detect p path) eqn:Hd; [|exact Hsniff].
  split; [discriminate|]. intros [Hall _].
  apply find_some in E as [Hin _]. rewrite Forall_forall in Hall.
  apply list_elem_of_In in Hin. rewrite (Hall p Hin) in Hd. discriminate.
Qed.

(** X21.  What [detect] answers.  A hint other than [auto] is returned as
    it is, whatever the path and the parsers.  Otherwise a detected format
    is the format of a registered parser that accepts the path, and the
    detection fails exactly when no registered parser accepts the path, the
    message then naming the path and the formats of the registered
    parsers. *)
Theorem detect_answers (parsers : list Parser) (path : string)
    (hint : option FormatType) :
  (forall format, hint = Some format -> format <> AUTO ->
     detect toLowerCase parsers path hint = inl format)
  /\ (forall format,
        detect toLowerCase parsers path hint = inl format ->
        hint = Some format /\ format <> AUTO
        \/ exists parser,
             parser ∈ parsers /\ parser_format parser = format
             /\ parser_detect parser path = true)
  /\ (forall message,
        detect toLowerCase parsers path hint = inr message <->
        (hint = None \/ hint = Some AUTO)
        /\ Forall (fun p => parser_detect p path = false) parsers
        /\ message
           = "Unable to detect format for: " +:+ path +:+ NEWLINE
               +:+ "Supported formats: "
               +:+ Js.join ", "
                     (map (fun p => formatName (parser_format p)) parsers)
               +:+ NEWLINE +:+ "Try specifying --format explicitly").
Proof.
  unfold detect. split_and!.
  - intros format -> Hne. now rewrite bool_decide_eq_true_2.
  - intros format H. destruct hint as [h|].
    + destruct (bool_decide (h <> AUTO)) eqn:D.
      * injection H as <-. left. split; [reflexivity|].
        now apply bool_decide_eq_true in D.
      * right. now apply autoDetect_inl.
    + right. now apply autoDetect_inl.
  - intros message. change (_ +:+ _) with (undetectable parsers path).
    destruct hint as [h|].
    + destruct (bool_decide (h <> AUTO)) eqn:D.
      * split; [discriminate|]. apply bool_decide_eq_true in D.
        intros [[H|H] _]; [discriminate | congruence].
      * rewrite autoDetect_inr. apply bool_decide_eq_false in D.
        apply dec_stable in D. subst h. tauto.
    + rewrite autoDetect_inr. tauto.
Qed.

Lemma find_app_Some {A : Type} (f : A -> bool) (l k : list A) (x : A) :
  List.find f l = Some x -> List.find f (l ++ k) = Some x.
Proof.
  induction l as [|y l IH]; [discriminate|]. cbn [List.find app].
  destruct (f y); [auto | exact IH].
Qed.

Lemma find_app_None {A : Type} (f : A -> bool) (l k : list A) :
  List.find f l = None -> List.find f (l ++ k) = List.find f k.
Proof.
  induction l as [|y l IH]; [reflexivity|]. cbn [List.find app].
  destruct (f y); [discriminate | exact IH].
Qed.

(** X22.  Registering one more parser.  When a parser for the same format
    is registered already, a detection that succeeded still gives the same
    format.  When the detection failed and the new parser accepts the path,
    the format of the new parser is detected. *)
Theorem registerParser_detect (parsers : list Parser) (parser : Parser)
    (path : string) :
  (forall format,
     (exists p, p ∈ parsers /\ parser_format p = parser_format parser) ->
     autoDetect toLowerCase parsers path = inl format ->
     autoDetect toLowerCase (registerParser parsers parser) path
     = inl format)
  /\ (forall message,
        autoDetect toLowerCase parsers path = inr message ->
        parser_detect parser path = true ->
        autoDetect toLowerCase (registerParser parsers parser) path
        = inl (parser_format parser)).
Proof.
  unfold registerParser. split.
  - intros format (q & Hq & Hformat) H. unfold autoDetect in *.
    set (guess := guessFromExtension toLowerCase
                    (detectorFileExtension path)) in *.
    assert (Hsniff : forall f,
      match List.find (fun p => parser_detect p path) parsers with
      | Some p => inl (parser_format p)
      | None => inr (undetectable parsers path)
      end = @inl FormatType string f ->
      match List.find (fun p => parser_detect p path) (parsers ++ [parser])
      with
      | Some p => inl (parser_format p)
      | None => inr (undetectable (parsers ++ [parser]) path)
      end = @inl FormatType string f).
    { intros f. destruct (List.find _ parsers) as [p|] eqn:E; [|discriminate].
      now rewrite (find_app_Some _ _ _ _ E). }
    destruct (bool_decide (guess <> AUTO)); [|now apply Hsniff].
    unfold getParserForFormat in *.
    destruct (List.find _ parsers) as [p|] eqn:E.
    + rewrite (find_app_Some _ _ _ _ E).
      destruct (parser_detect p path); [exact H | now apply Hsniff].
    + rewrite (find_app_None _ _ _ E). cbn [List.find].
      destruct (bool_decide (parser_format parser = guess)) eqn:D;
        [|now apply Hsniff].
      exfalso. apply bool_decide_eq_true in D.
      apply list_elem_of_In in Hq.
      pose proof (find_none _ _ E q Hq) as N. cbn beta in N.
      apply bool_decide_eq_false in N. congruence.
  - intros message H Hd. apply autoDetect_inr in H as [Hall _].
    unfold autoDetect.
    assert (Hnone : List.find (fun p => parser_detect p path) parsers = None).
    { destruct (List.find _ parsers) as [p|] eqn:E; [|reflexivity].
      apply find_some in E as [Hin Hp]. rewrite Forall_forall in Hall.
      apply list_elem_of_In in Hin. rewrite (Hall p Hin) in Hp.
      discriminate. }
    assert (Hsniff :
      match List.find (fun p => parser_detect p path) (parsers ++ [parser])
      with
      | Some p => inl (parser_format p)
      | None => inr (undetectable (parsers ++ [parser]) path)
      end = @inl FormatType string (parser_format parser)).
    { rewrite (find_app_None _ _ _ Hnone). cbn [List.find]. now rewrite Hd. }
    destruct (bool_decide _); [|exact Hsniff].
    destruct (getParserForFormat (parsers ++ [parser]) _) as [p|] eqn:E;
      [|exact Hsniff].
    destruct (parser_detect p path) eqn:Hp; [|exact Hsniff].
    apply find_some in E as [Hin Hf]. apply in_app_or in Hin as [Hin|Hin].
    + rewrite Forall_forall in Hall. apply list_elem_of_In in Hin.
      rewrite (Hall p Hin) in Hp. discriminate.
    + destruct Hin as [<-|[]]. apply bool_decide_eq_true in Hf.
      now rewrite Hf.
Qed.

End DetectorProperties.

Section DefaultParsers.
Variable toLowerCase : string -> string.
Variable fs : gmap string FsEntry.

Lemma guess_markdown (ext : string) :
  toLowerCase ext = "md" \/ toLowerCase ext = "markdown" ->
  guessFromExtension toLowerCase ext = MARKDOWN.
Proof. unfold guessFromExtension. now intros [-> | ->]. Qed.

Lemma guess_openref (ext : string) :
  toLowerCase ext = "yml" \/ toLowerCase ext = "yaml" ->
  guessFromExtension toLowerCase ext = OPENREF.
Proof. unfold guessFromExtension. now intros [-> | ->]. Qed.

Lemma markdownDetect_yaml (base ext : string) (content : list N) :
  contains dot ext = false ->
  toLowerCase ext = "yml" \/ toLowerCase ext = "yaml" ->
  fs !! (base +:+ String dot ext) = Some (FsFile content) ->
  markdownDetect toLowerCase fs (base +:+ String dot ext) = false.
Proof.
  intros Hdot Hext Hfile. unfold markdownDetect.
  rewrite (getFileExtension_dot _ _ _ Hdot), Hfile.
  now destruct Hext as [-> | ->].
Qed.

Lemma openRefDetect_head (base ext : string) (content : list N) :
  contains dot ext = false ->
  toLowerCase ext = "yml" \/ toLowerCase ext = "yaml" ->
  fs !! (base +:+ String dot ext) = Some (FsFile content) ->
  openRefDetect toLowerCase fs (base +:+ String dot ext)
  = includesUnits (take 200 content) (codeUnits "info:")
    || includesUnits (take 200 content) (codeUnits "functions:")
    || includesUnits (take 200 content) (codeUnits "id:").
Proof.
  intros Hdot Hext Hfile. unfold openRefDetect, fileExists, readFileHead.
  rewrite (getFileExtension_dot _ _ _ Hdot), Hfile.
  now destruct Hext as [-> | ->].
Qed.

(** X23.  Detection with the two parsers the detector starts with, for a
    path that ends in a dot and an extension.  An existing path whose
    extension is [md] or [markdown] in any case is Markdown, whatever it
    holds.  A file whose extension is [yml] or [yaml] is OpenRef when one
    of the markers [info:], [functions:], [id:] occurs in the first 200
    UTF-16 code units of its text, and is not detected at all otherwise. *)
Theorem detect_by_extension (base ext : string) :
  contains dot ext = false ->
  let path := base +:+ String dot ext in
  let parsers := defaultParsers toLowerCase fs in
  (toLowerCase ext = "md" \/ toLowerCase ext = "markdown" ->
   is_Some (fs !! path) ->
   detect toLowerCase parsers path None = inl MARKDOWN)
  /\ (forall content,
        toLowerCase ext = "yml" \/ toLowerCase ext = "yaml" ->
        fs !! path = Some (FsFile content) ->
        let head := take 200 content in
        detect toLowerCase parsers path None
        = if includesUnits head (codeUnits "info:")
             || includesUnits head (codeUnits "functions:")
             || includesUnits head (codeUnits "id:")
          then inl OPENREF
          else inr (undetectable parsers path)).
Proof.
  intros Hdot. cbn zeta. split.
  - intros Hext [entry Hentry].
    unfold detect, autoDetect.
    rewrite (detectorFileExtension_dot _ _ Hdot), (guess_markdown _ Hext).
    assert (Hd : markdownDetect toLowerCase fs (base +:+ String dot ext)
                 = true).
    { unfold markdownDetect, fileExists.
      rewrite (getFileExtension_dot _ _ _ Hdot), Hentry.
      now destruct Hext as [-> | ->]. }
    cbn [defaultParsers getParserForFormat List.find parser_format
           openRefParser markdownParser parser_detect].
    replace (bool_decide (MARKDOWN <> AUTO)) with true by reflexivity.
    replace (bool_decide (OPENREF = MARKDOWN)) with false by reflexivity.
    replace (bool_decide (MARKDOWN = MARKDOWN)) with true by reflexivity.
    change (parser_detect (markdownParser toLowerCase fs))
      with (markdownDetect toLowerCase fs).
    now rewrite Hd.
  - intros content Hext Hfile.
    unfold detect, autoDetect.
    rewrite (detectorFileExtension_dot _ _ Hdot), (guess_openref _ Hext).
    cbn [defaultParsers getParserForFormat List.find parser_format
           openRefParser markdownParser parser_detect].
    replace (bool_decide (OPENREF <> AUTO)) with true by reflexivity.
    replace (bool_decide (OPENREF = OPENREF)) with true by reflexivity.
    change (parser_detect (openRefParser toLowerCase fs))
      with (openRefDetect toLowerCase fs).
    rewrite (openRefDetect_head _ _ _ Hdot Hext Hfile).
    rewrite (markdownDetect_yaml _ _ _ Hdot Hext Hfile).
    now destruct (_ || _ || _).
Qed.

(** X24.  A directory whose path has no dot is detected as Markdown exactly
    when one of the names in it ends in [.md]; otherwise the detection
    fails.  The names are those directly in the directory. *)
Theorem detect_directory (path : string) (names : list string) :
  contains dot path = false ->
  guessFromExtension toLowerCase "" = AUTO ->
  fs !! path = Some (FsDirectory names) ->
  let parsers := defaultParsers toLowerCase fs in
  detect toLowerCase parsers path None
  = if existsb (fun name => endsWith name ".md") names
    then inl MARKDOWN
    else inr (undetectable parsers path).
Proof.
  intros Hdot Hguess Hdir. cbn zeta. unfold detect, autoDetect.
  assert (Hext : detectorFileExtension path = "").
  { unfold detectorFileExtension. now rewrite (split_without _ _ Hdot). }
  assert (Hext' : getFileExtension toLowerCase path = "").
  { unfold getFileExtension. now rewrite (split_without _ _ Hdot). }
  rewrite Hext, Hguess.
  replace (bool_decide (AUTO <> AUTO)) with false by reflexivity.
  cbn [defaultParsers List.find parser_format openRefParser markdownParser
         parser_detect].
  assert (Ho : openRefDetect toLowerCase fs path = false).
  { unfold openRefDetect. now rewrite Hext'. }
  assert (Hm : markdownDetect toLowerCase fs path
               = existsb (fun name => endsWith name ".md") names).
  { unfold markdownDetect. now rewrite Hext', Hdir. }
  rewrite Ho, Hm. now destruct (existsb _ names).
Qed.

End DefaultParsers.

(** ** The section builder on whole documents *)

Section WholeDocuments.
Variable slugify : string -> string.
Variable trim : string -> string.

Lemma loop_app (tokens1 tokens2 : list Token) (st : State) :
  loop slugify trim (tokens1 ++ tokens2) st
  = st' ← loop slugify trim tokens1 st; loop slugify trim tokens2 st'.
Proof.
  revert st. induction tokens1 as [|t l IH]; intros st; [reflexivity|].
  cbn [app loop]. destruct (step slugify trim st t) as [st1|]; [|reflexivity].
  cbn [mbind option_bind]. apply IH.
Qed.

(** X25.  A document without any heading yields no section: what it
    contains is dropped.  In a document with exactly one heading, the
    content in front of the heading ends up in the section of that
    heading, before the content that follows the heading. *)
Theorem content_without_or_before_headings :
  (forall tokens,
     Forall (fun token => isHeading token = false) tokens ->
     buildSections slugify trim tokens = Some [])
  /\ (forall before after depth text,
        Forall (fun token => isHeading token = false) before ->
        Forall (fun token => isHeading token = false) after ->
        buildSections slugify trim (before ++ Heading depth text :: after)
        = Some [{| sec_level := depth; sec_title := text;
                   sec_id := slugify text;
                   sec_content :=
                     omap (tokenToContent trim) before
                       ++ omap (tokenToContent trim) after;
                   sec_children := [] |}]).
Proof.
  split.
  - intros tokens H. unfold buildSections, run.
    rewrite (loop_contents slugify trim tokens initial H).
    reflexivity.
  - intros before after depth text Hb Ha. unfold buildSections, run.
    rewrite loop_app, (loop_contents slugify trim before initial Hb).
    cbn [mbind option_bind loop step openSection saveContent initial
           stack store rootSections currentContent app length popWhile].
    rewrite (loop_contents slugify trim after _ Ha).
    cbn [mbind option_bind stack store rootSections currentContent app].
    unfold saveContent. cbn [stack store rootSections currentContent].
    destruct (omap (tokenToContent trim) before
                ++ omap (tokenToContent trim) after) as [|c cs] eqn:E.
    + reflexivity.
    + reflexivity.
Qed.

End WholeDocuments.

(** ** The forest that the section builder makes *)

Import Outline.

Lemma preorderOf_app (store : list SectionObject) (a b la lb : list nat) :
  preorderOf store a la -> preorderOf store b lb ->
  preorderOf store (a ++ b) (la ++ lb).
Proof.
  intros Ha Hb. induction Ha as [|r rs cs l1 l2 Hr H1 _ H2 IH].
  - exact Hb.
  - cbn [app]. rewrite <- app_assoc. now apply preorder_cons with cs.
Qed.

Lemma rightSpine_preorderOf (store : list SectionObject)
    (roots spine l : list nat) :
  rightSpine store roots spine l -> preorderOf store roots l.
Proof.
  induction 1 as [|closed l r cs spine l' Hc Hr _ IH].
  - constructor.
  - apply preorderOf_app; [exact Hc|].
    rewrite <- (app_nil_r l').
    apply preorder_cons with cs; [exact Hr | exact IH | constructor].
Qed.

Lemma preorderOf_frame (s s' : list SectionObject) (roots l : list nat) :
  preorderOf s roots l ->
  (forall r, r ∈ l -> childrenAt s' r = childrenAt s r) ->
  preorderOf s' roots l.
Proof.
  induction 1 as [|r rs cs l1 l2 Hr _ IH1 _ IH2]; intros Hsame.
  - constructor.
  - apply preorder_cons with cs.
    + rewrite Hsame; [exact Hr | apply elem_of_cons; now left].
    + apply IH1. intros x Hx. apply Hsame.
      apply elem_of_cons. right. apply elem_of_app. now left.
    + apply IH2. intros x Hx. apply Hsame.
      apply elem_of_cons. right. apply elem_of_app. now right.
Qed.

Lemma rightSpine_frame (s s' : list SectionObject)
    (roots spine l : list nat) :
  rightSpine s roots spine l ->
  (forall r, r ∈ l -> childrenAt s' r = childrenAt s r) ->
  rightSpine s' roots spine l.
Proof.
  induction 1 as [|closed l r cs spine l' Hc Hr _ IH]; intros Hsame.
  - constructor.
  - apply spine_cons with cs.
    + apply (preorderOf_frame s); [exact Hc|].
      intros x Hx. apply Hsame. apply elem_of_app. now left.
    + rewrite Hsame; [exact Hr|].
      apply elem_of_app. right. apply elem_of_cons. now left.
    + apply IH. intros x Hx. apply Hsame.
      apply elem_of_app. right. apply elem_of_cons. now right.
Qed.

Lemma rightSpine_elem (s : list SectionObject) (roots spine l : list nat) :
  rightSpine s roots spine l -> forall x, x ∈ spine -> x ∈ l.
Proof.
  induction 1 as [|closed l r cs spine l' Hc Hr _ IH]; intros x Hx.
  - inversion Hx.
  - apply elem_of_app. right. apply elem_of_cons.
    apply elem_of_cons in Hx as [->|Hx]; [now left | right; now apply IH].
Qed.

(** The top of the spine is the last of the roots. *)
Lemma rightSpine_last (s : list SectionObject) (roots spine l : list nat) :
  rightSpine s roots spine l ->
  match spine with
  | [] => roots = []
  | x :: _ => last roots = Some x
  end.
Proof.
  destruct 1 as [|closed l r cs spine l' Hc Hr Hs]; [reflexivity|].
  apply last_snoc.
Qed.

(** Below a section of the spine, the rest of the spine is the spine of
    its children. *)
Lemma rightSpine_below (s : list SectionObject) (above : list nat) :
  forall roots l p below,
    rightSpine s roots (above ++ p :: below) l ->
    exists children l',
      childrenAt s p = Some children /\ rightSpine s children below l'.
Proof.
  induction above as [|a above IH]; intros roots l p below H.
  - cbn [app] in H. inversion H; subst. eauto.
  - cbn [app] in H. inversion H; subst. eapply IH. eassumption.
Qed.

(** A new section without children, attached below the last section of
    [kept] (or beside the roots when [kept] is empty), extends the
    preorder at its end and becomes the end of the spine. *)
Lemma rightSpine_attach (s s' : list SectionObject) (n : nat) :
  childrenAt s' n = Some [] ->
  forall kept popped roots l,
    rightSpine s roots (kept ++ popped) l ->
    NoDup l ->
    (forall r, r ∈ l -> last kept <> Some r ->
       childrenAt s' r = childrenAt s r) ->
    (forall p children, last kept = Some p ->
       childrenAt s p = Some children ->
       childrenAt s' p = Some (children ++ [n])) ->
    rightSpine s' (match kept with [] => roots ++ [n] | _ => roots end)
      (kept ++ [n]) (l ++ [n]).
Proof.
  intros Hn. induction kept as [|r kept IH];
    intros popped roots l Hspine Hnodup Hother Hparent.
  - cbn [app]. apply spine_cons with [].
    + apply (preorderOf_frame s).
      * eapply rightSpine_preorderOf. exact Hspine.
      * intros x Hx. apply Hother; [exact Hx | discriminate].
    + exact Hn.
    + constructor.
  - cbn [app] in Hspine. inversion Hspine as [|closed l0 r0 cs sp l' Hc Hr Hs];
      subst.
    apply NoDup_app in Hnodup as (Hnd1 & Hdisj & Hnd2).
    apply NoDup_cons in Hnd2 as [Hr_notin Hnd2].
    assert (Hlast_in : forall p, last (r :: kept) = Some p ->
                                 p = r \/ p ∈ l').
    { intros p Hp. destruct kept as [|k kept'].
      - left. cbn in Hp. congruence.
      - right. eapply rightSpine_elem; [exact Hs|].
        apply elem_of_app. left.
        change (last (r :: k :: kept')) with (last (k :: kept')) in Hp.
        apply last_Some_elem_of. exact Hp. }
    cbn [app]. rewrite <- app_assoc. cbn [app].
    specialize (IH popped cs l' Hs Hnd2).
    destruct kept as [|k kept'].
    + (* [r] is the parent *)
      cbn [app] in *.
      apply spine_cons with (cs ++ [n]).
      * apply (preorderOf_frame s); [exact Hc|].
        intros x Hx. apply Hother.
        -- apply elem_of_app. now left.
        -- cbn. intros [= <-]. apply (Hdisj r Hx).
           apply elem_of_cons. now left.
      * apply Hparent; [reflexivity | exact Hr].
      * apply IH.
        -- intros x Hx _. apply Hother.
           ++ apply elem_of_app. right. apply elem_of_cons. now right.
           ++ cbn. intros [= <-]. contradiction.
        -- intros p children [=].
    + apply spine_cons with cs.
      * apply (preorderOf_frame s); [exact Hc|].
        intros x Hx. apply Hother.
        -- apply elem_of_app. now left.
        -- intros Hp. destruct (Hlast_in x Hp) as [->|Hin].
           ++ apply (Hdisj r Hx). apply elem_of_cons. now left.
           ++ apply (Hdisj x Hx). apply elem_of_cons. now right.
      * rewrite Hother; [exact Hr | |].
        -- apply elem_of_app. right. apply elem_of_cons. now left.
        -- intros Hp. destruct (Hlast_in r Hp) as [_|Hin].
           ++ change (last (r :: k :: kept')) with (last (k :: kept')) in Hp.
              apply Hr_notin. eapply rightSpine_elem; [exact Hs|].
              apply elem_of_app. left. apply last_Some_elem_of. exact Hp.
           ++ contradiction.
      * apply IH.
        -- intros x Hx Hne. apply Hother.
           ++ apply elem_of_app. right. apply elem_of_cons. now right.
           ++ exact Hne.
        -- intros p children Hp. apply Hparent. exact Hp.
Qed.

Lemma last_rev_head {A} (l : list A) : last (rev l) = head l.
Proof. destruct l as [|x l]; [reflexivity|]. cbn [rev head]. apply last_snoc. Qed.

Lemma elem_of_rev_list {A} (l : list A) (x : A) : x ∈ rev l <-> x ∈ l.
Proof.
  induction l as [|y l IH]; [reflexivity|]. cbn [rev].
  rewrite elem_of_app, list_elem_of_singleton, IH, elem_of_cons. tauto.
Qed.

Lemma view_insert (store : list SectionObject) (r : nat) (o : SectionObject)
    (f : SectionObject -> SectionObject) :
  store !! r = Some o -> objectView (f o) = objectView o ->
  map objectView (<[r := f o]> store) = map objectView store.
Proof.
  intros Ho Hf.
  change (objectView <$> <[r := f o]> store = objectView <$> store).
  rewrite list_fmap_insert, Hf. apply list_insert_id.
  now rewrite list_lookup_fmap, Ho.
Qed.

Lemma levelAt_view (store : list SectionObject) (r : nat) :
  levelAt store r = (fun v => v.1.1.1) <$> (map objectView store !! r).
Proof.
  unfold levelAt.
  change (map objectView store) with (objectView <$> store).
  rewrite list_lookup_fmap. now destruct (store !! r).
Qed.

Section Forest.
Variable slugify : string -> string.
Variable trim : string -> string.

(** A heading adds the view of the new section at the end of the views of
    the store, after the pending content was saved. *)
Lemma openSection_view (st st' : State) (depth : Z) (text : string) :
  openSection slugify depth text st = Some st' ->
  exists st1,
    saveContent st = Some st1
    /\ map objectView (store st')
       = map objectView (store st1) ++ [(depth, text, slugify text, [])]
    /\ currentContent st' = currentContent st1.
Proof.
  unfold openSection. destruct (saveContent st) as [st1|]; [|discriminate].
  cbn [mbind option_bind].
  destruct (popWhile _ _ _) as [kept|]; [|discriminate].
  cbn [mbind option_bind]. destruct kept as [|parent kept].
  - intros [= <-]. exists st1. cbn [store currentContent].
    split; [reflexivity|]. split; [|reflexivity]. now rewrite map_app.
  - unfold mutate.
    destruct ((store st1 ++ [newSection slugify depth text]) !! parent)
      as [o|] eqn:Ho; [|discriminate].
    cbn [mbind option_bind]. intros [= <-]. exists st1.
    cbn [store currentContent].
    split; [reflexivity|]. split; [|reflexivity].
    rewrite (view_insert _ _ _ _ Ho); [|reflexivity]. now rewrite map_app.
Qed.

Lemma openSection_levelAt (st st' : State) (depth : Z) (text : string) :
  stackValid st ->
  openSection slugify depth text st = Some st' ->
  forall r, r < length (store st) ->
    levelAt (store st') r = levelAt (store st) r.
Proof.
  intros Hvalid E r Hr.
  destruct (openSection_view _ _ _ _ E) as (st1 & Hsave & Hview & _).
  destruct (saveContent_spec st Hvalid)
    as (st1' & Hsave' & _ & _ & Hlen & Hlev & _).
  rewrite Hsave in Hsave'. injection Hsave' as <-.
  rewrite <- Hlev, !levelAt_view, Hview.
  rewrite lookup_app_l; [reflexivity|]. now rewrite length_map, Hlen.
Qed.

Lemma nonIncreasingRefs_ext (s s' : list SectionObject) (refs : list nat) :
  nonIncreasingRefs s refs ->
  (forall r, r ∈ refs -> levelAt s' r = levelAt s r) ->
  nonIncreasingRefs s' refs.
Proof.
  intros H Hsame i j ci cj li lj Hij Hi Hj Hli Hlj.
  rewrite Hsame in Hli by (eapply list_elem_of_lookup_2; exact Hi).
  rewrite Hsame in Hlj by (eapply list_elem_of_lookup_2; exact Hj).
  eapply H; eassumption.
Qed.

Lemma nonIncreasingRefs_snoc (s s' : list SectionObject)
    (refs : list nat) (n : nat) (depth : Z) :
  nonIncreasingRefs s refs ->
  (forall r, r ∈ refs -> levelAt s' r = levelAt s r) ->
  levelAt s' n = Some depth ->
  (forall c, last refs = Some c ->
     exists l, levelAt s c = Some l /\ (depth <= l)%Z) ->
  nonIncreasingRefs s' (refs ++ [n]).
Proof.
  intros H Hsame Hn Hlast i j ci cj li lj Hij Hi Hj Hli Hlj.
  assert (Hjlen : j < length (refs ++ [n]))
    by (eapply lookup_lt_Some; exact Hj).
  rewrite length_app in Hjlen. cbn [length] in Hjlen.
  destruct (decide (j < length refs)) as [Hjl|Hjl].
  - rewrite lookup_app_l in Hi by lia. rewrite lookup_app_l in Hj by lia.
    rewrite Hsame in Hli by (eapply list_elem_of_lookup_2; exact Hi).
    rewrite Hsame in Hlj by (eapply list_elem_of_lookup_2; exact Hj).
    eapply (H i j); eassumption.
  - assert (j = length refs) as -> by lia.
    rewrite list_lookup_middle in Hj by reflexivity. injection Hj as <-.
    rewrite Hn in Hlj. injection Hlj as <-.
    destruct (decide (i = length refs)) as [->|Hi'].
    + rewrite list_lookup_middle in Hi by reflexivity. injection Hi as <-.
      rewrite Hn in Hli. injection Hli as <-. lia.
    + rewrite lookup_app_l in Hi by lia.
      rewrite Hsame in Hli by (eapply list_elem_of_lookup_2; exact Hi).
      destruct (last refs) as [c|] eqn:Hc.
      * destruct (Hlast c eq_refl) as (lc & Hlc & Hle).
        rewrite last_lookup in Hc.
        assert (lc <= li)%Z; [|lia].
        eapply (H i (Init.Nat.pred (length refs))); try eassumption. lia.
      * apply last_None in Hc. subst refs. cbn in Hi. discriminate.
Qed.

Lemma forestInvariant_initial : forestInvariant initial.
Proof.
  split_and!.
  - apply wellFormed_initial.
  - constructor.
  - intros r children c lr lc H. discriminate H.
  - intros r children H. discriminate H.
  - intros i j ci cj li lj _ H. discriminate H.
Qed.

Lemma step_forestInvariant (st : State) (token : Token) :
  forestInvariant st ->
  exists st', step slugify trim st token = Some st' /\ forestInvariant st'.
Proof.
  intros (Hwf & Hspine & Hnest & Hsorted & Hroots).
  destruct (isHeading token) eqn:Hh.
  2:{ exists (accumulate trim token st). split; [now destruct token|].
      unfold accumulate. destruct (tokenToContent trim token);
        now split_and!. }
  destruct token as [depth text| | | | | |]; try discriminate.
  destruct (step_wellFormed slugify trim st (Heading depth text) Hwf)
    as (st' & E & Hwf').
  exists st'. split; [exact E|]. cbn [step] in E.
  pose proof Hwf as (Hvalid & Hrootsv & Hkids).
  destruct (openSection_spec slugify st depth text Hvalid)
    as (st'' & popped & kept & E' & Hsplit & Hpopped & Hkept & Hstack
        & Hnew & Hattach & Hlen & Hsame & HnewCh).
  rewrite E in E'. injection E' as <-.
  set (n := length (store st)) in *.
  pose proof (openSection_levelAt st st' depth text Hvalid E) as Hlev.
  fold n in Hlev.
  assert (Hlevn : levelAt (store st') n = Some depth).
  { unfold levelAt. now rewrite Hnew. }
  assert (Hchn : childrenAt (store st') n = Some []) by exact HnewCh.
  assert (Hrev : rev (stack st) = rev kept ++ rev popped)
    by (rewrite Hsplit; apply rev_app_distr).
  assert (Hpop_lvl : forall x, x ∈ rev popped ->
            exists l, levelAt (store st) x = Some l /\ (depth <= l)%Z).
  { intros x Hx. rewrite elem_of_rev_list in Hx.
    rewrite Forall_forall in Hpopped. now apply Hpopped. }
  assert (Hlt : forall r children, childrenAt (store st') r = Some children ->
                                   r < S n).
  { intros r children H. unfold childrenAt in H.
    destruct (store st' !! r) as [o|] eqn:Ho; [|discriminate].
    apply lookup_lt_Some in Ho. now rewrite Hlen in Ho. }
  assert (Hkidsv : forall r children c,
            childrenAt (store st) r = Some children -> c ∈ children ->
            c < n).
  { intros r children c H Hc. specialize (Hkids r children H).
    rewrite Forall_forall in Hkids. apply Hkids in Hc. unfold n. lia. }
  split_and!.
  - exact Hwf'.
  - rewrite Hstack, Hlen. cbn [rev]. rewrite seq_S. cbn [plus].
    rewrite Hrev in Hspine.
    pose proof (rightSpine_attach (store st) (store st') n Hchn
                  (rev kept) (rev popped) (rootSections st) (seq 0 n)
                  Hspine (NoDup_seq 0 n)) as Hatt.
    assert (Hroots' : rootSections st'
                      = match rev kept with
                        | [] => rootSections st ++ [n]
                        | _ => rootSections st
                        end).
    { destruct kept as [|p k]; [exact Hattach|].
      destruct Hattach as [-> _]. cbn [rev].
      now destruct (rev k). }
    rewrite Hroots'. apply Hatt.
    + intros r Hr Hne. rewrite last_rev_head in Hne.
      apply Hsame; [|exact Hne]. apply elem_of_seq in Hr. lia.
    + intros p children Hp Hc. rewrite last_rev_head in Hp.
      destruct kept as [|p' k]; [discriminate|]. injection Hp as ->.
      destruct Hattach as (_ & cs & Hcs & Hcs').
      rewrite Hcs in Hc. injection Hc as <-. exact Hcs'.
  - intros r children c lr lc Hr Hc Hlr Hlc.
    pose proof (Hlt r children Hr) as Hrn.
    destruct (decide (r = n)) as [->|Hne].
    { rewrite Hchn in Hr. injection Hr as <-. inversion Hc. }
    rewrite Hlev in Hlr by lia.
    destruct (decide (head kept = Some r)) as [Hhead|Hhead].
    + destruct (Hkept r Hhead) as (l & Hl & Hld).
      rewrite Hl in Hlr. injection Hlr as <-.
      destruct kept as [|p k]; [discriminate|]. injection Hhead as ->.
      destruct Hattach as (_ & cs & Hcs & Hcs').
      rewrite Hcs' in Hr. injection Hr as <-.
      apply elem_of_app in Hc as [Hc|Hc].
      * rewrite Hlev in Hlc by (eapply Hkidsv; eassumption).
        eapply Hnest; eassumption.
      * apply list_elem_of_singleton in Hc as ->.
        rewrite Hlevn in Hlc. injection Hlc as <-. exact Hld.
    + rewrite Hsame in Hr by (lia || exact Hhead).
      rewrite Hlev in Hlc by (eapply Hkidsv; eassumption).
      eapply Hnest; eassumption.
  - intros r children Hr.
    pose proof (Hlt r children Hr) as Hrn.
    destruct (decide (r = n)) as [->|Hne].
    { rewrite Hchn in Hr. injection Hr as <-.
      intros i j ci cj li lj _ H. discriminate H. }
    destruct (decide (head kept = Some r)) as [Hhead|Hhead].
    + destruct kept as [|p k]; [discriminate|]. injection Hhead as ->.
      destruct Hattach as (_ & cs & Hcs & Hcs').
      rewrite Hcs' in Hr. injection Hr as <-.
      apply (nonIncreasingRefs_snoc (store st) _ _ _ depth).
      * now apply (Hsorted r).
      * intros c Hc. apply Hlev. eapply Hkidsv; eassumption.
      * exact Hlevn.
      * intros c Hc.
        cbn [rev] in Hrev. rewrite <- app_assoc in Hrev. cbn [app] in Hrev.
        rewrite Hrev in Hspine.
        destruct (rightSpine_below _ _ _ _ _ _ Hspine)
          as (cs' & l' & Hcs'' & Hbelow).
        rewrite Hcs in Hcs''. injection Hcs'' as <-.
        apply rightSpine_last in Hbelow.
        destruct (rev popped) as [|x rp] eqn:Hrp.
        -- subst cs. discriminate.
        -- rewrite Hbelow in Hc. injection Hc as <-.
           apply Hpop_lvl. apply elem_of_cons. now left.
    + rewrite Hsame in Hr by (lia || exact Hhead).
      apply (nonIncreasingRefs_ext (store st)).
      * now apply (Hsorted r).
      * intros c Hc. apply Hlev. eapply Hkidsv; eassumption.
  - destruct kept as [|p k].
    + rewrite Hattach. apply (nonIncreasingRefs_snoc (store st) _ _ _ depth).
      * exact Hroots.
      * intros c Hc. apply Hlev.
        rewrite Forall_forall in Hrootsv. now apply Hrootsv.
      * exact Hlevn.
      * intros c Hc. cbn [rev app] in Hrev. rewrite Hrev in Hspine.
        apply rightSpine_last in Hspine.
        destruct (rev popped) as [|x rp] eqn:Hrp.
        -- rewrite Hspine in Hc. discriminate.
        -- rewrite Hspine in Hc. injection Hc as <-.
           apply Hpop_lvl. apply elem_of_cons. now left.
    + destruct Hattach as [-> _].
      apply (nonIncreasingRefs_ext (store st)).
      * exact Hroots.
      * intros c Hc. apply Hlev.
        rewrite Forall_forall in Hrootsv. now apply Hrootsv.
Qed.

End Forest.

Section ForestResults.
Variable slugify : string -> string.
Variable trim : string -> string.

Lemma saveContent_forestInvariant (st : State) :
  forestInvariant st ->
  exists st1, saveContent st = Some st1 /\ forestInvariant st1.
Proof.
  intros (Hwf & Hspine & Hnest & Hsorted & Hroots).
  destruct (saveContent_wellFormed st Hwf) as (st1 & E & Hwf1).
  exists st1. split; [exact E|].
  destruct Hwf as (Hvalid & _).
  destruct (saveContent_spec st Hvalid)
    as (st1' & E' & Hstack & Hr & Hlen & Hlev & Hch & _).
  rewrite E in E'. injection E' as <-.
  split_and!.
  - exact Hwf1.
  - rewrite Hstack, Hr, Hlen.
    apply (rightSpine_frame (store st)); [exact Hspine|].
    intros r _. apply Hch.
  - intros r children c lr lc. rewrite Hch, !Hlev. apply Hnest.
  - intros r children. rewrite Hch. intros H.
    apply (nonIncreasingRefs_ext (store st)); [now apply (Hsorted r)|].
    intros c _. apply Hlev.
  - rewrite Hr. apply (nonIncreasingRefs_ext (store st)); [exact Hroots|].
    intros c _. apply Hlev.
Qed.

Lemma loop_forestInvariant (tokens : list Token) :
  forall st, forestInvariant st ->
  exists st', loop slugify trim tokens st = Some st' /\ forestInvariant st'.
Proof.
  induction tokens as [|token rest IH]; intros st Hinv.
  - exists st. now split.
  - destruct (step_forestInvariant slugify trim st token Hinv)
      as (st1 & E & Hinv1).
    cbn [loop]. rewrite E. cbn [mbind option_bind]. now apply IH.
Qed.

Lemma run_forestInvariant (tokens : list Token) :
  exists st, run slugify trim tokens = Some st /\ forestInvariant st.
Proof.
  destruct (loop_forestInvariant tokens initial forestInvariant_initial)
    as (st & E & Hinv).
  unfold run. rewrite E. cbn [mbind option_bind].
  now apply saveContent_forestInvariant.
Qed.

(** What reading a section out of the store gives. *)
Lemma readSection_Some (store : list SectionObject) (fuel : nat) (r : nat)
    (section : MarkdownSection) :
  readSection store fuel r = Some section ->
  exists fuel' o,
    fuel = S fuel'
    /\ store !! r = Some o
    /\ sectionView section = objectView o
    /\ Forall2 (fun c child => readSection store fuel' c = Some child)
         (obj_children o) (sec_children section).
Proof.
  destruct fuel as [|fuel']; [discriminate|]. cbn [readSection].
  destruct (store !! r) as [o|]; [|discriminate]. cbn [mbind option_bind].
  destruct (mapM (readSection store fuel') (obj_children o))
    as [children|] eqn:E; [|discriminate].
  cbn [mbind option_bind]. intros [= <-].
  exists fuel', o. split_and!; try reflexivity.
  cbn [sec_children]. now apply mapM_Some_1.
Qed.

Lemma readSection_levelAt (store : list SectionObject) (fuel : nat) (r : nat)
    (section : MarkdownSection) :
  readSection store fuel r = Some section ->
  levelAt store r = Some (sec_level section).
Proof.
  intros H. apply readSection_Some in H as (fuel' & o & _ & Ho & Hview & _).
  unfold levelAt. rewrite Ho. cbn. unfold sectionView, objectView in Hview.
  congruence.
Qed.

(** The levels of what is read follow the levels in the store. *)
Lemma read_nonIncreasing (store : list SectionObject) (fuel : nat)
    (refs : list nat) (l : list MarkdownSection) :
  Forall2 (fun c child => readSection store fuel c = Some child) refs l ->
  nonIncreasingRefs store refs -> nonIncreasingLevels l.
Proof.
  intros Hread Hsorted i j si sj Hij Hi Hj.
  destruct (Forall2_lookup_r _ _ _ _ _ Hread Hi) as (ci & Hci & Hri).
  destruct (Forall2_lookup_r _ _ _ _ _ Hread Hj) as (cj & Hcj & Hrj).
  apply readSection_levelAt in Hri, Hrj.
  eapply (Hsorted i j); eassumption.
Qed.

Lemma read_levels (store : list SectionObject) :
  (forall r children c lr lc,
     childrenAt store r = Some children -> c ∈ children ->
     levelAt store r = Some lr -> levelAt store c = Some lc ->
     (lr < lc)%Z) ->
  (forall r children, childrenAt store r = Some children ->
     nonIncreasingRefs store children) ->
  forall fuel r section,
    readSection store fuel r = Some section ->
    forall s, s ∈ sections section ->
      Forall (fun child => (sec_level s < sec_level child)%Z)
        (sec_children s)
      /\ nonIncreasingLevels (sec_children s).
Proof.
  intros Hnest Hsorted. induction fuel as [|fuel IH];
    intros r section Hread s Hs; [discriminate|].
  pose proof (readSection_levelAt _ _ _ _ Hread) as Hlevel.
  apply readSection_Some in Hread
    as (fuel' & o & [= <-] & Ho & Hview & Hchildren).
  assert (Hch : childrenAt store r = Some (obj_children o))
    by (unfold childrenAt; now rewrite Ho).
  destruct section as [level title id content children].
  cbn [sections sec_children] in *.
  apply elem_of_cons in Hs as [->|Hs].
  - cbn [sec_children sec_level] in *. split.
    + apply Forall_forall. intros child Hchild.
      apply list_elem_of_lookup_1 in Hchild as [i Hi].
      destruct (Forall2_lookup_r _ _ _ _ _ Hchildren Hi) as (c & Hc & Hrc).
      apply readSection_levelAt in Hrc.
      eapply Hnest; try eassumption.
      eapply list_elem_of_lookup_2. exact Hc.
    + eapply read_nonIncreasing; [exact Hchildren|].
      now apply (Hsorted r).
  - apply elem_of_flat_map in Hs as (child & Hchild & Hs).
    apply list_elem_of_lookup_1 in Hchild as [i Hi].
    destruct (Forall2_lookup_r _ _ _ _ _ Hchildren Hi) as (c & Hc & Hrc).
    eapply IH; eassumption.
Qed.

(** X26.  In the forest that [buildSections] returns, for every token
    list, every section has a lower level than each of its children, and
    the levels of sections side by side (the children of one section, or
    the top-level sections) never go up. *)
Theorem section_levels (tokens : list Token) :
  exists forest,
    buildSections slugify trim tokens = Some forest
    /\ nonIncreasingLevels forest
    /\ forall s, s ∈ flat_map sections forest ->
         Forall (fun child => (sec_level s < sec_level child)%Z)
           (sec_children s)
         /\ nonIncreasingLevels (sec_children s).
Proof.
  destruct (run_forestInvariant tokens)
    as (st & E & (Hwf & _ & Hnest & Hsorted & Hroots)).
  destruct (buildSections_total slugify trim tokens) as [forest Hforest].
  exists forest. split; [exact Hforest|].
  unfold buildSections in Hforest. rewrite E in Hforest.
  cbn [mbind option_bind] in Hforest. apply mapM_Some_1 in Hforest.
  split.
  - eapply read_nonIncreasing; [exact Hforest | exact Hroots].
  - intros s Hs. apply elem_of_flat_map in Hs as (root & Hroot & Hs).
    apply list_elem_of_lookup_1 in Hroot as [i Hi].
    destruct (Forall2_lookup_r _ _ _ _ _ Hforest Hi) as (r & Hr & Hread).
    eapply (read_levels (store st) Hnest Hsorted); eassumption.
Qed.

End ForestResults.

Lemma take_snoc_last {A} (l : list A) (i : nat) (x : A) :
  l !! i = Some x -> length l = S i -> l = take i l ++ [x].
Proof.
  intros Hx Hlen. rewrite <- (take_drop_middle l i x Hx) at 1.
  rewrite drop_ge by lia. reflexivity.
Qed.

Lemma insert_last {A} (l : list A) (i : nat) (x : A) :
  length l = S i -> <[i := x]> l = take i l ++ [x].
Proof.
  intros Hlen. rewrite insert_take_drop by lia.
  rewrite drop_ge by lia. reflexivity.
Qed.

Lemma views_in_store_order {A} (view : A -> Z * string * string
                                           * list MarkdownContent)
    (store : list SectionObject) (l : list A) :
  Forall2 (fun x r => objectView <$> store !! r = Some (view x))
    l (seq 0 (length store)) ->
  map view l = map objectView store.
Proof.
  intros H. pose proof (Forall2_length _ _ _ H) as Hlen.
  rewrite length_seq in Hlen.
  change (view <$> l = objectView <$> store).
  apply list_eq. intros i. rewrite !list_lookup_fmap.
  destruct (decide (i < length store)) as [Hi|Hi].
  - destruct (lookup_lt_is_Some_2 l i) as [x Hx]; [lia|].
    pose proof (Forall2_lookup_lr _ _ _ i x i H Hx) as Hr.
    rewrite Hx. cbn. symmetry. apply Hr. now apply lookup_seq_lt.
  - rewrite !lookup_ge_None_2 by lia. reflexivity.
Qed.

(** Reading a forest out of the store lists the sections as the preorder
    of the references does. *)
Lemma read_preorder (store : list SectionObject) :
  forall fuel roots l forest,
    preorderOf store roots l ->
    Forall2 (fun c child => readSection store fuel c = Some child)
      roots forest ->
    Forall2 (fun s r => objectView <$> store !! r = Some (sectionView s))
      (flat_map sections forest) l.
Proof.
  induction fuel as [|fuel IH]; intros roots l forest Hpre Hread.
  - destruct Hread as [|r t rs ts Hr _]; [|discriminate].
    inversion Hpre. constructor.
  - revert forest Hread.
    induction Hpre as [|r rs cs l1 l2 Hcs H1 _ H2 IH2]; intros forest Hread.
    + inversion Hread. constructor.
    + inversion Hread as [|r' t rs' ts Hr Hrs]; subst.
      apply readSection_Some in Hr
        as (fuel' & o & [= <-] & Ho & Hview & Hchildren).
      unfold childrenAt in Hcs. rewrite Ho in Hcs. injection Hcs as <-.
      destruct t as [level title id content children].
      cbn [flat_map sections sec_children] in *.
      constructor.
      * rewrite Ho. cbn. now rewrite Hview.
      * apply Forall2_app.
        -- eapply IH; eassumption.
        -- now apply IH2.
Qed.

Section DocumentOrder.
Variable slugify : string -> string.
Variable trim : string -> string.

Lemma saveContent_view (st : State) (top : nat) (rest : list nat)
    (o : SectionObject) :
  stack st = top :: rest -> length (store st) = S top ->
  store st !! top = Some o ->
  exists st1,
    saveContent st = Some st1
    /\ map objectView (store st1)
       = map objectView (take top (store st))
           ++ [(obj_level o, obj_title o, obj_id o,
                obj_content o ++ currentContent st)]
    /\ currentContent st1 = [].
Proof.
  intros Hstack Hlen Ho. unfold saveContent. rewrite Hstack.
  destruct (currentContent st) as [|c cs] eqn:Hc.
  - exists st. split; [reflexivity|]. split; [|exact Hc].
    rewrite (take_snoc_last _ _ _ Ho Hlen) at 1.
    rewrite map_app, app_nil_r. reflexivity.
  - rewrite (mutate_Some _ _ _ _ Ho). eexists. split; [reflexivity|].
    cbn [store currentContent]. split; [|reflexivity].
    rewrite (insert_last _ _ _ Hlen), map_app. reflexivity.
Qed.

Lemma wellFormed_accumulate (st : State) (token : Token) :
  wellFormed st -> wellFormed (accumulate trim token st).
Proof.
  intros H. unfold accumulate. now destruct (tokenToContent trim token).
Qed.

(** From a state whose newest section is on top of the stack: the store
    ends with that section, holding the content up to the next heading,
    and the chunks of the tokens. *)
Lemma loop_view (tokens : list Token) :
  forall st top rest o,
    wellFormed st ->
    stack st = top :: rest -> length (store st) = S top ->
    store st !! top = Some o ->
    exists st1 st',
      loop slugify trim tokens st = Some st1
      /\ saveContent st1 = Some st'
      /\ map objectView (store st')
         = map objectView (take top (store st))
             ++ (obj_level o, obj_title o, obj_id o,
                 obj_content o ++ currentContent st
                   ++ omap (tokenToContent trim) (untilHeading tokens))
                :: map (chunkView slugify trim) (chunks tokens).
Proof.
  induction tokens as [|token tl IH]; intros st top rest o Hwf Hstack Hlen Ho.
  - destruct (saveContent_view st top rest o Hstack Hlen Ho)
      as (st1 & Hsave & Hview & _).
    exists st, st1. split; [reflexivity|]. split; [exact Hsave|].
    cbn [untilHeading chunks map]. rewrite omap_nil, app_nil_r. exact Hview.
  - destruct (isHeading token) eqn:Hh.
    + destruct token as [depth text| | | | | |]; try discriminate.
      destruct (step_wellFormed slugify trim st (Heading depth text) Hwf)
        as (st2 & E & Hwf2).
      pose proof Hwf as (Hvalid & _).
      destruct (openSection_spec slugify st depth text Hvalid)
        as (st2' & popped & kept & E' & _ & _ & _ & Hstack2 & Hnew & _
            & Hlen2 & _).
      cbn [step] in E. rewrite E in E'. injection E' as <-.
      destruct (openSection_view slugify _ _ _ _ E)
        as (st1 & Hsave & Hview2 & Hcur2).
      destruct (saveContent_view st top rest o Hstack Hlen Ho)
        as (st1' & Hsave' & Hview1 & Hcur1).
      rewrite Hsave in Hsave'. injection Hsave' as <-.
      destruct (IH st2 (length (store st)) kept
                  (newSection slugify depth text) Hwf2 Hstack2 Hlen2 Hnew)
        as (st3 & st' & Hloop & Hsave3 & Hview3).
      exists st3, st'. split_and!.
      * cbn [loop step]. rewrite E. exact Hloop.
      * exact Hsave3.
      * rewrite Hview3.
        change (map objectView (take (length (store st)) (store st2)))
          with (objectView <$> take (length (store st)) (store st2)).
        rewrite fmap_take.
        change (objectView <$> store st2) with (map objectView (store st2)).
        rewrite Hview2, Hview1.
        rewrite take_app_length'.
        2:{ rewrite length_app, length_map, length_take. cbn [length].
            lia. }
        rewrite Hcur2, Hcur1. cbn [untilHeading isHeading chunks map].
        rewrite omap_nil, app_nil_r, <- app_assoc. reflexivity.
    + assert (E : step slugify trim st token
                  = Some (accumulate trim token st)) by now destruct token.
      assert (Hu : untilHeading (token :: tl) = token :: untilHeading tl)
        by (cbn [untilHeading]; now rewrite Hh).
      assert (Hc : chunks (token :: tl) = chunks tl)
        by (destruct token; try reflexivity; discriminate).
      pose proof (wellFormed_accumulate st token Hwf) as Hwf1.
      assert (Hst : stack (accumulate trim token st) = top :: rest
                    /\ store (accumulate trim token st) = store st).
      { unfold accumulate. now destruct (tokenToContent trim token). }
      destruct Hst as [Hstack1 Hstore1].
      destruct (IH (accumulate trim token st) top rest o Hwf1 Hstack1)
        as (st3 & st' & Hloop & Hsave3 & Hview3).
      { now rewrite Hstore1. }
      { now rewrite Hstore1. }
      exists st3, st'. split_and!.
      * cbn [loop]. rewrite E. exact Hloop.
      * exact Hsave3.
      * rewrite Hview3, Hstore1, Hu, Hc, omap_cons. unfold accumulate.
        destruct (tokenToContent trim token) as [c|].
        -- cbn [currentContent]. rewrite <- (app_assoc (currentContent st)).
           reflexivity.
        -- reflexivity.
Qed.

(** From the start: the store lists the outline of the tokens. *)
Lemma loop_view_initial (tokens : list Token) :
  forall pending,
    exists st1 st',
      loop slugify trim tokens
        {| store := []; rootSections := []; stack := [];
           currentContent := pending |} = Some st1
      /\ saveContent st1 = Some st'
      /\ map objectView (store st')
         = match chunks tokens with
           | [] => []
           | (depth, text, contents) :: more =>
               (depth, text, slugify text,
                pending ++ omap (tokenToContent trim) (untilHeading tokens)
                  ++ omap (tokenToContent trim) contents)
               :: map (chunkView slugify trim) more
           end.
Proof.
  induction tokens as [|token tl IH]; intros pending.
  - eexists _, _. split; [reflexivity|]. split; reflexivity.
  - destruct (isHeading token) eqn:Hh.
    + destruct token as [depth text| | | | | |]; try discriminate.
      set (st2 := {| store := [newSection slugify depth text];
                     rootSections := [0]; stack := [0];
                     currentContent := pending |}).
      assert (Hwf2 : wellFormed st2).
      { split_and!.
        - repeat constructor.
        - repeat constructor.
        - intros r children H. destruct r as [|r]; [|discriminate H].
          injection H as <-. constructor. }
      destruct (loop_view tl st2 0 [] (newSection slugify depth text) Hwf2
                  eq_refl eq_refl eq_refl)
        as (st3 & st' & Hloop & Hsave3 & Hview3).
      exists st3, st'. split_and!.
      * exact Hloop.
      * exact Hsave3.
      * rewrite Hview3. reflexivity.
    + assert (Hu : untilHeading (token :: tl) = token :: untilHeading tl)
        by (cbn [untilHeading]; now rewrite Hh).
      assert (Hc : chunks (token :: tl) = chunks tl)
        by (destruct token; try reflexivity; discriminate).
      assert (E : step slugify trim
                    {| store := []; rootSections := []; stack := [];
                       currentContent := pending |} token
                  = Some {| store := []; rootSections := []; stack := [];
                            currentContent :=
                              pending
                                ++ omap (tokenToContent trim) [token] |}).
      { rewrite omap_cons, omap_nil.
        destruct token; try discriminate; cbn [step]; unfold accumulate;
          destruct (tokenToContent trim _); cbn;
          rewrite ?app_nil_r; reflexivity. }
      destruct (IH (pending ++ omap (tokenToContent trim) [token]))
        as (st3 & st' & Hloop & Hsave3 & Hview3).
      exists st3, st'. split_and!.
      * cbn [loop]. rewrite E. exact Hloop.
      * exact Hsave3.
      * rewrite Hview3, Hu, Hc.
        destruct (chunks tl) as [|[[depth text] contents] more];
          [reflexivity|].
        rewrite (omap_cons _ token (untilHeading tl)), omap_cons, omap_nil.
        destruct (tokenToContent trim token) as [c|].
        -- rewrite <- (app_assoc pending). reflexivity.
        -- now rewrite app_nil_r.
Qed.

(** X27.  [buildSections] keeps the document order and loses no content
    of a document that has a heading: the sections of the forest it
    returns, a section before its children, are the headings of the token
    list in their order, each with its depth, its text, the slug of the
    text, and as content the content of the tokens between it and the
    next heading; the first section also takes the content in front of
    the first heading. *)
Theorem sections_in_document_order (tokens : list Token) :
  exists forest,
    buildSections slugify trim tokens = Some forest
    /\ map sectionView (flat_map sections forest)
       = map (chunkView slugify trim) (outline tokens).
Proof.
  destruct (run_forestInvariant slugify trim tokens)
    as (st & E & (_ & Hspine & _)).
  destruct (buildSections_total slugify trim tokens) as [forest Hforest].
  exists forest. split; [exact Hforest|].
  unfold buildSections in Hforest. rewrite E in Hforest.
  cbn [mbind option_bind] in Hforest. apply mapM_Some_1 in Hforest.
  apply rightSpine_preorderOf in Hspine.
  pose proof (read_preorder _ _ _ _ _ Hspine Hforest) as Hread.
  rewrite (views_in_store_order _ _ _ Hread).
  destruct (loop_view_initial tokens []) as (st1 & st' & Hloop & Hsave & Hview).
  unfold run in E. change initial with
    {| store := []; rootSections := []; stack := [];
       currentContent := [] |} in E.
  rewrite Hloop in E. cbn [mbind option_bind] in E.
  rewrite Hsave in E. injection E as <-.
  rewrite Hview. unfold outline.
  destruct (chunks tokens) as [|[[depth text] contents] more]; [reflexivity|].
  cbn [map chunkView app]. now rewrite omap_app.
Qed.

End DocumentOrder.

(** ** The stack rule *)

Import StackRule.

Lemma contentAt_view (store : list SectionObject) (r : nat) :
  contentAt store r = (fun v => v.2) <$> (map objectView store !! r).
Proof.
  unfold contentAt.
  change (map objectView store) with (objectView <$> store).
  rewrite list_lookup_fmap. now destruct (store !! r).
Qed.

Lemma headerAt_view (store : list SectionObject) (r : nat) :
  headerAt store r = (fun v => v.1) <$> (map objectView store !! r).
Proof.
  unfold headerAt.
  change (map objectView store) with (objectView <$> store).
  rewrite list_lookup_fmap. now destruct (store !! r).
Qed.

(** What saving the pending content does. *)
Lemma saveContent_finalRule (st st1 : State) :
  saveContent st = Some st1 -> finalRule st st1.
Proof.
  unfold saveContent, finalRule, flushed.
  destruct (stack st) as [|top rest] eqn:Hs.
  { intros [= <-]. rewrite Hs. split_and!; reflexivity. }
  destruct (currentContent st) as [|c cs] eqn:Hc.
  { intros [= <-]. rewrite Hs, Hc. split_and!; try reflexivity.
    unfold contentAt. destruct (store st !! top); cbn; [|reflexivity].
    now rewrite app_nil_r. }
  unfold mutate. destruct (store st !! top) as [o|] eqn:Ho; [|discriminate].
  intros [= <-]. cbn [stack store rootSections currentContent].
  assert (Hlook : forall r,
    <[top := pushContent (c :: cs) o]> (store st) !! r
    = if decide (top = r) then Some (pushContent (c :: cs) o)
      else store st !! r).
  { intros r. apply lookup_mutated. exact Ho. }
  split_and!; try reflexivity.
  - unfold contentAt. rewrite Hlook, Ho.
    destruct (decide (top = top)); [reflexivity | congruence].
  - intros r _ Hr. unfold contentAt. rewrite Hlook.
    destruct (decide (top = r)) as [->|]; [now destruct Hr | reflexivity].
  - apply length_insert.
  - intros r. unfold headerAt. rewrite Hlook.
    destruct (decide (top = r)) as [<-|]; [now rewrite Ho | reflexivity].
  - intros r. unfold childrenAt. rewrite Hlook.
    destruct (decide (top = r)) as [<-|]; [now rewrite Ho | reflexivity].
Qed.

Section StackRuleOfTheBuilder.
Variable slugify : string -> string.
Variable trim : string -> string.

(** One turn of the loop follows the rule. *)
Lemma step_rule (st st' : State) (token : Token) :
  wellFormed st ->
  step slugify trim st token = Some st' ->
  match token with
  | Heading depth text => headingRule slugify depth text st st'
  | _ => contentRule trim token st st'
  end.
Proof.
  intros Hwf E.
  assert (Hother : isHeading token = false ->
                   contentRule trim token st st').
  { intros Hh.
    assert (E' : step slugify trim st token
                 = Some (accumulate trim token st)) by now destruct token.
    rewrite E' in E. injection E as <-. unfold contentRule, accumulate.
    destruct (tokenToContent trim token);
      cbn [store rootSections stack currentContent option_list];
      split_and!; try reflexivity. now rewrite app_nil_r. }
  destruct token as [depth text| | | | | |];
    try (apply Hother; reflexivity).
  clear Hother. cbn [step] in E.
  pose proof Hwf as (Hvalid & _).
  destruct (openSection_spec slugify st depth text Hvalid)
    as (st'' & popped & kept & E' & Hsplit & Hpopped & Hkept & Hstack
        & Hnew & Hattach & Hlen & Hsame & _).
  rewrite E in E'. injection E' as <-.
  destruct (openSection_view slugify _ _ _ _ E)
    as (st1 & Hsave & Hview & Hcur).
  destruct (saveContent_finalRule _ _ Hsave)
    as ((Htop & Hrest) & _ & _ & Hlen1 & Hhead1 & _).
  assert (Hc : forall r, r < length (store st) ->
                 contentAt (store st') r = contentAt (store st1) r).
  { intros r Hr. rewrite !contentAt_view, Hview.
    rewrite lookup_app_l; [reflexivity|]. now rewrite length_map, Hlen1. }
  assert (Hh : forall r, r < length (store st) ->
                 headerAt (store st') r = headerAt (store st1) r).
  { intros r Hr. rewrite !headerAt_view, Hview.
    rewrite lookup_app_l; [reflexivity|]. now rewrite length_map, Hlen1. }
  split_and!.
  - unfold flushed. split.
    + destruct (stack st) as [|top rest] eqn:Hs.
      * now rewrite Hcur.
      * destruct Htop as [Htop Hnil]. split; [|now rewrite Hcur].
        rewrite Hc; [exact Htop|].
        unfold stackValid in Hvalid. rewrite Hs in Hvalid.
        now inversion Hvalid.
    + intros r Hr Hne. rewrite (Hc r Hr). now apply Hrest.
  - intros r Hr. rewrite (Hh r Hr). apply Hhead1.
  - exists popped, kept. now split_and!.
Qed.

(** The states the loop goes through, one for each token and the state
    it starts from. *)
Lemma loop_states (tokens : list Token) :
  forall st, wellFormed st ->
  exists states stn,
    states !! 0 = Some st
    /\ length states = S (length tokens)
    /\ last states = Some stn
    /\ loop slugify trim tokens st = Some stn
    /\ wellFormed stn
    /\ forall i token sti,
         tokens !! i = Some token -> states !! i = Some sti ->
         exists st',
           states !! S i = Some st'
           /\ step slugify trim sti token = Some st'
           /\ match token with
              | Heading depth text => headingRule slugify depth text sti st'
              | _ => contentRule trim token sti st'
              end.
Proof.
  induction tokens as [|token rest IH]; intros st Hwf.
  - exists [st], st. split_and!; try reflexivity; [exact Hwf|].
    intros i token sti H. discriminate H.
  - destruct (step_wellFormed slugify trim st token Hwf) as (st1 & E & Hwf1).
    destruct (IH st1 Hwf1)
      as (states & stn & Hhead & Hlen & Hlast & Hloop & Hwfn & Hrule).
    exists (st :: states), stn. split_and!.
    + reflexivity.
    + cbn [length]. now rewrite Hlen.
    + rewrite last_cons, Hlast. reflexivity.
    + cbn [loop]. rewrite E. exact Hloop.
    + exact Hwfn.
    + intros [|i] tok sti Htok Hsti.
      * cbn in Htok, Hsti. injection Htok as <-. injection Hsti as <-.
        exists st1. split_and!; [exact Hhead | exact E |].
        now apply step_rule.
      * cbn in Htok, Hsti. apply (Hrule i tok sti Htok Hsti).
Qed.

(** C6.  [buildSections] follows the stack rule.  It goes through one
    state for each token, from the empty state.  On a heading of level
    [depth] it first appends the pending content to the content of the
    section on top of the working stack, then takes from the top of the
    stack the sections whose level is at least [depth] and stops at the
    first section of a lower level; the new section becomes the last child
    of that section, or the last root-level section when the stack has
    become empty; and the new section is pushed on the stack.  The content
    of a token that is not a heading is added to the pending content, which
    therefore ends up, in order, at the end of the content of the section
    that is on top of the stack, the deepest open one, at the next heading
    or after the last token.  What [buildSections] returns are the trees
    behind the root-level sections of the last state. *)
Theorem buildSections_stack_rule (tokens : list Token) :
  exists (states : list State) (final : State)
         (forest : list MarkdownSection),
    states !! 0 = Some initial
    /\ length states = S (length tokens)
    /\ (forall i token st,
          tokens !! i = Some token -> states !! i = Some st ->
          exists st',
            states !! S i = Some st'
            /\ step slugify trim st token = Some st'
            /\ match token with
               | Heading depth text => headingRule slugify depth text st st'
               | _ => contentRule trim token st st'
               end)
    /\ (exists st,
          last states = Some st
          /\ saveContent st = Some final
          /\ finalRule st final)
    /\ run slugify trim tokens = Some final
    /\ mapM (readSection (store final) (length (store final)))
         (rootSections final) = Some forest
    /\ buildSections slugify trim tokens = Some forest.
Proof.
  destruct (loop_states tokens initial wellFormed_initial)
    as (states & stn & Hhead & Hlen & Hlast & Hloop & Hwfn & Hrule).
  destruct (saveContent_wellFormed stn Hwfn) as (final & Hsave & _).
  destruct (buildSections_total slugify trim tokens) as [forest Hforest].
  assert (Hrun : run slugify trim tokens = Some final).
  { unfold run. rewrite Hloop. exact Hsave. }
  exists states, final, forest. split_and!; try assumption.
  - exists stn. split_and!; try assumption.
    now apply saveContent_finalRule.
  - unfold buildSections in Hforest. now rewrite Hrun in Hforest.
Qed.

End StackRuleOfTheBuilder.

(* ====================================================================== *)
(** * The properties on the sample inputs, continued *)
(* ====================================================================== *)


(** When two operations share an id, the lookup that builds the map
    answers with the first and the lookup after it with the last. *)
Example getOperationById_duplicate_ids :
  (getOperationById duplicateIdSpec "select").1 = Some selectOperation
  /\ (getOperationById (getOperationById duplicateIdSpec "select").2
        "select").1
     = Some otherSelectOperation.
Proof. split; vm_compute; reflexivity. Qed.

(** The outline of the token list with a preamble. *)
Example preamble_outline :
  outline preambleTokens
  = [(2%Z, "Setup", [Paragraph "Preamble."; Code "npm install" None])].
Proof. reflexivity. Qed.

(** X3 on the demo operations without a cached map. *)
Lemma getOperationById_first_then_last_witness :
  (getOperationById (getOperationById uncachedSpec "insert").2 "insert").1
  = (getOperationById uncachedSpec "insert").1.
Proof.
  pose proof (getOperationById_first_then_last uncachedSpec "insert" eq_refl)
    as H.
  cbv zeta in H. destruct H as (_ & _ & _ & H). apply H.
  apply (bool_decide_unpack _). vm_compute. exact I.
Defined.

(** X4 on the demo spec: the id the spec does not have is left out, and
    the id requested twice comes twice. *)
Lemma getOperationsByIds_ids_witness :
  map op_id
    (getOperationsByIds demoSpec ["insert"; "missing"; "select"; "insert"]).1
  = filter (fun id => id ∈ map op_id (spec_operations demoSpec))
      ["insert"; "missing"; "select"; "insert"].
Proof.
  apply (getOperationsByIds_ids demoSpec
           ["insert"; "missing"; "select"; "insert"] (or_intror eq_refl)).
Defined.

(** X5 on the demo spec. *)
Lemma hasOperation_iff_witness :
  (hasOperation demoSpec "insert").1 = true
  <-> "insert" ∈ map op_id (spec_operations demoSpec).
Proof.
  apply (hasOperation_iff demoSpec "insert" (or_intror eq_refl)).
Defined.

(** X7 on a line that is Swift as well as JavaScript, and on a Swift
    function. *)
Lemma inferLanguage_labels_witness :
  inferLanguage "let x: Int = 1" = "javascript"
  /\ Js.includes "func f() {}" "func " = true.
Proof.
  split.
  - apply (inferLanguage_labels "let x: Int = 1"). reflexivity.
  - apply (inferLanguage_labels "func f() {}"). reflexivity.
Defined.


(** X12 on the demo section, level-2 headings not mapped, and its first
    child. *)
Lemma convertSection_keeps_shape_witness :
  exists node,
    nodeAt (convertSection demoSection false) [1] = Some node
    /\ node_id node = "details" /\ node_type node <> CATEGORY.
Proof.
  destruct (convertSection_keeps_shape demoSection false [1])
    as (node & Hat & Hid & _ & _ & _ & _ & _ & _ & Hcat).
  exists node. split_and!; [exact Hat | exact Hid | now apply Hcat].
Defined.

(** X14 on the demo document merged alone. *)
Lemma mergeMarkdownDocuments_shape_witness :
  exists before body after,
    formatNode (mergeMarkdownDocuments id id [demoDocument] "Book") []
    = before
        +:+ ("## " +:+ pretty 1 +:+ ". " +:+ doc_title demoDocument
               +:+ DOUBLE_NEWLINE +:+ body)
        +:+ after.
Proof.
  apply (mergeMarkdownDocuments_shape id id [demoDocument] "Book"
           demoOptions).
  reflexivity.
Defined.

(** X17 on a code token with a language. *)
Lemma token_rendering_witness :
  formatContent
    (convertContent {| mc_type := MdCode; mc_content := "npm install";
                       mc_language := Some "bash" |})
  = "```" +:+ "bash" +:+ NEWLINE +:+ "npm install" +:+ NEWLINE
      +:+ "```" +:+ DOUBLE_NEWLINE.
Proof.
  apply (token_rendering id (Code "npm install" (Some "bash")) _ eq_refl).
Defined.

(** X18 on the number list of a second example of a twelfth operation. *)
Lemma numberString_inj_witness :
  numberString [12; 2] = numberString [12; 2] /\ [12; 2] = [12; 2].
Proof.
  split; [reflexivity|].
  apply (numberString_inj [12; 2] [12; 2]). reflexivity.
Defined.

(** X19 on the demo tree and the file system with directories, which
    starts empty. *)
Lemma rendered_files_on_disk_witness :
  contents
    (world (formatDocNode foldersPerform emptyFolders demoTree demoOptions
              demoDate))
    !! "out/demo-db-llms.txt"
  = Some (generateCategoryHeader demoTree demoOptions dbCategory
            +:+ formatNode dbCategory []).
Proof.
  pose proof (rendered_files_on_disk foldersPerform contents emptyFolders
                demoTree demoOptions demoDate) as H.
  cbv zeta in H.
  assert (Hflat : forall w e w', foldersPerform w e = Some w' ->
                    contents w' = applyEffect (contents w) e).
  { intros w e w'. unfold foldersPerform.
    destruct e as [path|path content|path|path chunk];
      repeat case_match; intros [= <-]; reflexivity. }
  assert (Hnone : rejected (formatDocNode foldersPerform emptyFolders
                              demoTree demoOptions demoDate) = None).
  { vm_compute. reflexivity. }
  assert (Hnodup : NoDup (map node_id
                            (filter (fun child => node_type child = CATEGORY)
                               (node_children demoTree)))).
  { apply (bool_decide_unpack _). vm_compute. exact I. }
  destruct (H Hflat Hnone Hnodup) as (_ & Hgroup & _).
  apply (Hgroup dbCategory).
  vm_compute. apply elem_of_cons. left. reflexivity.
Defined.

(** X13 on the demo document with level-2 headings mapped to categories:
    its only top-level section has level 2 and gets a group file. *)
Lemma markdownToDocNode_groups_witness :
  performed
    (formatDocNode foldersPerform emptyFolders
       (markdownToDocNode id id demoDocument None (Some true))
       demoOptions demoDate)
  = Mkdir "out"
      :: generateFullDoc
           (markdownToDocNode id id demoDocument None (Some true))
           demoOptions demoDate
      ++ [WriteFile "out/demo-setup-llms.txt"
            (generateCategoryHeader
               (markdownToDocNode id id demoDocument None (Some true))
               demoOptions (convertSection demoSection true)
               +:+ formatNode (convertSection demoSection true) [])].
Proof.
  apply (markdownToDocNode_groups id id foldersPerform emptyFolders
           demoDocument None (Some true) demoOptions demoDate).
  vm_compute. reflexivity.
Defined.

(** X15 on the demo spec and the demo categories. *)
Lemma openRef_group_files_witness :
  performed (formatDocNode foldersPerform emptyFolders demoTree demoOptions
               demoDate)
  = Mkdir "out"
      :: generateFullDoc demoTree demoOptions demoDate
      ++ map (fun group =>
                WriteFile
                  ("out" +:+ "/" +:+ "demo" +:+ "-" +:+ node_id group
                     +:+ "-llms.txt")
                  (generateCategoryHeader demoTree demoOptions group
                     +:+ formatNode group []))
           (convertWithCategories demoSpec demoCategories).
Proof.
  apply (openRef_group_files foldersPerform emptyFolders demoSpec
           demoCategories demoOptions demoDate).
  vm_compute. reflexivity.
Defined.

(** X20 on a path with two dots and one without any. *)
Lemma file_extension_after_last_dot_witness :
  (detectorFileExtension ("docs.v2/Guide" +:+ String dot "MD") = "MD"
   /\ getFileExtension id ("docs.v2/Guide" +:+ String dot "MD") = id "MD")
  /\ detectorFileExtension "docs" = "".
Proof.
  split.
  - apply (proj1 (file_extension_after_last_dot id) "docs.v2/Guide" "MD").
    reflexivity.
  - apply (proj2 (file_extension_after_last_dot id) "docs"). reflexivity.
Defined.

(** X21 with a hint, and without one on a path nothing accepts. *)
Lemma detect_answers_witness :
  detect id (defaultParsers id demoFs) "missing.txt" (Some OPENREF)
  = inl OPENREF.
Proof.
  apply (proj1 (detect_answers id (defaultParsers id demoFs) "missing.txt"
                  (Some OPENREF)) OPENREF eq_refl).
  discriminate.
Defined.

(** X22: with no parser registered, nothing is detected; registering the
    Markdown parser makes the Markdown file detected. *)
Lemma registerParser_detect_witness :
  autoDetect id (registerParser [] (markdownParser id demoFs)) "guide.md"
  = inl MARKDOWN.
Proof.
  apply (proj2 (registerParser_detect id [] (markdownParser id demoFs)
                  "guide.md")
           (undetectable [] "guide.md")).
  - reflexivity.
  - vm_compute. reflexivity.
Defined.

(** X23 on the Markdown file and on two YAML files of the demo file
    system: the one without marker, and the one whose marker comes after
    150 accented letters. *)
Lemma detect_by_extension_witness :
  detect id (defaultParsers id demoFs) ("guide" +:+ String dot "md") None
  = inl MARKDOWN
  /\ detect id (defaultParsers id demoFs) ("plain" +:+ String dot "yml") None
     = inr (undetectable (defaultParsers id demoFs)
              ("plain" +:+ String dot "yml"))
  /\ detect id (defaultParsers id demoFs) ("accent" +:+ String dot "yml")
       None
     = inl OPENREF.
Proof.
  split_and!.
  - apply (proj1 (detect_by_extension id demoFs "guide" "md" eq_refl)).
    + left. reflexivity.
    + exists (FsFile (codeUnits "# Guide")). vm_compute. reflexivity.
  - apply (proj2 (detect_by_extension id demoFs "plain" "yml" eq_refl)
             (codeUnits "name: demo")).
    + left. reflexivity.
    + vm_compute. reflexivity.
  - apply (proj2 (detect_by_extension id demoFs "accent" "yml" eq_refl)
             accentedText).
    + left. reflexivity.
    + vm_compute. reflexivity.
Defined.

(** X24 on the directory of the demo file system. *)
Lemma detect_directory_witness :
  detect id (defaultParsers id demoFs) "docs" None = inl MARKDOWN.
Proof.
  apply (detect_directory id demoFs "docs" ["intro.md"; "notes.txt"]).
  - reflexivity.
  - reflexivity.
  - vm_compute. reflexivity.
Defined.

(** X25 on a document that is one paragraph, and on the token list with a
    preamble. *)
Lemma content_without_or_before_headings_witness :
  buildSections id id [Paragraph "No heading here."] = Some []
  /\ buildSections id id preambleTokens
     = Some [{| sec_level := 2; sec_title := "Setup"; sec_id := "Setup";
                sec_content :=
                  omap (tokenToContent id) [Paragraph "Preamble."]
                    ++ omap (tokenToContent id) [Code "npm install" None];
                sec_children := [] |}].
Proof.
  split.
  - apply (proj1 (content_without_or_before_headings id id)).
    repeat constructor.
  - apply (proj2 (content_without_or_before_headings id id)
             [Paragraph "Preamble."] [Code "npm install" None] 2%Z "Setup");
      repeat constructor.
Defined.

(** C6 on the demo tokens followed by a heading of level 2: at that
    heading the sections of level 3 and 2 are popped and the new section
    is pushed. *)
Lemma buildSections_stack_rule_witness :
  exists st st',
    step id id st (Heading 2 "Usage") = Some st'
    /\ headingRule id 2 "Usage" st st'.
Proof.
  destruct (buildSections_stack_rule id id
              (demoTokens ++ [Heading 2 "Usage"]))
    as (states & final & forest & _ & Hlen & Hrule & _).
  destruct (lookup_lt_is_Some_2 states 5) as [st Hst].
  { rewrite Hlen. cbn. lia. }
  destruct (Hrule 5 (Heading 2 "Usage") st eq_refl Hst)
    as (st' & _ & Hstep & Hheading).
  exists st, st'. split; assumption.
Defined.
